(** * Livestock preprocessing pipeline: a shallow embedding

    Embedding of [2_Scriptes/preprocess_livestock_data_co2e_lsu_v3e.py].

    Conventions of the model.
    - Labels are [string]s over [ascii].  The Python helpers [str.lower],
      [str.upper], [str.strip], [str.isdigit], the operator [in] and the
      regular-expression classes [\w] and [\b] are embedded on the ASCII
      range; a character above 127 is neither a letter, a digit nor white
      space.
    - Numeric cells are exact rationals ([Q]).  Rounding of binary
      floating point and missing cells are outside the model; values are
      compared with [==].
    - Years are integers ([Z]); the conversion of a year to a 64-bit
      integer fails as in the program when the number does not fit.
    - A pandas table is a list of records, in row order. *)

From Stdlib Require Import Bool List Arith ZArith QArith Lia Ascii String.
From Stdlib Require Import Permutation Morphisms Setoid Lqa Sorted.
From Stdlib Require OrderedTypeEx.
Import ListNotations.

Open Scope string_scope.
Open Scope list_scope.

(** ** Characters *)

Module Chr.

Definition code (c : ascii) : nat := nat_of_ascii c.

Definition between (lo hi : nat) (c : ascii) : bool :=
  (lo <=? code c)%nat && (code c <=? hi)%nat.

Definition is_upper (c : ascii) : bool := between 65 90 c.
Definition is_lower (c : ascii) : bool := between 97 122 c.
Definition is_digit (c : ascii) : bool := between 48 57 c.

(** [\w] on the ASCII range: letters, digits and the underscore. *)
Definition is_word (c : ascii) : bool :=
  is_upper c || is_lower c || is_digit c || (code c =? 95)%nat.

(** [str.isspace] on the ASCII range: TAB, LF, VT, FF, CR, the four
    separators FS, GS, RS, US and the blank. *)
Definition is_space (c : ascii) : bool :=
  between 9 13 c || between 28 32 c.

Definition lower (c : ascii) : ascii :=
  if is_upper c then ascii_of_nat (code c + 32) else c.

Definition upper (c : ascii) : ascii :=
  if is_lower c then ascii_of_nat (code c - 32) else c.

End Chr.

(** ** Python string helpers *)

Module Str.

Fixpoint map (f : ascii -> ascii) (s : string) : string :=
  match s with
  | EmptyString => EmptyString
  | String c s' => String (f c) (map f s')
  end.

(** [s.lower()] and [s.upper()]. *)
Definition lower (s : string) : string := map Chr.lower s.
Definition upper (s : string) : string := map Chr.upper s.

(** [s.lstrip()], [s.rstrip()] and [s.strip()]. *)
Fixpoint lstrip (s : string) : string :=
  match s with
  | EmptyString => EmptyString
  | String c s' => if Chr.is_space c then lstrip s' else s
  end.

Fixpoint rstrip (s : string) : string :=
  match s with
  | EmptyString => EmptyString
  | String c s' =>
      match rstrip s' with
      | EmptyString => if Chr.is_space c then EmptyString else String c EmptyString
      | r => String c r
      end
  end.

Definition strip (s : string) : string := rstrip (lstrip s).

(** [s.startswith(p)]. *)
Fixpoint startswith (p s : string) : bool :=
  match p, s with
  | EmptyString, _ => true
  | String _ _, EmptyString => false
  | String a p', String b s' => Ascii.eqb a b && startswith p' s'
  end.

(** [w in s]: [w] occurs in [s] as a substring. *)
Fixpoint isin (w s : string) : bool :=
  startswith w s ||
  match s with
  | EmptyString => false
  | String _ s' => isin w s'
  end.

(** [s[1:]]. *)
Definition tail (s : string) : string :=
  match s with
  | EmptyString => EmptyString
  | String _ s' => s'
  end.

Fixpoint all_digits (s : string) : bool :=
  match s with
  | EmptyString => true
  | String c s' => Chr.is_digit c && all_digits s'
  end.

(** [s.isdigit()]: at least one character, and every character a digit. *)
Definition isdigit (s : string) : bool :=
  match s with
  | EmptyString => false
  | String _ _ => all_digits s
  end.

(** [int(s)] for a string of decimal digits. *)
Fixpoint int_acc (acc : Z) (s : string) : Z :=
  match s with
  | EmptyString => acc
  | String c s' => int_acc (10 * acc + Z.of_nat (Chr.code c - 48)) s'
  end.

Definition int (s : string) : Z := int_acc 0 s.

(** [x in xs] for a collection of strings. *)
Definition mem (x : string) (xs : list string) : bool :=
  existsb (String.eqb x) xs.

(** First and last character, where there is one. *)
Definition head (s : string) : option ascii :=
  match s with
  | EmptyString => None
  | String c _ => Some c
  end.

Fixpoint last (d : option ascii) (s : string) : option ascii :=
  match s with
  | EmptyString => d
  | String c s' => last (Some c) s'
  end.

End Str.

(** ** A backtracking matcher for the fragment of [re] the program uses *)

Module Re.

(** Literal characters, sequence, alternation, [r?], [^], [$] and [\b]. *)
Inductive regex : Type :=
| Eps
| Lit (c : ascii)
| Seq (a b : regex)
| Alt (a b : regex)
| Opt (a : regex)
| Bol
| Eol
| WordB.

(** A literal word, character by character. *)
Fixpoint lit (w : string) : regex :=
  match w with
  | EmptyString => Eps
  | String c w' => Seq (Lit c) (lit w')
  end.

(** Comparison of a pattern character with a subject character; with
    [re.I] the two are compared up to case. *)
Definition chr_eq (ic : bool) (c d : ascii) : bool :=
  if ic then Ascii.eqb (Chr.lower c) (Chr.lower d) else Ascii.eqb c d.

Definition is_word_opt (o : option ascii) : bool :=
  match o with
  | None => false
  | Some c => Chr.is_word c
  end.

(** [$] without [re.M]: the end of the subject, or just before a final
    line feed. *)
Definition at_end (s : string) : bool :=
  match s with
  | EmptyString => true
  | String c EmptyString => Ascii.eqb c "010"%char
  | _ => false
  end.

(** [rmatch ic r prev s k]: match [r] at the head of [s], where [prev] is
    the character just before ([None] at the start of the subject), and
    pass the position reached to the continuation [k].  The result is the
    rest of the subject after the first successful match, alternatives
    tried left to right. *)
Fixpoint rmatch (ic : bool) (r : regex) (prev : option ascii) (s : string)
    (k : option ascii -> string -> option string) : option string :=
  match r with
  | Eps => k prev s
  | Lit c =>
      match s with
      | EmptyString => None
      | String d s' => if chr_eq ic c d then k (Some d) s' else None
      end
  | Seq a b => rmatch ic a prev s (fun p t => rmatch ic b p t k)
  | Alt a b =>
      match rmatch ic a prev s k with
      | Some t => Some t
      | None => rmatch ic b prev s k
      end
  | Opt a =>
      match rmatch ic a prev s k with
      | Some t => Some t
      | None => k prev s
      end
  | Bol => match prev with None => k prev s | Some _ => None end
  | Eol => if at_end s then k prev s else None
  | WordB =>
      if xorb (is_word_opt prev) (is_word_opt (Str.head s))
      then k prev s else None
  end.

Definition accept : option ascii -> string -> option string :=
  fun _ t => Some t.

(** Match at the current position. *)
Definition match_here (ic : bool) (r : regex) (prev : option ascii)
    (s : string) : option string :=
  rmatch ic r prev s accept.

(** [re.search(r, s)]: the leftmost position where [r] matches. *)
Fixpoint search_from (ic : bool) (r : regex) (prev : option ascii)
    (s : string) : bool :=
  match match_here ic r prev s with
  | Some _ => true
  | None =>
      match s with
      | EmptyString => false
      | String c s' => search_from ic r (Some c) s'
      end
  end.

Definition search (ic : bool) (r : regex) (s : string) : bool :=
  search_from ic r None s.

(** [re.sub(r, repl, s)] for a pattern that matches no empty string: scan
    left to right; at a match write [repl] and resume after the match,
    elsewhere copy the character.  [skip] counts the characters of the
    current match still to pass over. *)
Fixpoint sub_from (ic : bool) (r : regex) (repl : string)
    (prev : option ascii) (s : string) (skip : nat) : string :=
  match s with
  | EmptyString => EmptyString
  | String c s' =>
      match skip with
      | S n => sub_from ic r repl (Some c) s' n
      | O =>
          match match_here ic r prev s with
          | Some rest =>
              match (String.length s - String.length rest)%nat with
              | O => String c (sub_from ic r repl (Some c) s' 0)
              | S n => repl ++ sub_from ic r repl (Some c) s' n
              end
          | None => String c (sub_from ic r repl (Some c) s' 0)
          end
      end
  end.

Definition sub (ic : bool) (r : regex) (repl s : string) : string :=
  sub_from ic r repl None s 0.

End Re.

(** ** Element normalisation *)

Inductive ElementNorm : Type := Stocks | CH4 | N2O.

(** [(^stocks?$|\bstock\b)] *)
Definition re_stock : Re.regex :=
  Re.Alt
    (Re.Seq Re.Bol (Re.Seq (Re.lit "stock") (Re.Seq (Re.Opt (Re.Lit "s")) Re.Eol)))
    (Re.Seq Re.WordB (Re.Seq (Re.lit "stock") Re.WordB)).

(** [\b(ch4|methane)\b] *)
Definition re_ch4 : Re.regex :=
  Re.Seq Re.WordB (Re.Seq (Re.Alt (Re.lit "ch4") (Re.lit "methane")) Re.WordB).

(** [\b(n2o|nitrous)\b] *)
Definition re_n2o : Re.regex :=
  Re.Seq Re.WordB (Re.Seq (Re.Alt (Re.lit "n2o") (Re.lit "nitrous")) Re.WordB).

Definition normalize_element (e : option string) : option ElementNorm :=
  match e with
  | None => None
  | Some e =>
      let s := Str.lower (Str.strip e) in
      if Re.search true re_stock s then Some Stocks
      else if Re.search true re_ch4 s then Some CH4
      else if Re.search true re_n2o s then Some N2O
      else None
  end.

(** ** Taxonomy and country groups *)

Definition ALL_ANIMALS_LIST : list string :=
  ["All animals"; "All animal"; "All livestock"; "Total animals"; "Animals, all"].

Definition AGGREGATE_LIST : list string :=
  ["Camels and Llamas"; "Cattle"; "Mules and Asses"; "Poultry Birds";
   "Sheep and Goats"; "Swine"].

Definition ATOMIC_LIST : list string :=
  ["Asses"; "Buffalo"; "Camels"; "Swine, breeding"; "Swine, market"; "Turkeys";
   "Cattle, dairy"; "Cattle, non-dairy"; "Chickens, broilers"; "Chickens, layers";
   "Ducks"; "Goats"; "Horses"; "Sheep"].

Definition EXCLUDE_ITEMS : list string :=
  List.map Str.lower ["Chickens"; "Mules and hinnies"].

Definition EU : list string :=
  ["Austria"; "Belgium"; "Bulgaria"; "Croatia"; "Cyprus"; "Czechia";
   "Czech Republic"; "Denmark"; "Estonia"; "Finland"; "France"; "Germany";
   "Greece"; "Hungary"; "Ireland"; "Italy"; "Latvia"; "Lithuania"; "Luxembourg";
   "Malta"; "Netherlands"; "Poland"; "Portugal"; "Romania"; "Slovakia";
   "Slovenia"; "Spain"; "Sweden"].

Definition EEA_PLUS_UK : list string :=
  EU ++ ["Iceland"; "Liechtenstein"; "Norway"; "United Kingdom"; "UK"].

Definition EUROPE_WIDE : list string :=
  ["Albania"; "Andorra"; "Armenia"; "Austria"; "Azerbaijan"; "Belarus";
   "Belgium"; "Bosnia and Herzegovina"; "Bulgaria"; "Croatia"; "Cyprus";
   "Czechia"; "Czech Republic"; "Denmark"; "Estonia"; "Finland"; "France";
   "Georgia"; "Germany"; "Greece"; "Hungary"; "Iceland"; "Ireland"; "Italy";
   "Kazakhstan"; "Kosovo"; "Latvia"; "Liechtenstein"; "Lithuania";
   "Luxembourg"; "Malta"; "Moldova"; "Monaco"; "Montenegro"; "Netherlands";
   "North Macedonia"; "Norway"; "Poland"; "Portugal"; "Romania"; "Russia";
   "San Marino"; "Serbia"; "Slovakia"; "Slovenia"; "Spain"; "Sweden";
   "Switzerland"; "Turkey"; "Ukraine"; "United Kingdom"; "UK"; "Vatican City"].

(** ** The helper functions of the script *)

Definition detect_year_cols (cols : list string) : list string :=
  filter (fun c => Str.startswith "Y" c && Str.isdigit (Str.tail c)) cols.

(** [dict.get(key, default)] on an association list. *)
Fixpoint dict_get {V : Type} (d : list (string * V)) (key : string) (default : V) : V :=
  match d with
  | [] => default
  | (k, v) :: d' => if String.eqb k key then v else dict_get d' key default
  end.

Definition GWP_TABLE : list (string * (Q * Q)) :=
  [("AR4", (25, 298)); ("AR5", (28, 265));
   ("AR6_NOCCF", (27.2, 273)); ("AR6_CCF", (29.8, 273))]%Q.

Definition gwp_pair (name : string) : Q * Q :=
  dict_get GWP_TABLE (Str.upper (Str.strip name)) (27.2, 273)%Q.

Inductive ItemKind : Type := all_animals | aggregate | atomic.

Definition item_kind (label : string) : ItemKind :=
  let lab := Str.strip label in
  let low := Str.lower lab in
  if Str.mem low (List.map Str.lower ALL_ANIMALS_LIST) then all_animals
  else if Str.mem low (List.map Str.lower AGGREGATE_LIST) then aggregate
  else if Str.mem low (List.map Str.lower ATOMIC_LIST) then atomic
  else atomic.

Definition looks_like_cattle (name : string) : bool :=
  let n := Str.lower name in
  Str.isin "cattle" n || Str.isin "bovine" n.

Definition default_lsu_weight (item : string) : Q :=
  let il := Str.lower item in
  if Str.isin "dairy" il && (Str.isin "cattle" il || Str.isin "bovine" il) then 1.0
  else if Str.isin "cattle" il || Str.isin "bovine" il then 0.8
  else if Str.isin "buffalo" il then 1.0
  else if Str.isin "sheep" il || Str.isin "goat" il then 0.1
  else if Str.isin "pig" il || Str.isin "swine" il then 0.3
  else if Str.isin "poultry" il || Str.isin "chicken" il
          || Str.isin "turkey" il || Str.isin "duck" il then 0.01
  else if Str.isin "horse" il || Str.isin "equid" il then 0.8
  else 1.0.

Definition is_livestock_total_element (label : option string) : bool :=
  match label with
  | None => false
  | Some s =>
      Re.search true (Re.lit "livestock") s && Re.search true (Re.lit "total") s
  end.

(** ** Tables *)

(** A row of the raw table: the three label columns, and the numeric cell
    under every other column, by column name. *)
Record RawRow : Type := mkRaw {
  raw_Area : string;
  raw_Item : string;
  raw_Element : string;
  raw_cell : string -> Q
}.

(** The table read from the input file: its header and its rows. *)
Record DataFrame : Type := mkDF {
  columns : list string;
  rows : list RawRow
}.

(** A row of [long], the table after [melt]. *)
Record LongRow : Type := mkLong {
  l_Area : string;
  l_Item : string;
  l_Element : string;
  l_ElementNorm : ElementNorm;
  l_item_kind : ItemKind;
  l_is_all_animals : bool;
  l_is_atomic : bool;
  l_Year : Z;
  l_Value : Q
}.

(** The seven columns [Area, Item, Year, Value, item_kind, is_all_animals,
    is_atomic] of the metric frames. *)
Record Rec : Type := mkRec {
  Area : string;
  Item : string;
  Year : Z;
  Value : Q;
  kind : ItemKind;
  is_all_animals : bool;
  is_atomic : bool
}.

Inductive MetricName : Type :=
| M_Stocks | M_CH4_CO2e | M_N2O_CO2e | M_Total_CO2e | M_LSU.

Definition metric_label (m : MetricName) : string :=
  match m with
  | M_Stocks => "Stocks"
  | M_CH4_CO2e => "CH4_CO2e"
  | M_N2O_CO2e => "N2O_CO2e"
  | M_Total_CO2e => "Total_CO2e"
  | M_LSU => "LSU"
  end.

(** A row of the output: a metric frame row and its [Metric] column. *)
Record Row : Type := mkRow {
  Metric : MetricName;
  body : Rec
}.

Definition with_metric (m : MetricName) (f : list Rec) : list Row :=
  List.map (mkRow m) f.

Definition set_Value (r : Rec) (v : Q) : Rec :=
  mkRec (Area r) (Item r) (Year r) v (kind r) (is_all_animals r) (is_atomic r).

Definition set_Area (a : string) (r : Row) : Row :=
  mkRow (Metric r)
    (mkRec a (Item (body r)) (Year (body r)) (Value (body r)) (kind (body r))
       (is_all_animals (body r)) (is_atomic (body r))).

(** ** Equality and order on column values *)

Definition kind_label (k : ItemKind) : string :=
  match k with
  | all_animals => "all_animals"
  | aggregate => "aggregate"
  | atomic => "atomic"
  end.

Definition kind_eqb (a b : ItemKind) : bool :=
  match a, b with
  | all_animals, all_animals | aggregate, aggregate | atomic, atomic => true
  | _, _ => false
  end.

Definition metric_eqb (a b : MetricName) : bool :=
  String.eqb (metric_label a) (metric_label b).

Definition norm_eqb (a b : ElementNorm) : bool :=
  match a, b with
  | Stocks, Stocks | CH4, CH4 | N2O, N2O => true
  | _, _ => false
  end.

(** Lexicographic comparison, column by column. *)
Definition lex (c1 c2 : comparison) : comparison :=
  match c1 with Eq => c2 | _ => c1 end.

Definition bool_compare (a b : bool) : comparison :=
  match a, b with
  | false, true => Lt
  | true, false => Gt
  | _, _ => Eq
  end.

Definition is_le (c : comparison) : bool :=
  match c with Gt => false | _ => true end.

(** The grouping key [Area, Item, Year, item_kind, is_all_animals,
    is_atomic] of the metric frames. *)
Definition Key6 : Type := string * string * Z * ItemKind * bool * bool.

Definition key6 (r : Rec) : Key6 :=
  (Area r, Item r, Year r, kind r, is_all_animals r, is_atomic r).

Definition key6_eqb (a b : Key6) : bool :=
  let '(a1, a2, a3, a4, a5, a6) := a in
  let '(b1, b2, b3, b4, b5, b6) := b in
  String.eqb a1 b1 && String.eqb a2 b2 && Z.eqb a3 b3 && kind_eqb a4 b4
  && Bool.eqb a5 b5 && Bool.eqb a6 b6.

Definition key6_compare (a b : Key6) : comparison :=
  let '(a1, a2, a3, a4, a5, a6) := a in
  let '(b1, b2, b3, b4, b5, b6) := b in
  lex (String.compare a1 b1) (lex (String.compare a2 b2) (lex (Z.compare a3 b3)
    (lex (String.compare (kind_label a4) (kind_label b4))
       (lex (bool_compare a5 b5) (bool_compare a6 b6))))).

Definition rec_of_key6 (kv : Key6 * Q) : Rec :=
  let '((a, i, y, k, aa, at_), v) := kv in mkRec a i y v k aa at_.

(** The grouping key [Item, Year, Metric, item_kind, is_all_animals,
    is_atomic] of the group totals. *)
Definition KeyG : Type := string * Z * MetricName * ItemKind * bool * bool.

Definition keyG (r : Row) : KeyG :=
  (Item (body r), Year (body r), Metric r, kind (body r),
   is_all_animals (body r), is_atomic (body r)).

Definition keyG_eqb (a b : KeyG) : bool :=
  let '(a1, a2, a3, a4, a5, a6) := a in
  let '(b1, b2, b3, b4, b5, b6) := b in
  String.eqb a1 b1 && Z.eqb a2 b2 && metric_eqb a3 b3 && kind_eqb a4 b4
  && Bool.eqb a5 b5 && Bool.eqb a6 b6.

Definition keyG_compare (a b : KeyG) : comparison :=
  let '(a1, a2, a3, a4, a5, a6) := a in
  let '(b1, b2, b3, b4, b5, b6) := b in
  lex (String.compare a1 b1) (lex (Z.compare a2 b2)
    (lex (String.compare (metric_label a3) (metric_label b3))
      (lex (String.compare (kind_label a4) (kind_label b4))
         (lex (bool_compare a5 b5) (bool_compare a6 b6))))).

Definition row_of_keyG (label : string) (kv : KeyG * Q) : Row :=
  let '((i, y, m, k, aa, at_), v) := kv in mkRow m (mkRec label i y v k aa at_).

(** The sort key [Area, Item, Year, Metric] of the output. *)
Definition out_compare (a b : Row) : comparison :=
  lex (String.compare (Area (body a)) (Area (body b)))
    (lex (String.compare (Item (body a)) (Item (body b)))
       (lex (Z.compare (Year (body a)) (Year (body b)))
          (String.compare (metric_label (Metric a)) (metric_label (Metric b))))).

(** ** pandas operations *)

Section Frames.

Context {A : Type}.

(** [sort_values]: a stable sort, by insertion. *)
Fixpoint insert_sorted (cmp : A -> A -> comparison) (x : A) (l : list A) : list A :=
  match l with
  | [] => [x]
  | y :: l' =>
      if is_le (cmp x y) then x :: l else y :: insert_sorted cmp x l'
  end.

Definition sort_values (cmp : A -> A -> comparison) (l : list A) : list A :=
  fold_right (insert_sorted cmp) [] l.

(** The distinct values of a column, in order of first appearance. *)
Fixpoint unique (eqb : A -> A -> bool) (l : list A) : list A :=
  match l with
  | [] => []
  | x :: l' => x :: filter (fun y => negb (eqb x y)) (unique eqb l')
  end.

End Frames.

(** [Series.sum()]: the values added up from left to right. *)
Definition sumQ (l : list Q) : Q := fold_left Qplus l 0%Q.

Section GroupBy.

Context {A K : Type}.
Variable key : A -> K.
Variable val : A -> Q.
Variable eqb : K -> K -> bool.
Variable cmp : K -> K -> comparison.

(** The rows of one group. *)
Definition group (l : list A) (k : K) : list A :=
  filter (fun a => eqb (key a) k) l.

(** [l.groupby(key, as_index=False)[val].sum()]: one row per distinct
    key, the groups in key order, each with the sum of its values. *)
Definition groupby_sum (l : list A) : list (K * Q) :=
  List.map (fun k => (k, sumQ (List.map val (group l k))))
    (sort_values cmp (unique eqb (List.map key l))).

End GroupBy.

(** [pd.merge(left, right, on=key, how="outer")] of two frames with one
    value column each: every pair of rows that agree on the key, then the
    rows of either side without a partner, the absent value missing. *)
Definition merge_outer (left right : list (Key6 * Q))
  : list (Key6 * option Q * option Q) :=
  sort_values (fun a b => key6_compare (fst (fst a)) (fst (fst b)))
    (flat_map
       (fun a =>
          match filter (fun b => key6_eqb (fst a) (fst b)) right with
          | [] => [(fst a, Some (snd a), None)]
          | ms => List.map (fun b => (fst a, Some (snd a), Some (snd b))) ms
          end) left
     ++ List.map (fun b => (fst b, None, Some (snd b)))
          (filter (fun b => negb (existsb (fun a => key6_eqb (fst a) (fst b)) left))
             right)).

(** [fillna(0.0)] on a value. *)
Definition fillna0 (v : option Q) : Q :=
  match v with
  | Some q => q
  | None => 0%Q
  end.

(** [df.melt(id_vars=..., value_vars=year_cols)]: the rows of the first
    year column, then of the second, and so on; [Year] is the column name
    without its first character, read as a decimal number.  The conversion
    of that number to a 64-bit integer, which can fail, is [astype_int]. *)
Definition melt (year_cols : list string)
    (df : list (RawRow * ElementNorm)) : list LongRow :=
  flat_map
    (fun c =>
       List.map
         (fun rn : RawRow * ElementNorm =>
            let (r, n) := rn in
            let k := item_kind (raw_Item r) in
            mkLong (raw_Area r) (raw_Item r) (raw_Element r) n
              k (kind_eqb k all_animals) (kind_eqb k atomic)
              (Str.int (Str.tail c)) (raw_cell r c))
         df)
    year_cols.

(** [long[long["ElementNorm"]==n][[Area, Item, Year, Value, ...]]]. *)
Definition select (n : ElementNorm) (long : list LongRow) : list Rec :=
  List.map
    (fun l => mkRec (l_Area l) (l_Item l) (l_Year l) (l_Value l)
                (l_item_kind l) (l_is_all_animals l) (l_is_atomic l))
    (filter (fun l => norm_eqb (l_ElementNorm l) n) long).

(** ** The pipeline *)

Record Args : Type := mkArgs {
  gwp : string;
  split_cattle : string;
  dairy_share : Q;
  only_livestock_total : string
}.

Definition default_args : Args := mkArgs "AR6_NOCCF" "true" 35.0 "true".

(** [str(x).strip().lower() in {"1","true","yes","y"}] *)
Definition flag (x : string) : bool :=
  Str.mem (Str.lower (Str.strip x)) ["1"; "true"; "yes"; "y"].

(** Python's [min(a, b)] and [max(a, b)]: the first argument unless the
    second is strictly smaller (larger). *)
Definition py_min (a b : Q) : Q := if Qlt_le_dec b a then b else a.
Definition py_max (a b : Q) : Q := if Qlt_le_dec a b then b else a.

Definition dairy_frac_of (share : Q) : Q :=
  py_max 0.0 (py_min 1.0 (share / 100.0)).

(** The ways a run ends without writing: the three [sys.exit] of lines 106,
    116 and 190, and the [OverflowError] of the year conversion at line
    132. *)
Inductive Error : Type :=
| MissingColumns (missing : list string)
| NoYearColumns
| NothingToWrite
| YearOverflow.

(** Lines 108-112: the label columns stripped, the excluded items removed. *)
Definition clean (rs : list RawRow) : list RawRow :=
  filter
    (fun r => negb (Str.mem (Str.lower (Str.strip (raw_Item r))) EXCLUDE_ITEMS))
    (List.map
       (fun r => mkRaw (Str.strip (raw_Area r)) (Str.strip (raw_Item r))
                   (Str.strip (raw_Element r)) (raw_cell r))
       rs).

(** Lines 118-119: the [ElementNorm] column, and the rows without one dropped. *)
Definition classify (rs : list RawRow) : list (RawRow * ElementNorm) :=
  flat_map
    (fun r =>
       match normalize_element (Some (raw_Element r)) with
       | Some n => [(r, n)]
       | None => []
       end)
    rs.

Definition is_gas (n : ElementNorm) : bool := norm_eqb n CH4 || norm_eqb n N2O.

(** Lines 121-124: the only-livestock-total filter. *)
Definition livestock_total_filter (only_lt : bool)
    (df : list (RawRow * ElementNorm)) : list (RawRow * ElementNorm) :=
  if only_lt then
    filter
      (fun rn : RawRow * ElementNorm =>
         let mask_gases := is_gas (snd rn) in
         let lt_mask := is_livestock_total_element (Some (raw_Element (fst rn))) in
         negb mask_gases || (mask_gases && lt_mask))
      df
  else df.

(** Lines 141-165: a gas frame, scaled in place when it is not empty. *)
Definition scaled (factor : Q) (f : list Rec) : list Rec :=
  match f with
  | [] => f
  | _ => List.map (fun r => set_Value r (Value r * factor)%Q) f
  end.

Definition groupby6 (f : list Rec) : list (Key6 * Q) :=
  groupby_sum key6 Value key6_eqb key6_compare f.

Definition co2e_frame (f : list Rec) : list Rec :=
  List.map rec_of_key6 (groupby6 f).

Definition total_frame (ch4 n2o : list Rec) : list Rec :=
  List.map
    (fun t : Key6 * option Q * option Q =>
       let '(k, c, n) := t in
       rec_of_key6 (k, (fillna0 c + fillna0 n)%Q))
    (merge_outer (groupby6 ch4) (groupby6 n2o)).

(** Lines 168-181: the cattle split of the stocks frame. *)
Definition re_cattle : Re.regex := Re.lit "cattle".

Definition split_row (frac : Q) (token : string) (r : Rec) : Rec :=
  mkRec (Area r) (Re.sub true re_cattle token (Item r)) (Year r)
    (Value r * frac)%Q atomic false true.

Definition cattle_split (split : bool) (dairy_frac : Q) (sb : list Rec) : list Rec :=
  if split then
    let cattle := filter (fun r => looks_like_cattle (Item r)) sb in
    let non_cattle := filter (fun r => negb (looks_like_cattle (Item r))) sb in
    match cattle with
    | [] => sb
    | _ =>
        let dairy := List.map (split_row dairy_frac "Cattle (dairy)") cattle in
        let other := List.map (split_row (1.0 - dairy_frac) "Cattle (other)") cattle in
        non_cattle ++ dairy ++ other
    end
  else sb.

(** Lines 183-186: the LSU frame. *)
Definition lsu_frame (sb : list Rec) : list Rec :=
  List.map (fun r => set_Value r (Value r * default_lsu_weight (Item r))%Q) sb.

Definition is_empty {A : Type} (l : list A) : bool :=
  match l with [] => true | _ => false end.

(** Lines 134-187: the list [prepared] of metric frames. *)
Definition prepared (a : Args) (long : list LongRow) : list (list Row) :=
  let GWP_CH4 := fst (gwp_pair (gwp a)) in
  let GWP_N2O := snd (gwp_pair (gwp a)) in
  let stocks := select Stocks long in
  let ch4 := scaled GWP_CH4 (select CH4 long) in
  let n2o := scaled GWP_N2O (select N2O long) in
  (if is_empty stocks then [] else [with_metric M_Stocks stocks])
  ++ (if is_empty ch4 then [] else [with_metric M_CH4_CO2e (co2e_frame ch4)])
  ++ (if is_empty n2o then [] else [with_metric M_N2O_CO2e (co2e_frame n2o)])
  ++ (if is_empty ch4 && is_empty n2o then []
      else [with_metric M_Total_CO2e (total_frame ch4 n2o)])
  ++ (if is_empty stocks then []
      else [with_metric M_LSU
              (lsu_frame
                 (cattle_split (flag (split_cattle a))
                    (dairy_frac_of (dairy_share a)) stocks))]).

(** Lines 192-193: the per-country table [out]. *)
Definition per_country (frames : list (list Row)) : list Row :=
  sort_values out_compare (List.concat frames).

(** Lines 196-203: [group_totals]. *)
Definition group_totals (df_long : list Row) (members : list string)
    (label : string) : list Row :=
  let sub := filter (fun r => Str.mem (Area (body r)) members) df_long in
  match sub with
  | [] => sub
  | _ =>
      List.map (row_of_keyG label)
        (groupby_sum keyG (fun r => Value (body r)) keyG_eqb keyG_compare sub)
  end.

(** [set(out["Area"].unique()).intersection(members)] *)
Definition intersection (available members : list string) : list string :=
  filter (fun a => Str.mem a members) available.

(** Lines 205-213: the frames [add] of one group, none when the group has
    no country in the table. *)
Definition region_frames (out : list Row) (members : list string)
    (label : string) : list (list Row) :=
  let areas_available := unique String.eqb (List.map (fun r => Area (body r)) out) in
  let inter := intersection areas_available members in
  if is_empty inter then [] else [group_totals out inter label].

Definition add_frames (out : list Row) : list (list Row) :=
  region_frames out EU "EU (group total)"
  ++ region_frames out EEA_PLUS_UK "EU/EEA+UK (group total)"
  ++ region_frames out EUROPE_WIDE "Europe (group total)".

(** Lines 210-215. *)
Definition append_totals (out : list Row) : list Row :=
  let add := add_frames out in
  if is_empty add then out
  else sort_values out_compare (List.concat (out :: add)).

(** Line 132, [astype(int)]: every year of the long table is converted to
    a 64-bit integer; the conversion raises [OverflowError] when a year of
    some row does not fit, and then nothing is written.  A table without
    rows converts without error. *)
Definition fits_int64 (z : Z) : bool :=
  (- 2 ^ 63 <=? z)%Z && (z <=? 2 ^ 63 - 1)%Z.

Definition astype_int (long : list LongRow) : option (list LongRow) :=
  if forallb (fun l => fits_int64 (l_Year l)) long then Some long else None.

(** Lines 103-132: from the raw table to [long]. *)
Definition to_long (a : Args) (df : DataFrame) : Error + list LongRow :=
  let missing :=
    filter (fun c => negb (Str.mem c (columns df))) ["Area"; "Element"; "Item"] in
  if negb (is_empty missing) then inl (MissingColumns missing)
  else
    let rs := clean (rows df) in
    let year_cols := detect_year_cols (columns df) in
    if is_empty year_cols then inl NoYearColumns
    else
      match
        astype_int
          (melt year_cols
             (livestock_total_filter (flag (only_livestock_total a)) (classify rs)))
      with
      | Some long => inr long
      | None => inl YearOverflow
      end.

(** [main], from the table read to the table written. *)
Definition main (a : Args) (df : DataFrame) : Error + list Row :=
  match to_long a df with
  | inl e => inl e
  | inr long =>
      let frames := prepared a long in
      if is_empty frames then inl NothingToWrite
      else inr (append_totals (per_country frames))
  end.

(** ** Reading a table by key *)

(** The rows of a table with a given metric, area, item and year. *)
Definition at_key (m : MetricName) (a i : string) (y : Z) (r : Row) : bool :=
  metric_eqb (Metric r) m && String.eqb (Area (body r)) a
  && String.eqb (Item (body r)) i && Z.eqb (Year (body r)) y.

Definition rows_at (out : list Row) (m : MetricName) (a i : string) (y : Z)
  : list Row :=
  filter (at_key m a i y) out.

(** The value a table holds under a key: the sum of the rows there, [0]
    when there is none. *)
Definition value_at (out : list Row) (m : MetricName) (a i : string) (y : Z) : Q :=
  sumQ (List.map (fun r => Value (body r)) (rows_at out m a i y)).

(** ** The rules of the specification, for comparison with the code *)





(** The stocks frame that enters the LSU computation, after the split. *)
Definition post_split (a : Args) (long : list LongRow) : list Rec :=
  cattle_split (flag (split_cattle a)) (dairy_frac_of (dairy_share a))
    (select Stocks long).

(** The values the long table records for an element under a key. *)
Definition long_at (n : ElementNorm) (a i : string) (y : Z) (l : LongRow) : bool :=
  norm_eqb (l_ElementNorm l) n && String.eqb (l_Area l) a
  && String.eqb (l_Item l) i && Z.eqb (l_Year l) y.

Definition raw_values (n : ElementNorm) (a i : string) (y : Z)
    (long : list LongRow) : list Q :=
  List.map l_Value (filter (long_at n a i y) long).

(** The frame [prepared] holds for a metric (empty when it holds none). *)
Definition frame (a : Args) (long : list LongRow) (m : MetricName) : list Rec :=
  let ch4 := scaled (fst (gwp_pair (gwp a))) (select CH4 long) in
  let n2o := scaled (snd (gwp_pair (gwp a))) (select N2O long) in
  match m with
  | M_Stocks => select Stocks long
  | M_CH4_CO2e => co2e_frame ch4
  | M_N2O_CO2e => co2e_frame n2o
  | M_Total_CO2e => total_frame ch4 n2o
  | M_LSU => lsu_frame (post_split a long)
  end.

(** The frames of [prepared] side by side, the empty ones included. *)
Definition all_frames (a : Args) (long : list LongRow) : list Row :=
  with_metric M_Stocks (frame a long M_Stocks)
  ++ with_metric M_CH4_CO2e (frame a long M_CH4_CO2e)
  ++ with_metric M_N2O_CO2e (frame a long M_N2O_CO2e)
  ++ with_metric M_Total_CO2e (frame a long M_Total_CO2e)
  ++ with_metric M_LSU (frame a long M_LSU).

(** A frame row under an area, item and year. *)
Definition rec_at (a i : string) (y : Z) (b : Rec) : bool :=
  String.eqb (Area b) a && String.eqb (Item b) i && Z.eqb (Year b) y.

(** The item kind columns of a row agree with its item label. *)
Definition kinds_ok (k : ItemKind) (aa at_ : bool) (item : string) : Prop :=
  k = item_kind item /\ aa = kind_eqb k all_animals /\ at_ = kind_eqb k atomic.

Definition long_ok (l : LongRow) : Prop :=
  kinds_ok (l_item_kind l) (l_is_all_animals l) (l_is_atomic l) (l_Item l).

Definition rec_ok (r : Rec) : Prop :=
  kinds_ok (kind r) (is_all_animals r) (is_atomic r) (Item r).

(** The grouping key of the rows of an area, item and year. *)
Definition full_key (a i : string) (y : Z) : Key6 :=
  (a, i, y, item_kind i, kind_eqb (item_kind i) all_animals,
   kind_eqb (item_kind i) atomic).

(** The value a grouped frame holds under a key, if any. *)
Fixpoint assoc6 (k : Key6) (l : list (Key6 * Q)) : option Q :=
  match l with
  | [] => None
  | (k', v) :: l' => if key6_eqb k' k then Some v else assoc6 k l'
  end.

(** ** A sample table *)

(** The numeric cells of a row, by column name. *)
Definition cells (vs : list (string * Q)) : string -> Q :=
  fun c => dict_get vs c 0%Q.

Definition sample_df : DataFrame :=
  mkDF ["Area"; "Item"; "Element"; "Y2019"; "Y2020"]
    [ mkRaw "France" "Cattle" "Stocks" (cells [("Y2019", 900); ("Y2020", 1000)]%Q);
      mkRaw "France" "Cattle" "Livestock total (Emissions CH4)"
        (cells [("Y2019", 9); ("Y2020", 10)]%Q);
      mkRaw "France" "Cattle" "Livestock total, indirect (Emissions CH4)"
        (cells [("Y2019", 1); ("Y2020", 2)]%Q);
      mkRaw "France" "Cattle" "Livestock total (Emissions N2O)"
        (cells [("Y2019", 0.5); ("Y2020", 0.5)]%Q);
      mkRaw "France" "Cattle" "Enteric fermentation (Emissions CH4)"
        (cells [("Y2019", 7); ("Y2020", 8)]%Q);
      mkRaw " Germany" "Sheep" "Stocks" (cells [("Y2019", 200); ("Y2020", 210)]%Q);
      mkRaw "Germany" "Sheep" "stocks" (cells [("Y2019", 20); ("Y2020", 21)]%Q);
      mkRaw "Germany" "Sheep" "Livestock total (Emissions N2O)"
        (cells [("Y2019", 3); ("Y2020", 4)]%Q);
      mkRaw "Brazil" "Swine" "Stocks" (cells [("Y2019", 70); ("Y2020", 80)]%Q);
      mkRaw "France" "Chickens" "Stocks" (cells [("Y2019", 5); ("Y2020", 6)]%Q);
      mkRaw "France" "Goats" "Area harvested" (cells [("Y2019", 5); ("Y2020", 6)]%Q) ].

Definition sample_long : list LongRow :=
  Eval vm_compute in
    match to_long default_args sample_df with
    | inr long => long
    | inl _ => []
    end.

Definition sample_out : list Row :=
  Eval vm_compute in per_country (prepared default_args sample_long).

(** ** Notions used in the statements about labels *)

(** [s[n:]] and [s[:n]]. *)
Fixpoint str_drop (n : nat) (s : string) : string :=
  match n, s with
  | O, _ => s
  | S _, EmptyString => EmptyString
  | S n', String _ s' => str_drop n' s'
  end.

Fixpoint str_take (n : nat) (s : string) : string :=
  match n, s with
  | O, _ => EmptyString
  | S _, EmptyString => EmptyString
  | S n', String c s' => String c (str_take n' s')
  end.

(** [s] begins with the characters of [w], compared as [re] compares a
    pattern character with a subject character. *)
Fixpoint starts_with_lit (ic : bool) (w s : string) : bool :=
  match w, s with
  | EmptyString, _ => true
  | String _ _, EmptyString => false
  | String c w', String d s' => Re.chr_eq ic c d && starts_with_lit ic w' s'
  end.

(** [w] occurs in [s]: some text, then [w], then some text. *)
Definition occurs (w s : string) : Prop :=
  exists pre post, s = (pre ++ w ++ post)%string.

(** [w] occurs in [s] in any casing. *)
Definition occurs_ci (w s : string) : Prop :=
  occurs (Str.lower w) (Str.lower s).

(** The lower-case word [w] occurs in [s] in any casing as a whole word:
    no letter, digit or underscore stands just before or just after it. *)
Definition occurs_as_word (w s : string) : Prop :=
  exists pre m post,
    s = (pre ++ m ++ post)%string /\ Str.lower m = w /\
    Re.is_word_opt (Str.last None pre) = false /\
    Re.is_word_opt (Str.head post) = false.

(** The year-column pattern in the words of the specification: a letter
    followed by four digits. *)
Definition letter_four_digits (c : string) : bool :=
  match c with
  | EmptyString => false
  | String l ds =>
      (Chr.is_upper l || Chr.is_lower l)
      && (String.length ds =? 4)%nat && Str.all_digits ds
  end.

(** The three label columns are in the header. *)
Definition has_required (df : DataFrame) : Prop :=
  In "Area" (columns df) /\ In "Item" (columns df) /\ In "Element" (columns df).

(** The row [melt] makes of a table row and a year column. *)
Definition long_row (c : string) (rn : RawRow * ElementNorm) : LongRow :=
  let k := item_kind (raw_Item (fst rn)) in
  mkLong (raw_Area (fst rn)) (raw_Item (fst rn)) (raw_Element (fst rn)) (snd rn)
    k (kind_eqb k all_animals) (kind_eqb k atomic)
    (Str.int (Str.tail c)) (raw_cell (fst rn) c).

(** The value a table holds for one area under a group-total key: the sum
    of the rows of that area with that item, year, metric and item kind,
    [0] when the area has none. *)
Definition member_value (out : list Row) (k : KeyG) (a : string) : Q :=
  sumQ (List.map (fun r => Value (body r))
          (filter (fun r => String.eqb (Area (body r)) a && keyG_eqb (keyG r) k) out)).

(** The areas of a table that belong to a group. *)
Definition areas_in (out : list Row) (members : list string) : list string :=
  intersection (unique String.eqb (List.map (fun r => Area (body r)) out)) members.

(** Two raw stocks rows for one area and one cattle item. *)
Definition dup_cattle_df : DataFrame :=
  mkDF ["Area"; "Item"; "Element"; "Y2020"]
    [ mkRaw "France" "Cattle" "Stocks" (cells [("Y2020", 10)]%Q);
      mkRaw "France" "Cattle" "Stocks" (cells [("Y2020", 30)]%Q) ].

Definition dup_cattle_out : list Row :=
  Eval vm_compute in
    match main default_args dup_cattle_df with
    | inr out => out
    | inl _ => []
    end.

Definition is_some {A : Type} (o : option A) : bool :=
  match o with Some _ => true | None => false end.

(** A table without the rows whose element label has no classification. *)
Definition classified_only (df : DataFrame) : DataFrame :=
  mkDF (columns df)
    (filter (fun r => is_some (normalize_element (Some (raw_Element r)))) (rows df)).

(** A non-empty text of letters, digits and underscores. *)
Fixpoint all_word (w : string) : bool :=
  match w with
  | EmptyString => true
  | String c w' => Chr.is_word c && all_word w'
  end.

(** [\bw\b] and [\b(w1|w2)\b]. *)
Definition re_word1 (w : string) : Re.regex :=
  Re.Seq Re.WordB (Re.Seq (Re.lit w) Re.WordB).

Definition re_word2 (w1 w2 : string) : Re.regex :=
  Re.Seq Re.WordB (Re.Seq (Re.Alt (Re.lit w1) (Re.lit w2)) Re.WordB).

(** The literal [w] stands at the head of [t], and no word character
    follows it. *)
Definition word_here (w t : string) : bool :=
  starts_with_lit true w t
  && negb (Re.is_word_opt (Str.head (str_drop (String.length w) t))).

(** A lower-case word: not empty, of word characters, its own lower case. *)
Definition word_text (w : string) : bool :=
  all_word w && negb (String.eqb w "") && String.eqb (Str.lower w) w.

(** [^stocks?$], the first alternative of [re_stock]. *)
Definition re_stock_whole : Re.regex :=
  Re.Seq Re.Bol (Re.Seq (Re.lit "stock") (Re.Seq (Re.Opt (Re.Lit "s")) Re.Eol)).

(** Case analysis on all the characters. *)
Ltac all_chars c :=
  destruct c as [[] [] [] [] [] [] [] []]; vm_compute; try reflexivity; try congruence.

(** The end-to-end scenario of the specification. *)
Definition scenario_df : DataFrame :=
  mkDF ["Area"; "Item"; "Element"; "Y2020"]
    [ mkRaw "France" "Cattle" "Stocks" (cells [("Y2020", 1000)]%Q);
      mkRaw "France" "Cattle" "Enteric CH4 (livestock total)" (cells [("Y2020", 10)]%Q);
      mkRaw "France" "Mules and hinnies" "Stocks" (cells [("Y2020", 7)]%Q);
      mkRaw "France" "CHICKENS" "Stocks" (cells [("Y2020", 9)]%Q) ].

Definition scenario_out : list Row :=
  Eval vm_compute in
    match main default_args scenario_df with
    | inr out => out
    | inl _ => []
    end.

(** The labels of the three group totals. *)
Definition GROUP_LABELS : list string :=
  ["EU (group total)"; "EU/EEA+UK (group total)"; "Europe (group total)"].

(** The rows one group adds to the table. *)
Definition region_rows (out : list Row) (members : list string) (label : string)
  : list Row :=
  List.concat (region_frames out members label).

(** ** Notions used in the further properties *)

(** A frame row of an area and a year. *)
Definition area_year (a : string) (y : Z) (r : Rec) : bool :=
  String.eqb (Area r) a && Z.eqb (Year r) y.

(** The sum of the values of a frame. *)
Definition frame_sum (f : list Rec) : Q := sumQ (List.map Value f).

(** The required columns the header lacks, as [main] reports them. *)
Definition missing_columns (df : DataFrame) : list string :=
  filter (fun c => negb (Str.mem c (columns df))) ["Area"; "Element"; "Item"].

(** The rows of the table that reach the reshaping: cleaned, classified
    and passed through the only-livestock-total filter. *)
Definition kept_rows (a : Args) (df : DataFrame) : list (RawRow * ElementNorm) :=
  livestock_total_filter (flag (only_livestock_total a)) (classify (clean (rows df))).

(** The order of the rows written: by Area, then Item, then Year, then the
    name of the metric. *)
Definition out_le (a b : Row) : Prop := is_le (out_compare a b) = true.

(** Two texts that differ at most in case and in surrounding white space. *)
Definition same_text (x y : string) : Prop :=
  Str.lower (Str.strip x) = Str.lower (Str.strip y).

(** The arguments with another GWP name. *)
Definition with_gwp (name : string) (a : Args) : Args :=
  mkArgs name (split_cattle a) (dairy_share a) (only_livestock_total a).

(** The arguments with another dairy share. *)
Definition with_dairy_share (share : Q) (a : Args) : Args :=
  mkArgs (gwp a) (split_cattle a) share (only_livestock_total a).

(** The class of raw rows a metric is computed from. *)
Definition feeds (n : ElementNorm) (m : MetricName) : bool :=
  match m, n with
  | M_Stocks, Stocks | M_LSU, Stocks => true
  | M_CH4_CO2e, CH4 | M_N2O_CO2e, N2O => true
  | M_Total_CO2e, CH4 | M_Total_CO2e, N2O => true
  | _, _ => false
  end.

(** The test of line 112 on an item label. *)
Definition excluded (item : string) : bool :=
  Str.mem (Str.lower (Str.strip item)) EXCLUDE_ITEMS.

(** The two labels the cattle split puts in place of an item label. *)
Definition split_items (item : string) : list string :=
  [Re.sub true re_cattle "Cattle (dairy)" item;
   Re.sub true re_cattle "Cattle (other)" item].

(** A raw row with its three labels stripped, as lines 108-109 leave it. *)
Definition stripped (r : RawRow) : RawRow :=
  mkRaw (Str.strip (raw_Area r)) (Str.strip (raw_Item r))
    (Str.strip (raw_Element r)) (raw_cell r).

(** A row of the table written comes from the raw row [r0] and the year
    column [c]: the year is that of the column, the area is the area of
    the raw row or the label of a group, the item is the item of the raw
    row or, for an LSU row of a cattle-like item under the split, one of
    its two replacements, and the element of the raw row is of the class
    the metric is computed from. *)
Definition comes_from (a : Args) (r : Row) (r0 : RawRow) (c : string) : Prop :=
  Year (body r) = Str.int (Str.tail c) /\
  (Area (body r) = Str.strip (raw_Area r0) \/ In (Area (body r)) GROUP_LABELS) /\
  (Item (body r) = Str.strip (raw_Item r0) \/
   (Metric r = M_LSU /\ flag (split_cattle a) = true /\
    looks_like_cattle (Str.strip (raw_Item r0)) = true /\
    In (Item (body r)) (split_items (Str.strip (raw_Item r0))))) /\
  (exists n, normalize_element (Some (raw_Element r0)) = Some n /\
             feeds n (Metric r) = true) /\
  excluded (raw_Item r0) = false.

(** The sum of the values a table holds for a metric. *)
Definition table_sum (out : list Row) (m : MetricName) : Q :=
  sumQ (List.map (fun r => Value (body r))
          (filter (fun r => metric_eqb (Metric r) m) out)).

(** * Properties *)

(** ** Lists, sorting and sums *)

Section SortFacts.

Context {A : Type}.
Variable cmp : A -> A -> comparison.

Lemma insert_sorted_perm (x : A) (l : list A) :
  Permutation (insert_sorted cmp x l) (x :: l).
Proof.
  induction l as [|y l IH]; simpl.
  - apply Permutation_refl.
  - destruct (is_le (cmp x y)).
    + apply Permutation_refl.
    + eapply perm_trans; [apply perm_skip, IH | apply perm_swap].
Qed.

Lemma sort_values_perm (l : list A) : Permutation (sort_values cmp l) l.
Proof.
  induction l as [|x l IH]; simpl.
  - apply perm_nil.
  - eapply perm_trans; [apply insert_sorted_perm | apply perm_skip, IH].
Qed.

Lemma In_sort_values (x : A) (l : list A) :
  In x (sort_values cmp l) <-> In x l.
Proof.
  split; apply Permutation_in;
    [apply sort_values_perm | apply Permutation_sym, sort_values_perm].
Qed.

Lemma sort_values_nil (l : list A) : sort_values cmp l = [] <-> l = [].
Proof.
  split; intros H.
  - apply Permutation_nil. rewrite <- H. apply sort_values_perm.
  - subst. reflexivity.
Qed.

End SortFacts.

Lemma filter_perm {A : Type} (f : A -> bool) (l l' : list A) :
  Permutation l l' -> Permutation (filter f l) (filter f l').
Proof.
  induction 1; simpl.
  - apply perm_nil.
  - destruct (f x); [apply perm_skip|]; assumption.
  - destruct (f x), (f y); try apply perm_swap; apply Permutation_refl.
  - eapply perm_trans; eassumption.
Qed.

Lemma filter_nil_iff {A : Type} (f : A -> bool) (l : list A) :
  filter f l = [] <-> forall x, In x l -> f x = false.
Proof.
  induction l as [|x l IH]; simpl.
  - split; [intros _ y [] | reflexivity].
  - destruct (f x) eqn:E.
    + split; [discriminate|]. intros H. rewrite (H x) in E; [discriminate | now left].
    + rewrite IH. split.
      * intros H y [<-|Hy]; [assumption | now apply H].
      * intros H y Hy. apply H. now right.
Qed.

Lemma filter_not_nil {A : Type} (f : A -> bool) (l : list A) :
  filter f l <> [] <-> exists x, In x l /\ f x = true.
Proof.
  split.
  - intros H. destruct (filter f l) as [|x t] eqn:E; [contradiction|].
    exists x. apply filter_In. rewrite E. now left.
  - intros [x [Hx Hf]] E.
    rewrite filter_nil_iff in E. rewrite (E x Hx) in Hf. discriminate.
Qed.

Lemma is_empty_true {A : Type} (l : list A) : is_empty l = true <-> l = [].
Proof. destruct l; simpl; split; congruence. Qed.

Lemma is_empty_false {A : Type} (l : list A) : is_empty l = false <-> l <> [].
Proof. destruct l; simpl; split; congruence. Qed.

(** Sums of rationals. *)

Lemma fold_left_Qplus (l : list Q) (a : Q) :
  fold_left Qplus l a == a + sumQ l.
Proof.
  unfold sumQ. revert a.
  induction l as [|x l IH]; intros a; simpl.
  - ring.
  - rewrite (IH (a + x)), (IH (0 + x)). ring.
Qed.

Lemma sumQ_nil : sumQ [] = 0.
Proof. reflexivity. Qed.

Lemma sumQ_cons (x : Q) (l : list Q) : sumQ (x :: l) == x + sumQ l.
Proof.
  unfold sumQ at 1. simpl. rewrite fold_left_Qplus. ring.
Qed.

Lemma sumQ_app (l1 l2 : list Q) : sumQ (l1 ++ l2) == sumQ l1 + sumQ l2.
Proof.
  induction l1 as [|x l1 IH]; simpl.
  - rewrite sumQ_nil. ring.
  - rewrite !sumQ_cons, IH. ring.
Qed.

Lemma sumQ_perm (l l' : list Q) : Permutation l l' -> sumQ l == sumQ l'.
Proof.
  induction 1.
  - reflexivity.
  - rewrite !sumQ_cons, IHPermutation. reflexivity.
  - rewrite !sumQ_cons. ring.
  - etransitivity; eassumption.
Qed.

Lemma sumQ_map_scale {A : Type} (f : A -> Q) (c : Q) (l : list A) :
  sumQ (List.map (fun x => f x * c) l) == sumQ (List.map f l) * c.
Proof.
  induction l as [|x l IH]; simpl.
  - rewrite sumQ_nil. ring.
  - rewrite !sumQ_cons, IH. ring.
Qed.

Lemma sumQ_map_ext {A : Type} (f g : A -> Q) (l : list A) :
  (forall x, In x l -> f x == g x) ->
  sumQ (List.map f l) == sumQ (List.map g l).
Proof.
  induction l as [|x l IH]; intros H; simpl.
  - reflexivity.
  - rewrite !sumQ_cons.
    rewrite (H x) by (left; reflexivity).
    rewrite IH by (intros y Hy; apply H; right; exact Hy).
    reflexivity.
Qed.

Lemma sumQ_map_plus {A : Type} (f g : A -> Q) (l : list A) :
  sumQ (List.map (fun x => f x + g x) l)
  == sumQ (List.map f l) + sumQ (List.map g l).
Proof.
  induction l as [|x l IH]; simpl.
  - rewrite sumQ_nil. ring.
  - rewrite !sumQ_cons, IH. ring.
Qed.

(** Distinct values. *)

Section UniqueFacts.

Context {A : Type}.
Variable eqb : A -> A -> bool.
Hypothesis eqb_spec : forall a b, eqb a b = true <-> a = b.

Lemma eqb_refl_of (a : A) : eqb a a = true.
Proof. now apply eqb_spec. Qed.

Lemma eqb_false_of (a b : A) : eqb a b = false <-> a <> b.
Proof.
  destruct (eqb a b) eqn:E.
  - apply eqb_spec in E. split; [discriminate | congruence].
  - split; [|reflexivity]. intros _ H. apply eqb_spec in H. congruence.
Qed.

Lemma In_unique (x : A) (l : list A) : In x (unique eqb l) <-> In x l.
Proof.
  induction l as [|y l IH]; simpl; [tauto|].
  rewrite filter_In, IH. split.
  - intros [H|[H _]]; auto.
  - intros [H|H]; auto.
    destruct (eqb y x) eqn:E.
    + left. now apply eqb_spec.
    + right. split; [assumption | reflexivity].
Qed.

Lemma NoDup_filter (f : A -> bool) (l : list A) : NoDup l -> NoDup (filter f l).
Proof.
  induction 1; simpl; [constructor|].
  destruct (f x); [constructor|]; auto.
  rewrite filter_In. tauto.
Qed.

Lemma NoDup_unique (l : list A) : NoDup (unique eqb l).
Proof.
  induction l as [|y l IH]; simpl; constructor.
  - rewrite filter_In. intros [_ H]. rewrite eqb_refl_of in H. discriminate.
  - now apply NoDup_filter.
Qed.

End UniqueFacts.

(** Grouped sums. *)

Section GroupByFacts.

Context {A K : Type}.
Variable key : A -> K.
Variable val : A -> Q.
Variable eqb : K -> K -> bool.
Variable cmp : K -> K -> comparison.
Hypothesis eqb_spec : forall a b, eqb a b = true <-> a = b.

Lemma groupby_sum_keys (l : list A) (k : K) :
  In k (List.map fst (groupby_sum key val eqb cmp l)) <-> In k (List.map key l).
Proof.
  unfold groupby_sum. rewrite map_map. simpl. rewrite map_id.
  rewrite In_sort_values. now apply In_unique.
Qed.

Lemma groupby_sum_NoDup (l : list A) :
  NoDup (List.map fst (groupby_sum key val eqb cmp l)).
Proof.
  unfold groupby_sum. rewrite map_map. simpl. rewrite map_id.
  eapply Permutation_NoDup.
  - apply Permutation_sym, sort_values_perm.
  - now apply NoDup_unique.
Qed.

Lemma groupby_sum_In (l : list A) (k : K) (v : Q) :
  In (k, v) (groupby_sum key val eqb cmp l) <->
  In k (List.map key l) /\ v = sumQ (List.map val (group key eqb l k)).
Proof.
  unfold groupby_sum. rewrite in_map_iff. split.
  - intros [k' [E H]]. inversion E; subst.
    rewrite In_sort_values, In_unique in H by assumption. auto.
  - intros [H ->]. exists k. split; [reflexivity|].
    rewrite In_sort_values, In_unique by assumption. assumption.
Qed.

Lemma groupby_sum_nil (l : list A) :
  groupby_sum key val eqb cmp l = [] <-> l = [].
Proof.
  unfold groupby_sum. split.
  - intros H. apply map_eq_nil in H. apply sort_values_nil in H.
    destruct l; [reflexivity | discriminate].
  - intros ->. reflexivity.
Qed.

End GroupByFacts.

(** ** Strings *)

Lemma append_nil_r (s : string) : (s ++ "")%string = s.
Proof. induction s; simpl; congruence. Qed.

Lemma append_assoc (a b c : string) :
  ((a ++ b) ++ c)%string = (a ++ (b ++ c))%string.
Proof. induction a; simpl; congruence. Qed.

Lemma append_length (a b : string) :
  String.length (a ++ b) = (String.length a + String.length b)%nat.
Proof. induction a; simpl; congruence. Qed.

Lemma map_append (f : ascii -> ascii) (a b : string) :
  Str.map f (a ++ b) = (Str.map f a ++ Str.map f b)%string.
Proof. induction a; simpl; congruence. Qed.

Lemma map_length (f : ascii -> ascii) (s : string) :
  String.length (Str.map f s) = String.length s.
Proof. induction s; simpl; congruence. Qed.

Lemma startswith_spec (p s : string) :
  Str.startswith p s = true <-> exists t, s = (p ++ t)%string.
Proof.
  revert s. induction p as [|a p IH]; intros s; simpl.
  - split; [intros _; now exists s | reflexivity].
  - destruct s as [|b s].
    + split; [discriminate | intros [t H]; discriminate].
    + rewrite andb_true_iff, Ascii.eqb_eq, IH. split.
      * intros [-> [t ->]]. now exists t.
      * intros [t H]. inversion H; subst. split; [reflexivity | now exists t].
Qed.

(** [w in s] holds exactly when [s] is some text, then [w], then some text. *)
Lemma isin_spec (w s : string) :
  Str.isin w s = true <-> exists pre post, s = (pre ++ w ++ post)%string.
Proof.
  induction s as [|c s IH]; simpl.
  - rewrite orb_false_r, startswith_spec. split.
    + intros [t H]. now exists "", t.
    + intros [pre [post H]]. destruct pre; simpl in H; [now exists post | discriminate].
  - rewrite orb_true_iff, startswith_spec, IH. split.
    + intros [[t H] | [pre [post H]]].
      * now exists "", t.
      * exists (String c pre), post. simpl. now rewrite H.
    + intros [pre [post H]]. destruct pre as [|d pre]; simpl in H.
      * left. now exists post.
      * right. inversion H; subst. now exists pre, post.
Qed.

Lemma isin_append_r (w a b : string) :
  Str.isin w b = true -> Str.isin w (a ++ b) = true.
Proof.
  induction a as [|c a IH]; simpl; intros H; [assumption|].
  rewrite (IH H). apply orb_true_r.
Qed.

Lemma isin_append_l (w a b : string) :
  Str.isin w a = true -> Str.isin w (a ++ b) = true.
Proof.
  rewrite !isin_spec. intros [pre [post ->]].
  exists pre, (post ++ b)%string. now rewrite !append_assoc.
Qed.

Lemma mem_spec (x : string) (xs : list string) :
  Str.mem x xs = true <-> In x xs.
Proof.
  unfold Str.mem. rewrite existsb_exists. split.
  - intros [y [Hy E]]. apply String.eqb_eq in E. now subst.
  - intros H. exists x. split; [assumption | apply String.eqb_refl].
Qed.

(** ** Equality tests on keys *)

Lemma kind_eqb_spec (a b : ItemKind) : kind_eqb a b = true <-> a = b.
Proof. destruct a, b; simpl; split; congruence. Qed.

Lemma metric_eqb_spec (a b : MetricName) : metric_eqb a b = true <-> a = b.
Proof. destruct a, b; unfold metric_eqb; simpl; split; congruence. Qed.

Lemma norm_eqb_spec (a b : ElementNorm) : norm_eqb a b = true <-> a = b.
Proof. destruct a, b; simpl; split; congruence. Qed.

Lemma bool_eqb_spec (a b : bool) : Bool.eqb a b = true <-> a = b.
Proof. destruct a, b; simpl; split; congruence. Qed.

Lemma key6_eqb_spec (a b : Key6) : key6_eqb a b = true <-> a = b.
Proof.
  destruct a as [[[[[a1 a2] a3] a4] a5] a6], b as [[[[[b1 b2] b3] b4] b5] b6].
  unfold key6_eqb.
  rewrite !andb_true_iff, !String.eqb_eq, Z.eqb_eq, kind_eqb_spec, !bool_eqb_spec.
  split.
  - intros [[[[[-> ->] ->] ->] ->] ->]. reflexivity.
  - intros H. inversion H. tauto.
Qed.

Lemma keyG_eqb_spec (a b : KeyG) : keyG_eqb a b = true <-> a = b.
Proof.
  destruct a as [[[[[a1 a2] a3] a4] a5] a6], b as [[[[[b1 b2] b3] b4] b5] b6].
  unfold keyG_eqb.
  rewrite !andb_true_iff, !String.eqb_eq, Z.eqb_eq, metric_eqb_spec,
    kind_eqb_spec, !bool_eqb_spec.
  split.
  - intros [[[[[-> ->] ->] ->] ->] ->]. reflexivity.
  - intros H. inversion H. tauto.
Qed.

(** ** The frames of the per-country table *)

Lemma scaled_map (c : Q) (f : list Rec) :
  scaled c f = List.map (fun r => set_Value r (Value r * c)%Q) f.
Proof. destruct f; reflexivity. Qed.

Lemma scaled_empty (c : Q) (f : list Rec) :
  is_empty (scaled c f) = is_empty f.
Proof. destruct f; reflexivity. Qed.

Lemma merge_outer_nil : merge_outer [] [] = [].
Proof. reflexivity. Qed.

Lemma cattle_split_nil (b : bool) (f : Q) : cattle_split b f [] = [].
Proof. destruct b; reflexivity. Qed.

Lemma co2e_frame_nil : co2e_frame [] = [].
Proof. reflexivity. Qed.

Lemma total_frame_nil : total_frame [] [] = [].
Proof. reflexivity. Qed.

Lemma concat_prepared (a : Args) (long : list LongRow) :
  List.concat (prepared a long) = all_frames a long.
Proof.
  unfold prepared, all_frames, frame, post_split.
  set (st := select Stocks long).
  set (ch4 := scaled _ (select CH4 long)).
  set (n2o := scaled _ (select N2O long)).
  destruct st as [|s st]; destruct ch4 as [|c ch4]; destruct n2o as [|n n2o];
    cbn [is_empty andb app List.concat];
    rewrite ?cattle_split_nil, ?co2e_frame_nil, ?total_frame_nil;
    cbn [lsu_frame with_metric List.map app];
    rewrite ?app_nil_r; reflexivity.
Qed.

Lemma per_country_perm (a : Args) (long : list LongRow) :
  Permutation (per_country (prepared a long)) (all_frames a long).
Proof.
  unfold per_country. rewrite concat_prepared. apply sort_values_perm.
Qed.

Lemma In_with_metric (m : MetricName) (f : list Rec) (r : Row) :
  In r (with_metric m f) <-> Metric r = m /\ In (body r) f.
Proof.
  unfold with_metric. rewrite in_map_iff. split.
  - intros [b [<- H]]. simpl. auto.
  - intros [<- H]. exists (body r). destruct r; auto.
Qed.

(** A row of the per-country table belongs to the frame of its metric. *)
Lemma per_country_In (a : Args) (long : list LongRow) (r : Row) :
  In r (per_country (prepared a long)) <-> In (body r) (frame a long (Metric r)).
Proof.
  split.
  - intros H. apply (Permutation_in _ (per_country_perm a long)) in H.
    unfold all_frames in H. rewrite !in_app_iff, !In_with_metric in H.
    destruct H as [[E H]|[[E H]|[[E H]|[[E H]|[E H]]]]];
      rewrite E; exact H.
  - intros H.
    apply (Permutation_in _ (Permutation_sym (per_country_perm a long))).
    unfold all_frames. rewrite !in_app_iff, !In_with_metric.
    destruct (Metric r) eqn:E; tauto.
Qed.

(** ** C6: the livestock-unit weights *)



(** ** C4: the dairy share of the cattle split *)

Lemma dairy_frac_bounds (share : Q) :
  0 <= dairy_frac_of share /\ dairy_frac_of share <= 1.
Proof.
  unfold dairy_frac_of, py_max, py_min.
  destruct (Qlt_le_dec (share / 100.0) 1.0) as [H1|H1];
    match goal with |- context [Qlt_le_dec ?a ?b] => destruct (Qlt_le_dec a b) as [H2|H2] end;
    lra.
Qed.

Lemma dairy_frac_low (share : Q) : share <= 0 -> dairy_frac_of share == 0.
Proof.
  intros H. unfold dairy_frac_of, py_max, py_min.
  assert (E : share / 100.0 == share * (1 # 100)) by (field; lra).
  destruct (Qlt_le_dec (share / 100.0) 1.0) as [H1|H1];
    match goal with |- context [Qlt_le_dec ?a ?b] => destruct (Qlt_le_dec a b) as [H2|H2] end;
    lra.
Qed.

Lemma dairy_frac_high (share : Q) : 100 <= share -> dairy_frac_of share == 1.
Proof.
  intros H. unfold dairy_frac_of, py_max, py_min.
  assert (E : share / 100.0 == share * (1 # 100)) by (field; lra).
  destruct (Qlt_le_dec (share / 100.0) 1.0) as [H1|H1];
    match goal with |- context [Qlt_le_dec ?a ?b] => destruct (Qlt_le_dec a b) as [H2|H2] end;
    lra.
Qed.

Lemma filter_negb_all {A : Type} (f : A -> bool) (l : list A) :
  filter f l = [] -> filter (fun x => negb (f x)) l = l.
Proof.
  induction l as [|x l IH]; simpl; [reflexivity|].
  destruct (f x); [discriminate|]. simpl. intros H. now rewrite IH.
Qed.

(** The split frame, written without the test for an empty cattle frame. *)
Lemma cattle_split_true (f : Q) (sb : list Rec) :
  cattle_split true f sb =
  filter (fun r => negb (looks_like_cattle (Item r))) sb
  ++ List.map (split_row f "Cattle (dairy)")
       (filter (fun r => looks_like_cattle (Item r)) sb)
  ++ List.map (split_row (1.0 - f) "Cattle (other)")
       (filter (fun r => looks_like_cattle (Item r)) sb).
Proof.
  unfold cattle_split.
  destruct (filter (fun r => looks_like_cattle (Item r)) sb) eqn:E.
  - simpl. rewrite app_nil_r.
    symmetry. now apply (filter_negb_all (fun r => looks_like_cattle (Item r))).
  - reflexivity.
Qed.

(** C4. The dairy fraction lies in [0,1] (0 for a share of at most 0, 1
    for a share of at least 100).  The split keeps the rows that are not
    cattle and puts, for each cattle row with stocks S, one dairy row with
    stocks S*f and one other row with stocks S*(1-f) in their place; the
    two add up to S, the dairy row holds 0 when f is 0 and the other row
    holds 0 when f is 1. *)
Theorem cattle_split_shares (share : Q) (sb : list Rec) :
  let f := dairy_frac_of share in
  let dairy := split_row f "Cattle (dairy)" in
  let other := split_row (1.0 - f) "Cattle (other)" in
  let cattle := filter (fun r => looks_like_cattle (Item r)) sb in
  (0 <= f /\ f <= 1) /\
  ((share <= 0 -> f == 0) /\ (100 <= share -> f == 1)) /\
  cattle_split true f sb =
    filter (fun r => negb (looks_like_cattle (Item r))) sb
    ++ List.map dairy cattle ++ List.map other cattle /\
  (forall r, Value (dairy r) == Value r * f /\
             Value (other r) == Value r * (1 - f) /\
             Value (dairy r) + Value (other r) == Value r) /\
  (forall r, f == 0 -> Value (dairy r) == 0 /\ Value (other r) == Value r) /\
  (forall r, f == 1 -> Value (other r) == 0 /\ Value (dairy r) == Value r).
Proof.
  cbv zeta. split; [apply dairy_frac_bounds|].
  split; [split; [apply dairy_frac_low | apply dairy_frac_high]|].
  split; [apply cattle_split_true|].
  split; [intros r; simpl; repeat split; ring|].
  split; intros r E; simpl; rewrite E; split; ring.
Qed.

(** ** Reading the per-country table by key *)

Lemma filter_with_metric (m m' : MetricName) (a i : string) (y : Z) (f : list Rec) :
  filter (at_key m a i y) (with_metric m' f) =
  if metric_eqb m' m then with_metric m' (filter (rec_at a i y) f) else [].
Proof.
  unfold with_metric, at_key, rec_at.
  induction f as [|b f IH]; simpl.
  - now destruct (metric_eqb m' m).
  - rewrite IH. destruct (metric_eqb m' m); simpl; [|reflexivity].
    now destruct (String.eqb (Area b) a && String.eqb (Item b) i && Z.eqb (Year b) y).
Qed.

Lemma rows_at_perm (a : Args) (long : list LongRow) (m : MetricName)
    (ar i : string) (y : Z) :
  Permutation (rows_at (per_country (prepared a long)) m ar i y)
    (with_metric m (filter (rec_at ar i y) (frame a long m))).
Proof.
  unfold rows_at.
  eapply perm_trans; [apply filter_perm, per_country_perm|].
  unfold all_frames. rewrite !filter_app, !filter_with_metric.
  destruct m; simpl; rewrite ?app_nil_r; apply Permutation_refl.
Qed.

Lemma rows_at_single (a : Args) (long : list LongRow) (m : MetricName)
    (ar i : string) (y : Z) (b : Rec) :
  filter (rec_at ar i y) (frame a long m) = [b] ->
  rows_at (per_country (prepared a long)) m ar i y = [mkRow m b].
Proof.
  intros H. apply Permutation_length_1_inv, Permutation_sym.
  eapply perm_trans; [apply rows_at_perm|]. rewrite H. apply Permutation_refl.
Qed.

Lemma rows_at_none (a : Args) (long : list LongRow) (m : MetricName)
    (ar i : string) (y : Z) :
  filter (rec_at ar i y) (frame a long m) = [] ->
  rows_at (per_country (prepared a long)) m ar i y = [].
Proof.
  intros H. apply Permutation_nil, Permutation_sym.
  eapply perm_trans; [apply rows_at_perm|]. rewrite H. apply Permutation_refl.
Qed.

Lemma value_at_frame (a : Args) (long : list LongRow) (m : MetricName)
    (ar i : string) (y : Z) :
  value_at (per_country (prepared a long)) m ar i y
  == sumQ (List.map Value (filter (rec_at ar i y) (frame a long m))).
Proof.
  unfold value_at.
  rewrite (sumQ_perm _ _
             (Permutation_map (fun r => Value (body r)) (rows_at_perm a long m ar i y))).
  unfold with_metric. rewrite map_map. reflexivity.
Qed.

(** ** Item kinds follow the item label *)

Lemma melt_ok (year_cols : list string) (df : list (RawRow * ElementNorm)) :
  Forall long_ok (melt year_cols df).
Proof.
  apply Forall_forall. intros l H. unfold melt in H.
  apply in_flat_map in H. destruct H as [c [_ H]].
  apply in_map_iff in H. destruct H as [[r n] [<- _]].
  repeat split.
Qed.

Lemma astype_int_Some (long long' : list LongRow) :
  astype_int long = Some long' <->
  long' = long /\ forallb (fun l => fits_int64 (l_Year l)) long = true.
Proof.
  unfold astype_int.
  destruct (forallb (fun l => fits_int64 (l_Year l)) long).
  - split; [intros H; inversion H; auto | intros [-> _]; reflexivity].
  - split; [discriminate | intros [_ H]; discriminate].
Qed.

Lemma to_long_melt (a : Args) (df : DataFrame) (long : list LongRow) :
  to_long a df = inr long ->
  long = melt (detect_year_cols (columns df))
           (livestock_total_filter (flag (only_livestock_total a))
              (classify (clean (rows df)))).
Proof.
  unfold to_long.
  destruct (negb (is_empty _)); [discriminate|].
  destruct (is_empty (detect_year_cols _)); [discriminate|].
  destruct (astype_int _) as [long'|] eqn:E; [|discriminate].
  apply astype_int_Some in E. destruct E as [-> _]. congruence.
Qed.

Lemma to_long_ok (a : Args) (df : DataFrame) (long : list LongRow) :
  to_long a df = inr long -> Forall long_ok long.
Proof.
  intros H. rewrite (to_long_melt a df long H). apply melt_ok.
Qed.

Lemma select_ok (n : ElementNorm) (long : list LongRow) :
  Forall long_ok long -> Forall rec_ok (select n long).
Proof.
  rewrite !Forall_forall. intros H r Hr. unfold select in Hr.
  apply in_map_iff in Hr. destruct Hr as [l [<- Hl]].
  apply filter_In in Hl. apply (H l), Hl.
Qed.

Lemma scaled_ok (c : Q) (f : list Rec) : Forall rec_ok f -> Forall rec_ok (scaled c f).
Proof.
  rewrite scaled_map, !Forall_forall. intros H r Hr.
  apply in_map_iff in Hr. destruct Hr as [b [<- Hb]]. apply (H b Hb).
Qed.

Lemma rec_ok_key (r : Rec) : rec_ok r -> key6 r = full_key (Area r) (Item r) (Year r).
Proof.
  intros [H1 [H2 H3]]. unfold key6, full_key. now rewrite H2, H3, H1.
Qed.

Lemma full_key_inj (a i : string) (y : Z) (a' i' : string) (y' : Z) :
  full_key a i y = full_key a' i' y' <-> a = a' /\ i = i' /\ y = y'.
Proof.
  unfold full_key. split.
  - intros H. inversion H. auto.
  - intros [-> [-> ->]]. reflexivity.
Qed.

Lemma rec_at_spec (a i : string) (y : Z) (b : Rec) :
  rec_at a i y b = true <-> Area b = a /\ Item b = i /\ Year b = y.
Proof.
  unfold rec_at. rewrite !andb_true_iff, !String.eqb_eq, Z.eqb_eq. tauto.
Qed.

(** On rows whose kinds follow the label, grouping by the six key columns
    is grouping by area, item and year. *)
Lemma group_ok (f : list Rec) (a i : string) (y : Z) :
  Forall rec_ok f ->
  group key6 key6_eqb f (full_key a i y) = filter (rec_at a i y) f.
Proof.
  intros H. unfold group. apply filter_ext_in. intros b Hb.
  rewrite Forall_forall in H. specialize (H b Hb).
  apply eq_true_iff_eq. rewrite key6_eqb_spec, rec_at_spec, (rec_ok_key b H).
  apply full_key_inj.
Qed.

(** ** Grouped frames read by key *)

Lemma filter_map_comm {A B : Type} (p : B -> bool) (h : A -> B) (l : list A) :
  filter p (List.map h l) = List.map h (filter (fun x => p (h x)) l).
Proof.
  induction l as [|x l IH]; simpl; [reflexivity|].
  rewrite IH. now destruct (p (h x)).
Qed.

Lemma filter_filter {A : Type} (p q : A -> bool) (l : list A) :
  filter p (filter q l) = filter (fun x => q x && p x) l.
Proof.
  induction l as [|x l IH]; simpl; [reflexivity|].
  destruct (q x); simpl; rewrite IH; reflexivity.
Qed.

Lemma filter_flat_map {A B : Type} (p : B -> bool) (g : A -> list B) (l : list A) :
  filter p (flat_map g l) = flat_map (fun a => filter p (g a)) l.
Proof.
  induction l as [|x l IH]; simpl; [reflexivity|].
  now rewrite filter_app, IH.
Qed.

Lemma flat_map_filter {A B : Type} (c : A -> bool) (g : A -> list B) (l : list A) :
  flat_map (fun a => if c a then g a else []) l = flat_map g (filter c l).
Proof.
  induction l as [|x l IH]; simpl; [reflexivity|].
  rewrite IH. now destruct (c x).
Qed.

Lemma assoc6_not_in (k : Key6) (l : list (Key6 * Q)) :
  ~ In k (List.map fst l) -> assoc6 k l = None.
Proof.
  induction l as [|[k' v] l IH]; simpl; [reflexivity|].
  intros H. destruct (key6_eqb k' k) eqn:E.
  - apply key6_eqb_spec in E. tauto.
  - apply IH. tauto.
Qed.

Lemma assoc6_in (k : Key6) (v : Q) (l : list (Key6 * Q)) :
  NoDup (List.map fst l) -> In (k, v) l -> assoc6 k l = Some v.
Proof.
  induction l as [|[k' v'] l IH]; simpl; [tauto|].
  intros N [E|H].
  - inversion E; subst. now rewrite (proj2 (key6_eqb_spec k k) eq_refl).
  - inversion N as [|? ? Hn N']; subst.
    destruct (key6_eqb k' k) eqn:E.
    + apply key6_eqb_spec in E. subst. exfalso. apply Hn.
      apply in_map_iff. now exists (k, v).
    + now apply IH.
Qed.

Lemma assoc6_exists (k : Key6) (l : list (Key6 * Q)) :
  existsb (fun a => key6_eqb (fst a) k) l =
  match assoc6 k l with Some _ => true | None => false end.
Proof.
  induction l as [|[k' v'] l IH]; simpl; [reflexivity|].
  destruct (key6_eqb k' k); simpl; [reflexivity | apply IH].
Qed.

(** In a frame with one row per key, the rows picked by a test that
    singles out one key are the row under that key, if there is one. *)
Lemma filter_keyed (p : Key6 * Q -> bool) (l : list (Key6 * Q)) (k0 : Key6) :
  NoDup (List.map fst l) ->
  (forall kv, In kv l -> (p kv = true <-> fst kv = k0)) ->
  filter p l = match assoc6 k0 l with Some v => [(k0, v)] | None => [] end.
Proof.
  induction l as [|[k v] l IH]; simpl; [reflexivity|].
  intros N H. inversion N as [|? ? Hn N']; subst.
  assert (IH' := IH N' (fun kv Hkv => H kv (or_intror Hkv))).
  destruct (key6_eqb k k0) eqn:E.
  - apply key6_eqb_spec in E. subst k.
    rewrite (proj2 (H (k0, v) (or_introl eq_refl)) eq_refl).
    rewrite IH', (assoc6_not_in k0 l Hn). reflexivity.
  - destruct (p (k, v)) eqn:Ep; [|exact IH'].
    apply (H (k, v) (or_introl eq_refl)) in Ep. simpl in Ep. subst.
    rewrite (proj2 (key6_eqb_spec k0 k0) eq_refl) in E. discriminate.
Qed.

Lemma groupby6_NoDup (f : list Rec) : NoDup (List.map fst (groupby6 f)).
Proof. apply groupby_sum_NoDup, key6_eqb_spec. Qed.

Lemma group_nil_iff (f : list Rec) (k : Key6) :
  group key6 key6_eqb f k = [] <-> ~ In k (List.map key6 f).
Proof.
  unfold group. rewrite filter_nil_iff, in_map_iff. split.
  - intros H [b [E Hb]]. specialize (H b Hb).
    rewrite (proj2 (key6_eqb_spec _ _) E) in H. discriminate.
  - intros H b Hb. destruct (key6_eqb (key6 b) k) eqn:E; [|reflexivity].
    exfalso. apply H. exists b. split; [now apply key6_eqb_spec | assumption].
Qed.

Lemma assoc6_groupby6 (f : list Rec) (k : Key6) :
  assoc6 k (groupby6 f) =
  match group key6 key6_eqb f k with
  | [] => None
  | g => Some (sumQ (List.map Value g))
  end.
Proof.
  destruct (group key6 key6_eqb f k) as [|b g] eqn:E.
  - apply assoc6_not_in. unfold groupby6.
    rewrite (groupby_sum_keys key6 Value key6_eqb key6_compare key6_eqb_spec).
    now apply group_nil_iff.
  - apply assoc6_in; [apply groupby6_NoDup|].
    apply (groupby_sum_In key6 Value key6_eqb key6_compare key6_eqb_spec).
    rewrite E. split; [|reflexivity].
    destruct (in_dec (fun x y => Bool.reflect_dec _ _ (Bool.iff_reflect _ _ (iff_sym (key6_eqb_spec x y))))
                k (List.map key6 f)) as [H|H]; [assumption|].
    apply group_nil_iff in H. congruence.
Qed.

Lemma groupby6_keys_ok (f : list Rec) (kv : Key6 * Q) :
  Forall rec_ok f -> In kv (groupby6 f) ->
  exists a i y, fst kv = full_key a i y.
Proof.
  intros H Hin. assert (Hk : In (fst kv) (List.map fst (groupby6 f)))
    by (apply in_map; exact Hin).
  unfold groupby6 in Hk.
  rewrite (groupby_sum_keys key6 Value key6_eqb key6_compare key6_eqb_spec) in Hk.
  apply in_map_iff in Hk. destruct Hk as [b [E Hb]].
  rewrite Forall_forall in H.
  exists (Area b), (Item b), (Year b). rewrite <- E. apply rec_ok_key, H, Hb.
Qed.

Lemma rec_at_of_key6 (a i : string) (y : Z) (kv : Key6 * Q) :
  (exists a' i' y', fst kv = full_key a' i' y') ->
  (rec_at a i y (rec_of_key6 kv) = true <-> fst kv = full_key a i y).
Proof.
  intros [a' [i' [y' E]]]. destruct kv as [k v]. simpl in E. subst k.
  simpl. rewrite rec_at_spec, full_key_inj. simpl. tauto.
Qed.

(** The rows of a summed gas frame under an area, item and year: one row
    with the sum of the values recorded there, or none. *)
Lemma co2e_frame_at (f : list Rec) (a i : string) (y : Z) :
  Forall rec_ok f ->
  filter (rec_at a i y) (co2e_frame f) =
  match filter (rec_at a i y) f with
  | [] => []
  | g => [rec_of_key6 (full_key a i y, sumQ (List.map Value g))]
  end.
Proof.
  intros H. unfold co2e_frame. rewrite filter_map_comm.
  rewrite (filter_keyed _ _ (full_key a i y) (groupby6_NoDup f)).
  - rewrite assoc6_groupby6, (group_ok f a i y H).
    now destruct (filter (rec_at a i y) f).
  - intros kv Hkv. apply rec_at_of_key6. now apply (groupby6_keys_ok f).
Qed.

Lemma filter_const {A : Type} (p : A -> bool) (c : bool) (l : list A) :
  (forall x, In x l -> p x = c) -> filter p l = if c then l else [].
Proof.
  induction l as [|x l IH]; simpl; intros H.
  - now destruct c.
  - rewrite (H x (or_introl eq_refl)), IH by (intros z Hz; apply H; now right).
    now destruct c.
Qed.

Lemma perm_short {A : Type} (l l' : list A) :
  Permutation l l' -> (List.length l' <= 1)%nat -> l = l'.
Proof.
  intros P H. destruct l' as [|x [|z l']]; simpl in H; try lia.
  - apply Permutation_nil, Permutation_sym, P.
  - apply Permutation_length_1_inv, Permutation_sym, P.
Qed.

(** The rows of an outer merge under one key, for two frames with one row
    per key. *)
Lemma merge_outer_at (L R : list (Key6 * Q)) (p : Key6 -> bool) (k0 : Key6) :
  NoDup (List.map fst L) -> NoDup (List.map fst R) ->
  (forall kv, In kv L -> (p (fst kv) = true <-> fst kv = k0)) ->
  (forall kv, In kv R -> (p (fst kv) = true <-> fst kv = k0)) ->
  filter (fun t : Key6 * option Q * option Q => p (fst (fst t))) (merge_outer L R) =
  match assoc6 k0 L, assoc6 k0 R with
  | None, None => []
  | c, n => [(k0, c, n)]
  end.
Proof.
  intros NL NR HL HR. unfold merge_outer.
  apply perm_short.
  2:{ destruct (assoc6 k0 L), (assoc6 k0 R); simpl; lia. }
  eapply perm_trans; [apply filter_perm, sort_values_perm|].
  rewrite filter_app, filter_flat_map, filter_map_comm, filter_filter.
  cbn [fst snd].
  (* the rows of the right frame that have no partner *)
  rewrite (filter_ext
             (fun x : Key6 * Q =>
                negb (existsb (fun a : Key6 * Q => key6_eqb (fst a) (fst x)) L) && p (fst x))
             (fun x => p (fst x) && negb (existsb (fun a : Key6 * Q => key6_eqb (fst a) (fst x)) L)))
    by (intros x; apply andb_comm).
  rewrite <- (filter_filter
                (fun x : Key6 * Q => negb (existsb (fun a : Key6 * Q => key6_eqb (fst a) (fst x)) L))
                (fun x : Key6 * Q => p (fst x)) R).
  rewrite (filter_keyed (fun x => p (fst x)) R k0 NR HR).
  (* the rows of the left frame *)
  rewrite (flat_map_ext _
             (fun a : Key6 * Q =>
                if p (fst a) then
                  match filter (fun b : Key6 * Q => key6_eqb (fst a) (fst b)) R with
                  | [] => [(fst a, Some (snd a), None)]
                  | ms => List.map (fun b : Key6 * Q => (fst a, Some (snd a), Some (snd b))) ms
                  end
                else [])).
  2:{ intros a. apply filter_const. intros x Hx.
      destruct (filter (fun b : Key6 * Q => key6_eqb (fst a) (fst b)) R).
      - destruct Hx as [<-|[]]. reflexivity.
      - apply in_map_iff in Hx. destruct Hx as [b [<- _]]. reflexivity. }
  rewrite (flat_map_filter (fun a : Key6 * Q => p (fst a))).
  rewrite (filter_keyed (fun x => p (fst x)) L k0 NL HL).
  destruct (assoc6 k0 L) as [v|] eqn:EL; cbn [flat_map fst snd app].
  - rewrite (filter_keyed (fun b => key6_eqb k0 (fst b)) R k0 NR).
    2:{ intros kv _. rewrite key6_eqb_spec. split; congruence. }
    destruct (assoc6 k0 R) as [w|] eqn:ER; cbn [filter fst List.map app].
    + rewrite assoc6_exists, EL. apply Permutation_refl.
    + apply Permutation_refl.
  - destruct (assoc6 k0 R) as [w|] eqn:ER; cbn [filter fst List.map app].
    + rewrite assoc6_exists, EL. apply Permutation_refl.
    + apply Permutation_refl.
Qed.

(** The rows of the total frame under an area, item and year. *)
Lemma total_frame_at (ch4 n2o : list Rec) (a i : string) (y : Z) :
  Forall rec_ok ch4 -> Forall rec_ok n2o ->
  filter (rec_at a i y) (total_frame ch4 n2o) =
  match assoc6 (full_key a i y) (groupby6 ch4),
        assoc6 (full_key a i y) (groupby6 n2o) with
  | None, None => []
  | c, n => [rec_of_key6 (full_key a i y, (fillna0 c + fillna0 n)%Q)]
  end.
Proof.
  intros Hc Hn. unfold total_frame. rewrite filter_map_comm.
  rewrite (filter_ext _
             (fun t : Key6 * option Q * option Q =>
                rec_at a i y (rec_of_key6 (fst (fst t), 0%Q))))
    by (intros [[[[[[[? ?] ?] ?] ?] ?] ?] ?]; reflexivity).
  rewrite (merge_outer_at _ _ (fun k => rec_at a i y (rec_of_key6 (k, 0%Q)))
             (full_key a i y) (groupby6_NoDup ch4) (groupby6_NoDup n2o)).
  - now destruct (assoc6 _ (groupby6 ch4)), (assoc6 _ (groupby6 n2o)).
  - intros kv Hkv.
    apply (rec_at_of_key6 a i y (fst kv, 0%Q)), (groupby6_keys_ok ch4 kv Hc Hkv).
  - intros kv Hkv.
    apply (rec_at_of_key6 a i y (fst kv, 0%Q)), (groupby6_keys_ok n2o kv Hn Hkv).
Qed.

(** ** The gas metrics of the per-country table *)

Lemma select_at (n : ElementNorm) (a i : string) (y : Z) (long : list LongRow) :
  List.map Value (filter (rec_at a i y) (select n long)) = raw_values n a i y long.
Proof.
  unfold select, raw_values. rewrite filter_map_comm, filter_filter, map_map.
  simpl. f_equal. apply filter_ext. intros l.
  unfold long_at, rec_at. simpl. now rewrite !andb_assoc.
Qed.

Lemma scaled_at (c : Q) (f : list Rec) (a i : string) (y : Z) :
  List.map Value (filter (rec_at a i y) (scaled c f)) =
  List.map (fun v => (v * c)%Q) (List.map Value (filter (rec_at a i y) f)).
Proof.
  rewrite scaled_map, filter_map_comm, !map_map. reflexivity.
Qed.

Lemma scaled_at_nil (c : Q) (f : list Rec) (a i : string) (y : Z) :
  filter (rec_at a i y) (scaled c f) = [] <-> filter (rec_at a i y) f = [].
Proof.
  rewrite scaled_map, filter_map_comm. split.
  - intros H. apply map_eq_nil in H. exact H.
  - intros H. unfold rec_at, set_Value in *. simpl. now rewrite H.
Qed.

Lemma raw_values_nil (n : ElementNorm) (a i : string) (y : Z) (long : list LongRow) :
  raw_values n a i y long = [] <-> filter (rec_at a i y) (select n long) = [].
Proof.
  rewrite <- select_at. split.
  - apply map_eq_nil.
  - intros ->. reflexivity.
Qed.

(** The three gas frames read under one area, item and year. *)
Lemma gas_rows_at (a : Args) (long : list LongRow) (ar i : string) (y : Z) :
  Forall long_ok long ->
  let out := per_country (prepared a long) in
  let gc := filter (rec_at ar i y) (scaled (fst (gwp_pair (gwp a))) (select CH4 long)) in
  let gn := filter (rec_at ar i y) (scaled (snd (gwp_pair (gwp a))) (select N2O long)) in
  let row m v := mkRow m (rec_of_key6 (full_key ar i y, v)) in
  rows_at out M_CH4_CO2e ar i y =
    match gc with [] => [] | _ => [row M_CH4_CO2e (sumQ (List.map Value gc))] end /\
  rows_at out M_N2O_CO2e ar i y =
    match gn with [] => [] | _ => [row M_N2O_CO2e (sumQ (List.map Value gn))] end /\
  rows_at out M_Total_CO2e ar i y =
    match gc, gn with
    | [], [] => []
    | _, _ => [row M_Total_CO2e (sumQ (List.map Value gc) + sumQ (List.map Value gn))%Q]
    end.
Proof.
  intros Hok. cbv zeta.
  set (ch4 := scaled (fst (gwp_pair (gwp a))) (select CH4 long)).
  set (n2o := scaled (snd (gwp_pair (gwp a))) (select N2O long)).
  assert (Hc : Forall rec_ok ch4) by (apply scaled_ok, select_ok, Hok).
  assert (Hn : Forall rec_ok n2o) by (apply scaled_ok, select_ok, Hok).
  assert (Fc := co2e_frame_at ch4 ar i y Hc).
  assert (Fn := co2e_frame_at n2o ar i y Hn).
  assert (Ft := total_frame_at ch4 n2o ar i y Hc Hn).
  rewrite !assoc6_groupby6, (group_ok ch4 ar i y Hc), (group_ok n2o ar i y Hn) in Ft.
  repeat split.
  - destruct (filter (rec_at ar i y) ch4) eqn:E.
    + apply rows_at_none. exact Fc.
    + apply rows_at_single. exact Fc.
  - destruct (filter (rec_at ar i y) n2o) eqn:E.
    + apply rows_at_none. exact Fn.
    + apply rows_at_single. exact Fn.
  - destruct (filter (rec_at ar i y) ch4) eqn:E1;
      destruct (filter (rec_at ar i y) n2o) eqn:E2;
      (apply rows_at_none; exact Ft) || (apply rows_at_single; exact Ft).
Qed.

Lemma value_at_none (out : list Row) (m : MetricName) (a i : string) (y : Z) :
  rows_at out m a i y = [] -> value_at out m a i y == 0.
Proof. unfold value_at. intros ->. reflexivity. Qed.

Lemma sumQ_single (v : Q) : sumQ [v] == v.
Proof. rewrite sumQ_cons, sumQ_nil. ring. Qed.

(** ** C2: the total is the sum of the two gases *)

(** The total of the gases in the per-country table. *)
Lemma total_co2e_per_country (a : Args) (df : DataFrame) (long : list LongRow)
    (ar i : string) (y : Z) :
  to_long a df = inr long ->
  let out := per_country (prepared a long) in
  (rows_at out M_Total_CO2e ar i y <> [] <->
     rows_at out M_CH4_CO2e ar i y <> [] \/ rows_at out M_N2O_CO2e ar i y <> []) /\
  (List.length (rows_at out M_Total_CO2e ar i y) <= 1)%nat /\
  (forall r, In r (rows_at out M_Total_CO2e ar i y) ->
     Value (body r)
     == value_at out M_CH4_CO2e ar i y + value_at out M_N2O_CO2e ar i y) /\
  (forall m, rows_at out m ar i y = [] -> value_at out m ar i y == 0).
Proof.
  intros Hl out.
  destruct (gas_rows_at a long ar i y (to_long_ok a df long Hl)) as [Ec [En Et]].
  fold out in Ec, En, Et.
  assert (Vc : value_at out M_CH4_CO2e ar i y
               == sumQ (List.map Value
                          (filter (rec_at ar i y)
                             (scaled (fst (gwp_pair (gwp a))) (select CH4 long))))).
  { unfold value_at. rewrite Ec.
    destruct (filter _ (scaled _ (select CH4 long))); [reflexivity|].
    cbn [List.map body Value rec_of_key6 full_key]. apply sumQ_single. }
  assert (Vn : value_at out M_N2O_CO2e ar i y
               == sumQ (List.map Value
                          (filter (rec_at ar i y)
                             (scaled (snd (gwp_pair (gwp a))) (select N2O long))))).
  { unfold value_at. rewrite En.
    destruct (filter _ (scaled _ (select N2O long))); [reflexivity|].
    cbn [List.map body Value rec_of_key6 full_key]. apply sumQ_single. }
  split; [|split; [|split]].
  - rewrite Ec, En, Et.
    destruct (filter _ (scaled _ (select CH4 long)));
      destruct (filter _ (scaled _ (select N2O long)));
      split; intros H; try discriminate; try tauto;
      try (left; discriminate); try (right; discriminate).
  - rewrite Et.
    destruct (filter _ (scaled _ (select CH4 long)));
      destruct (filter _ (scaled _ (select N2O long))); simpl; lia.
  - intros r Hr. rewrite Vc, Vn. rewrite Et in Hr.
    destruct (filter _ (scaled _ (select CH4 long)));
      destruct (filter _ (scaled _ (select N2O long)));
      simpl in Hr; try contradiction; destruct Hr as [<-|[]]; reflexivity.
  - intros m. apply value_at_none.
Qed.

(** ** C3: the warming factors *)

Lemma gwp_pair_default (name : string) :
  Str.mem (Str.upper (Str.strip name)) ["AR4"; "AR5"; "AR6_NOCCF"; "AR6_CCF"] = false ->
  gwp_pair name = (27.2, 273)%Q.
Proof.
  unfold gwp_pair, Str.mem. set (k := Str.upper (Str.strip name)).
  cbn [existsb]. rewrite !orb_false_iff. intros [H1 [H2 [H3 [H4 _]]]].
  unfold GWP_TABLE, dict_get.
  rewrite (String.eqb_sym "AR4" k), (String.eqb_sym "AR5" k),
    (String.eqb_sym "AR6_NOCCF" k), (String.eqb_sym "AR6_CCF" k).
  now rewrite H1, H2, H3, H4.
Qed.

(** C3. The four named factor pairs and the default for any other name;
    and under every area, item and year the per-country table holds one
    CH4_CO2e row (one N2O_CO2e row) when the long table records CH4 (N2O)
    values there and none otherwise, its value the sum of all the values
    recorded there, each multiplied by the CH4 (N2O) factor of the pair
    selected: by 28 and 265 for the name AR5. *)
Theorem gwp_factors_scale_and_sum :
  (gwp_pair "AR4" = (25, 298) /\ gwp_pair "AR5" = (28, 265) /\
   gwp_pair "AR6_NOCCF" = (27.2, 273) /\ gwp_pair "AR6_CCF" = (29.8, 273))%Q /\
  (forall name,
      Str.mem (Str.upper (Str.strip name)) ["AR4"; "AR5"; "AR6_NOCCF"; "AR6_CCF"] = false ->
      gwp_pair name = (27.2, 273)%Q) /\
  (forall a df long ar i y,
      to_long a df = inr long ->
      let out := per_country (prepared a long) in
      let scaled_sum n m factor :=
        (raw_values n ar i y long = [] -> rows_at out m ar i y = []) /\
        (raw_values n ar i y long <> [] ->
         exists r, rows_at out m ar i y = [r] /\
                   Value (body r)
                   == sumQ (List.map (fun v => v * factor) (raw_values n ar i y long))) in
      scaled_sum CH4 M_CH4_CO2e (fst (gwp_pair (gwp a))) /\
      scaled_sum N2O M_N2O_CO2e (snd (gwp_pair (gwp a))) /\
      (gwp a = "AR5" ->
       scaled_sum CH4 M_CH4_CO2e 28 /\ scaled_sum N2O M_N2O_CO2e 265)).
Proof.
  split; [repeat split|]. split; [exact gwp_pair_default|].
  intros a df long ar i y Hl. cbv zeta.
  destruct (gas_rows_at a long ar i y (to_long_ok a df long Hl)) as [Ec [En _]].
  assert (C : forall n m factor,
             rows_at (per_country (prepared a long)) m ar i y =
               match filter (rec_at ar i y) (scaled factor (select n long)) with
               | [] => []
               | _ => [mkRow m (rec_of_key6
                                  (full_key ar i y,
                                   sumQ (List.map Value
                                           (filter (rec_at ar i y)
                                              (scaled factor (select n long))))))]
               end ->
             (raw_values n ar i y long = [] ->
              rows_at (per_country (prepared a long)) m ar i y = []) /\
             (raw_values n ar i y long <> [] ->
              exists r, rows_at (per_country (prepared a long)) m ar i y = [r] /\
                        Value (body r)
                        == sumQ (List.map (fun v => v * factor)
                                   (raw_values n ar i y long)))).
  { intros n m factor E. rewrite raw_values_nil, <- (scaled_at_nil factor).
    rewrite E. split.
    - intros ->. reflexivity.
    - intros H.
      destruct (filter (rec_at ar i y) (scaled factor (select n long))) eqn:Ef;
        [contradiction|].
      eexists. split; [reflexivity|].
      cbn [body Value rec_of_key6 full_key].
      rewrite <- Ef, scaled_at, select_at. reflexivity. }
  split; [now apply C|]. split; [now apply C|].
  intros Hg. rewrite Hg in Ec, En.
  split; apply C; assumption.
Qed.

(** ** Characters and case *)

Lemma lower_idem (c : ascii) : Chr.lower (Chr.lower c) = Chr.lower c.
Proof. all_chars c. Qed.

Lemma is_word_lower (c : ascii) : Chr.is_word (Chr.lower c) = Chr.is_word c.
Proof. all_chars c. Qed.

Lemma is_space_lower (c : ascii) : Chr.is_space (Chr.lower c) = Chr.is_space c.
Proof. all_chars c. Qed.

Lemma str_lower_idem (s : string) : Str.lower (Str.lower s) = Str.lower s.
Proof.
  unfold Str.lower. induction s as [|c s IH]; simpl; [reflexivity|].
  now rewrite lower_idem, IH.
Qed.

Lemma lower_append (a b : string) :
  Str.lower (a ++ b) = (Str.lower a ++ Str.lower b)%string.
Proof. apply map_append. Qed.

(** A split of [map f x] comes from a split of [x]. *)
Lemma map_split (f : ascii -> ascii) (x a b : string) :
  Str.map f x = (a ++ b)%string ->
  exists a' b', x = (a' ++ b')%string /\ Str.map f a' = a /\ Str.map f b' = b.
Proof.
  revert x. induction a as [|c a IH]; intros x H; simpl in H.
  - exists "", x. auto.
  - destruct x as [|d x]; simpl in H; [discriminate|].
    inversion H; subst. destruct (IH x H2) as [a' [b' [-> [<- <-]]]].
    exists (String d a'), b'. auto.
Qed.

Lemma occurs_isin (w s : string) : Str.isin w s = true <-> occurs w s.
Proof. apply isin_spec. Qed.

Lemma occurs_trans (a b c : string) : occurs a b -> occurs b c -> occurs a c.
Proof.
  intros [p1 [q1 ->]] [p2 [q2 ->]].
  exists (p2 ++ p1)%string, (q1 ++ q2)%string. now rewrite !append_assoc.
Qed.

Lemma occurs_lower (w s : string) : occurs w s -> occurs (Str.lower w) (Str.lower s).
Proof.
  intros [p [q ->]]. exists (Str.lower p), (Str.lower q).
  now rewrite !lower_append.
Qed.

(** ** The matcher on literal words *)

Lemma str_take_drop (n : nat) (s : string) :
  (str_take n s ++ str_drop n s)%string = s.
Proof.
  revert s. induction n as [|n IH]; intros [|c s]; simpl; try reflexivity.
  now rewrite IH.
Qed.

Lemma starts_with_lit_length (ic : bool) (w s : string) :
  starts_with_lit ic w s = true ->
  String.length (str_take (String.length w) s) = String.length w.
Proof.
  revert s. induction w as [|c w IH]; intros [|d s]; simpl; try congruence.
  rewrite andb_true_iff. intros [_ H]. now rewrite IH.
Qed.

(** Matching a literal word: the subject begins with it, and the
    continuation runs on what follows. *)
Lemma rmatch_lit (ic : bool) (w : string) (prev : option ascii) (s : string)
    (k : option ascii -> string -> option string) :
  Re.rmatch ic (Re.lit w) prev s k =
  if starts_with_lit ic w s
  then k (Str.last prev (str_take (String.length w) s)) (str_drop (String.length w) s)
  else None.
Proof.
  revert prev s. induction w as [|c w IH]; intros prev s; simpl.
  - reflexivity.
  - destruct s as [|d s]; [reflexivity|].
    destruct (Re.chr_eq ic c d); simpl; [apply IH | reflexivity].
Qed.

Lemma match_here_lit (ic : bool) (w : string) (prev : option ascii) (s : string) :
  Re.match_here ic (Re.lit w) prev s =
  if starts_with_lit ic w s then Some (str_drop (String.length w) s) else None.
Proof. unfold Re.match_here. now rewrite rmatch_lit. Qed.

(** With [re.I], beginning with a literal is beginning with it in lower
    case. *)
Lemma starts_with_lit_ci (w s : string) :
  starts_with_lit true w s = Str.startswith (Str.lower w) (Str.lower s).
Proof.
  revert s. induction w as [|c w IH]; intros [|d s]; simpl; try reflexivity.
  now rewrite IH.
Qed.

(** [re.search] of a literal word with [re.I] is the operator [in] on the
    lower-cased strings. *)
Lemma search_from_lit (w : string) (prev : option ascii) (s : string) :
  Re.search_from true (Re.lit w) prev s = Str.isin (Str.lower w) (Str.lower s).
Proof.
  revert prev. induction s as [|c s IH]; intros prev.
  - cbn [Re.search_from]. rewrite match_here_lit, starts_with_lit_ci.
    change (Str.lower "") with "". cbn [Str.isin].
    destruct (Str.startswith (Str.lower w) ""); reflexivity.
  - cbn [Re.search_from]. rewrite match_here_lit, starts_with_lit_ci, IH.
    change (Str.lower (String c s)) with (String (Chr.lower c) (Str.lower s)).
    cbn [Str.isin].
    destruct (Str.startswith (Str.lower w) (String (Chr.lower c) (Str.lower s)));
      reflexivity.
Qed.

Lemma search_lit (w s : string) :
  Re.search true (Re.lit w) s = Str.isin (Str.lower w) (Str.lower s).
Proof. apply search_from_lit. Qed.

(** ** C8: the only-livestock-total filter *)

Lemma is_livestock_total_element_spec (e : string) :
  is_livestock_total_element (Some e) = true <->
  occurs_ci "livestock" e /\ occurs_ci "total" e.
Proof.
  unfold is_livestock_total_element, occurs_ci.
  rewrite andb_true_iff, !search_lit, !occurs_isin. reflexivity.
Qed.

Lemma is_gas_spec (n : ElementNorm) : is_gas n = true <-> n = CH4 \/ n = N2O.
Proof. destruct n; simpl; split; intros H; try discriminate; auto; destruct H; discriminate. Qed.

(** C8. With the filter enabled, a row classified CH4 or N2O stays exactly
    when its element label contains both livestock and total, in any
    casing and in either order; a row classified Stocks always stays; no
    row is added; with the filter disabled the table is unchanged; and
    [to_long] applies the filter, under the flag of the arguments, to the
    classified rows before reshaping. *)
Theorem livestock_total_filter_spec (df : list (RawRow * ElementNorm)) :
  (forall e, is_livestock_total_element (Some e) = true <->
             occurs_ci "livestock" e /\ occurs_ci "total" e) /\
  (forall rn, snd rn = CH4 \/ snd rn = N2O ->
      (In rn (livestock_total_filter true df) <->
       In rn df /\ occurs_ci "livestock" (raw_Element (fst rn))
       /\ occurs_ci "total" (raw_Element (fst rn)))) /\
  (forall rn, snd rn = Stocks ->
      (In rn (livestock_total_filter true df) <-> In rn df)) /\
  livestock_total_filter false df = df /\
  (forall a t long,
      to_long a t = inr long ->
      long = melt (detect_year_cols (columns t))
               (livestock_total_filter (flag (only_livestock_total a))
                  (classify (clean (rows t))))).
Proof.
  split; [exact is_livestock_total_element_spec|].
  split; [|split; [|split]].
  - intros rn Hg. unfold livestock_total_filter. rewrite filter_In.
    cbv beta zeta. rewrite (proj2 (is_gas_spec (snd rn)) Hg).
    cbn [negb orb andb]. rewrite is_livestock_total_element_spec. reflexivity.
  - intros rn Hs. unfold livestock_total_filter. rewrite filter_In.
    cbv beta zeta. rewrite Hs. cbn [is_gas norm_eqb negb orb]. tauto.
  - reflexivity.
  - exact to_long_melt.
Qed.

(** ** C9: year columns *)

Lemma detect_year_cols_In (cols : list string) (c : string) :
  In c (detect_year_cols cols) <->
  In c cols /\ exists ds, c = String "Y" ds /\ Str.isdigit ds = true.
Proof.
  unfold detect_year_cols. rewrite filter_In, andb_true_iff. split.
  - intros [H [H1 H2]]. split; [assumption|].
    destruct c as [|y ds]; [discriminate|].
    cbn [Str.startswith Str.tail] in H1, H2.
    rewrite andb_true_r in H1. apply Ascii.eqb_eq in H1. subst y.
    now exists ds.
  - intros [H [ds [-> Hd]]]. cbn [Str.startswith Str.tail].
    rewrite Ascii.eqb_refl. auto.
Qed.

Lemma isdigit_spec (ds : string) :
  Str.isdigit ds = true <-> ds <> "" /\ Str.all_digits ds = true.
Proof.
  destruct ds; simpl.
  - split; [discriminate | intros [H _]; congruence].
  - split; [intros H; split; [discriminate | assumption] | tauto].
Qed.

Lemma melt_In (year_cols : list string) (df : list (RawRow * ElementNorm))
    (l : LongRow) :
  In l (melt year_cols df) <->
  exists c rn, In c year_cols /\ In rn df /\ l = long_row c rn.
Proof.
  unfold melt. rewrite in_flat_map. split.
  - intros [c [Hc H]]. apply in_map_iff in H. destruct H as [[r n] [<- Hr]].
    exists c, (r, n). auto.
  - intros [c [[r n] [Hc [Hr ->]]]]. exists c. split; [assumption|].
    apply in_map_iff. exists (r, n). auto.
Qed.

Lemma melt_length (year_cols : list string) (df : list (RawRow * ElementNorm)) :
  List.length (melt year_cols df) = (List.length year_cols * List.length df)%nat.
Proof.
  unfold melt. induction year_cols as [|c ycs IH]; simpl; [reflexivity|].
  now rewrite length_app, length_map, IH.
Qed.

Lemma missing_nil (df : DataFrame) :
  filter (fun c => negb (Str.mem c (columns df))) ["Area"; "Element"; "Item"] = []
  <-> has_required df.
Proof.
  unfold has_required. rewrite <- !mem_spec. simpl.
  destruct (Str.mem "Area" (columns df)), (Str.mem "Element" (columns df)),
    (Str.mem "Item" (columns df)); simpl; split; intros H;
    try discriminate; try tauto; destruct H as [? [? ?]]; discriminate.
Qed.

Lemma main_no_year_columns (a : Args) (df : DataFrame) :
  main a df = inl NoYearColumns <->
  has_required df /\ detect_year_cols (columns df) = [].
Proof.
  rewrite <- missing_nil. unfold main, to_long.
  destruct (filter _ ["Area"; "Element"; "Item"]) as [|m ms]; simpl.
  - destruct (detect_year_cols (columns df)) as [|c ycs]; cbn [is_empty negb].
    + tauto.
    + destruct (astype_int _) as [long|];
        [destruct (is_empty (prepared a long))|]; split; try discriminate;
        intros [_ H]; discriminate.
  - split; [discriminate | intros [H _]; discriminate].
Qed.

Lemma main_without_year_columns (a : Args) (df : DataFrame) :
  detect_year_cols (columns df) = [] ->
  exists e, main a df = inl e /\ e <> NothingToWrite.
Proof.
  intros H. unfold main, to_long. rewrite H.
  destruct (negb (is_empty _)); simpl; eexists; split; try reflexivity; discriminate.
Qed.

(** C9, as stated, fails: a name of a letter and four digits that does not
    begin with Y is not detected; Y followed by two digits is detected;
    and a table with a detected year column and no row ends in a fatal
    error. *)
Lemma year_columns_counterexample :
  (letter_four_digits "X2020" = true /\ detect_year_cols ["X2020"] = []) /\
  (letter_four_digits "Y20" = false /\ detect_year_cols ["Y20"] = ["Y20"]) /\
  (detect_year_cols ["Area"; "Item"; "Element"; "Y2020"] = ["Y2020"] /\
   main default_args (mkDF ["Area"; "Item"; "Element"; "Y2020"] [])
   = inl NothingToWrite).
Proof. repeat split. Qed.

(** C9, amended. A column is a year column exactly when its name is the
    letter Y followed by one or more decimal digits; the long table holds
    one row per year column and table row, with the integer after the Y
    as year and the cell under that column as value; and [main] ends with
    the no-year-columns error exactly when the three label columns are
    present and no year column is detected, while without year columns it
    always ends with an error. *)
Theorem year_columns_detected_and_melted :
  (forall cols c,
      In c (detect_year_cols cols) <->
      In c cols /\ exists ds, c = String "Y" ds /\ ds <> "" /\ Str.all_digits ds = true) /\
  (forall year_cols df,
      List.length (melt year_cols df)
      = (List.length year_cols * List.length df)%nat /\
      forall l, In l (melt year_cols df) <->
                exists c rn, In c year_cols /\ In rn df /\ l = long_row c rn) /\
  (forall c rn,
      l_Year (long_row c rn) = Str.int (Str.tail c) /\
      l_Value (long_row c rn) = raw_cell (fst rn) c /\
      l_Area (long_row c rn) = raw_Area (fst rn) /\
      l_Item (long_row c rn) = raw_Item (fst rn) /\
      l_ElementNorm (long_row c rn) = snd rn) /\
  (forall a df,
      main a df = inl NoYearColumns <->
      has_required df /\ detect_year_cols (columns df) = []) /\
  (forall a df,
      detect_year_cols (columns df) = [] ->
      exists e, main a df = inl e /\ e <> NothingToWrite).
Proof.
  split; [|split; [|split; [|split]]].
  - intros cols c. rewrite detect_year_cols_In.
    split; intros [H [ds [E Hd]]]; (split; [assumption|]); exists ds;
      (split; [assumption|]); now apply isdigit_spec.
  - intros ycs df. split; [apply melt_length | intros l; apply melt_In].
  - intros c rn. repeat split.
  - exact main_no_year_columns.
  - exact main_without_year_columns.
Qed.

(** ** C7: group totals *)

Lemma areas_in_spec (out : list Row) (members : list string) (a : string) :
  In a (areas_in out members) <->
  (exists r, In r out /\ Area (body r) = a) /\ In a members.
Proof.
  unfold areas_in, intersection.
  rewrite filter_In, (In_unique String.eqb String.eqb_eq), in_map_iff, mem_spec.
  split; intros [[r [H1 H2]] H3]; (split; [exists r|]; auto).
Qed.

Lemma areas_in_NoDup (out : list Row) (members : list string) :
  NoDup (areas_in out members).
Proof.
  unfold areas_in, intersection.
  apply NoDup_filter, (NoDup_unique String.eqb String.eqb_eq).
Qed.

(** The rows of the group: those whose area is one of its members. *)
Lemma sub_frame_spec (out : list Row) (members : list string) :
  filter (fun r => Str.mem (Area (body r)) (areas_in out members)) out =
  filter (fun r => Str.mem (Area (body r)) members) out.
Proof.
  apply filter_ext_in. intros r Hr. apply eq_true_iff_eq.
  rewrite !mem_spec, areas_in_spec. split; [tauto|].
  intros H. split; [exists r|]; auto.
Qed.

Lemma sum_by_area_step (out : list Row) (a : string) (areas : list string)
    (p : Row -> bool) :
  ~ In a areas ->
  sumQ (List.map (fun r => Value (body r))
          (filter (fun r => Str.mem (Area (body r)) (a :: areas) && p r) out))
  == sumQ (List.map (fun r => Value (body r))
             (filter (fun r => String.eqb (Area (body r)) a && p r) out))
     + sumQ (List.map (fun r => Value (body r))
               (filter (fun r => Str.mem (Area (body r)) areas && p r) out)).
Proof.
  intros Ha. induction out as [|r out IHo]; [reflexivity|].
  cbn [filter]. unfold Str.mem at 1. cbn [existsb].
  fold (Str.mem (Area (body r)) areas).
  destruct (String.eqb (Area (body r)) a) eqn:E.
  - apply String.eqb_eq in E.
    assert (M : Str.mem (Area (body r)) areas = false).
    { destruct (Str.mem (Area (body r)) areas) eqn:M; [|reflexivity].
      apply mem_spec in M. rewrite E in M. contradiction. }
    rewrite M. cbn [orb andb]. destruct (p r); cbn [List.map].
    + rewrite !sumQ_cons, IHo. ring.
    + exact IHo.
  - cbn [orb andb]. destruct (Str.mem (Area (body r)) areas && p r); cbn [List.map].
    + rewrite !sumQ_cons, IHo. ring.
    + exact IHo.
Qed.

(** A sum over the rows of several distinct areas is the sum, over the
    areas, of the sum of each one's rows. *)
Lemma sum_by_area (out : list Row) (areas : list string) (p : Row -> bool) :
  NoDup areas ->
  sumQ (List.map (fun r => Value (body r))
          (filter (fun r => Str.mem (Area (body r)) areas && p r) out))
  == sumQ (List.map
             (fun a =>
                sumQ (List.map (fun r => Value (body r))
                        (filter (fun r => String.eqb (Area (body r)) a && p r) out)))
             areas).
Proof.
  intros N. induction areas as [|a areas IH].
  - simpl. rewrite (proj2 (filter_nil_iff _ out)) by reflexivity. reflexivity.
  - inversion N as [|? ? Ha N']; subst.
    cbn [List.map]. rewrite sumQ_cons, <- (IH N').
    now apply sum_by_area_step.
Qed.

Lemma group_totals_In (out : list Row) (members : list string) (label : string)
    (g : Row) :
  In g (group_totals out members label) <->
  Area (body g) = label /\
  (exists r, In r out /\ In (Area (body r)) members /\ keyG r = keyG g) /\
  Value (body g)
  = sumQ (List.map (fun r => Value (body r))
            (filter (fun r => Str.mem (Area (body r)) members && keyG_eqb (keyG r) (keyG g))
               out)).
Proof.
  unfold group_totals.
  set (sub := filter (fun r => Str.mem (Area (body r)) members) out).
  assert (Hg : forall k, group keyG keyG_eqb sub k
               = filter (fun r => Str.mem (Area (body r)) members && keyG_eqb (keyG r) k) out).
  { intros k. unfold group, sub. apply filter_filter. }
  assert (Hk : forall k, In k (List.map keyG sub) <->
                         exists r, In r out /\ In (Area (body r)) members /\ keyG r = k).
  { intros k. rewrite in_map_iff. unfold sub. split.
    - intros [r [E Hr]]. apply filter_In in Hr. rewrite mem_spec in Hr.
      exists r. tauto.
    - intros [r [H1 [H2 H3]]]. exists r. split; [assumption|].
      apply filter_In. rewrite mem_spec. auto. }
  assert (Main : In g (List.map (row_of_keyG label)
                         (groupby_sum keyG (fun r => Value (body r)) keyG_eqb keyG_compare sub))
                 <-> Area (body g) = label /\
                     (exists r, In r out /\ In (Area (body r)) members /\ keyG r = keyG g) /\
                     Value (body g)
                     = sumQ (List.map (fun r => Value (body r))
                               (filter (fun r => Str.mem (Area (body r)) members
                                                 && keyG_eqb (keyG r) (keyG g)) out))).
  { rewrite in_map_iff. split.
    - intros [[k v] [E H]].
      apply (groupby_sum_In keyG _ keyG_eqb keyG_compare keyG_eqb_spec) in H.
      destruct H as [H1 Hv]. rewrite Hg in Hv. apply Hk in H1.
      destruct k as [[[[[i y] m] kd] aa] at_]. subst g.
      cbn [row_of_keyG body Metric Area Value keyG Item Year kind is_all_animals is_atomic].
      split; [reflexivity|]. split; [exact H1 | exact Hv].
    - intros [E [H1 H2]].
      exists (keyG g, Value (body g)). split.
      + destruct g as [m [ar i y v kd aa at_]]. cbn in *. now subst.
      + apply (groupby_sum_In keyG _ keyG_eqb keyG_compare keyG_eqb_spec).
        split; [now apply Hk|]. now rewrite Hg. }
  destruct sub as [|s0 sub'] eqn:Es; [|exact Main].
  split; [intros []|]. intros [_ [[r [H1 [H2 _]]] _]].
  assert (In r sub) by (unfold sub; apply filter_In; rewrite mem_spec; auto).
  rewrite Es in H. destruct H.
Qed.

Lemma group_totals_NoDup (out : list Row) (members : list string) (label : string) :
  NoDup (List.map keyG (group_totals out members label)).
Proof.
  unfold group_totals.
  set (sub := filter (fun r => Str.mem (Area (body r)) members) out).
  assert (N : NoDup (List.map keyG
                       (List.map (row_of_keyG label)
                          (groupby_sum keyG (fun r => Value (body r)) keyG_eqb keyG_compare sub)))).
  { rewrite map_map.
    rewrite (map_ext _ fst)
      by (intros [[[[[[i y] m] kd] aa] at_] v]; reflexivity).
    apply groupby_sum_NoDup, keyG_eqb_spec. }
  destruct sub; [constructor | exact N].
Qed.

Lemma append_totals_In (out : list Row) (r : Row) :
  In r (append_totals out) <-> In r out \/ In r (List.concat (add_frames out)).
Proof.
  unfold append_totals. destruct (add_frames out) as [|f fs] eqn:E.
  - simpl. tauto.
  - cbn [is_empty]. rewrite In_sort_values. cbn [List.concat].
    rewrite in_app_iff. reflexivity.
Qed.

(** The group totals of any table. *)
Lemma region_totals_any (out : list Row) (members : list string) (label : string) :
  let present := areas_in out members in
  let region := List.concat (region_frames out members label) in
  (present = [] -> region = []) /\
  (forall g, In g region ->
     Area (body g) = label /\
     (exists r, In r out /\ In (Area (body r)) members /\ keyG r = keyG g) /\
     Value (body g) == sumQ (List.map (member_value out (keyG g)) present)) /\
  (forall r, In r out -> In (Area (body r)) members ->
     exists g, In g region /\ keyG g = keyG r) /\
  NoDup (List.map keyG region) /\
  (forall g A B, In g region -> present = [A; B] ->
     Value (body g)
     == member_value out (keyG g) A + member_value out (keyG g) B) /\
  (forall k a, (forall r, In r out -> Area (body r) = a -> keyG r <> k) ->
     member_value out k a == 0) /\
  (forall r, In r (append_totals out) <->
     In r out \/
     In r (List.concat
             (region_frames out EU "EU (group total)"
              ++ region_frames out EEA_PLUS_UK "EU/EEA+UK (group total)"
              ++ region_frames out EUROPE_WIDE "Europe (group total)"))).
Proof.
  cbv zeta.
  assert (R : List.concat (region_frames out members label)
              = if is_empty (areas_in out members) then []
                else group_totals out (areas_in out members) label).
  { unfold region_frames. fold (areas_in out members).
    destruct (is_empty (areas_in out members)); simpl; [|rewrite app_nil_r]; reflexivity. }
  assert (V : forall g, In g (List.concat (region_frames out members label)) ->
              Area (body g) = label /\
              (exists r, In r out /\ In (Area (body r)) members /\ keyG r = keyG g) /\
              Value (body g)
              == sumQ (List.map (member_value out (keyG g)) (areas_in out members))).
  { intros g Hg. rewrite R in Hg.
    destruct (is_empty (areas_in out members)); [destruct Hg|].
    apply group_totals_In in Hg. destruct Hg as [H1 [[r [H2 [H3 H4]]] H5]].
    split; [assumption|]. split.
    - exists r. apply areas_in_spec in H3. tauto.
    - rewrite H5. apply sum_by_area, areas_in_NoDup. }
  split; [|split; [|split; [|split; [|split; [|split]]]]].
  - intros H. rewrite R, H. reflexivity.
  - exact V.
  - intros r Hr Hm. rewrite R.
    assert (Ha : In (Area (body r)) (areas_in out members))
      by (apply areas_in_spec; split; [exists r|]; auto).
    destruct (areas_in out members) as [|a0 l] eqn:E; [destruct Ha|].
    cbn [is_empty]. rewrite <- E in *.
    exists (row_of_keyG label (keyG r,
              sumQ (List.map (fun r0 => Value (body r0))
                      (filter (fun r0 => Str.mem (Area (body r0)) (areas_in out members)
                                         && keyG_eqb (keyG r0) (keyG r)) out)))).
    assert (K : forall v, keyG (row_of_keyG label (keyG r, v)) = keyG r)
      by (intros v; destruct r as [m [ar i y v0 kd aa at_]]; reflexivity).
    split; [|apply K].
    apply group_totals_In. rewrite K. split; [|split].
    + destruct r as [m [ar i y v0 kd aa at_]]; reflexivity.
    + exists r. auto.
    + destruct r as [m [ar i y v0 kd aa at_]]; reflexivity.
  - rewrite R. destruct (is_empty (areas_in out members)); [constructor|].
    apply group_totals_NoDup.
  - intros g A B Hg E. destruct (V g Hg) as [_ [_ H]].
    rewrite H, E. cbn [List.map]. rewrite !sumQ_cons, sumQ_nil. ring.
  - intros k a H. unfold member_value.
    rewrite (proj2 (filter_nil_iff _ out)); [reflexivity|].
    intros r Hr. destruct (String.eqb (Area (body r)) a) eqn:E; [|reflexivity].
    apply String.eqb_eq in E. cbn [andb].
    destruct (keyG_eqb (keyG r) k) eqn:Ek; [|reflexivity].
    apply keyG_eqb_spec in Ek. exfalso. exact (H r Hr E Ek).
  - intros r. apply append_totals_In.
Qed.

(** ** The replacement of cattle in an item label *)

Lemma str_drop_length (ic : bool) (w s : string) :
  starts_with_lit ic w s = true ->
  (String.length s - String.length (str_drop (String.length w) s))%nat
  = String.length w.
Proof.
  revert s. induction w as [|c w IH]; intros s H.
  - simpl. lia.
  - destruct s as [|d s]; [discriminate|]. simpl in H.
    apply andb_true_iff in H. destruct H as [_ H]. specialize (IH s H).
    cbn [String.length str_drop].
    assert (String.length (str_drop (String.length w) s) <= String.length s)%nat.
    { clear. revert s. induction (String.length w) as [|n IHn]; intros [|e s]; simpl;
        try lia. specialize (IHn s). lia. }
    lia.
Qed.

(** One step of the replacement at a position outside a match. *)
Lemma sub_cattle_step (T : string) (prev : option ascii) (c : ascii) (s : string) :
  Re.sub_from true re_cattle T prev (String c s) 0 =
  if Str.startswith "cattle" (Str.lower (String c s))
  then (T ++ Re.sub_from true re_cattle T (Some c) s 5)%string
  else String c (Re.sub_from true re_cattle T (Some c) s 0).
Proof.
  cbn [Re.sub_from]. unfold re_cattle. rewrite match_here_lit.
  rewrite <- (starts_with_lit_ci "cattle").
  destruct (starts_with_lit true "cattle" (String c s)) eqn:E; [|reflexivity].
  now rewrite (str_drop_length true "cattle" (String c s) E).
Qed.

Lemma sub_from_prev (T : string) (p p' : option ascii) (s : string) (k : nat) :
  Re.sub_from true re_cattle T p s k = Re.sub_from true re_cattle T p' s k.
Proof.
  revert p p' k. induction s as [|c s IH]; intros p p' k; [reflexivity|].
  destruct k as [|k].
  - rewrite !sub_cattle_step. reflexivity.
  - cbn [Re.sub_from]. reflexivity.
Qed.

Lemma isin_tail_false (w : string) (c : ascii) (s : string) :
  Str.isin w (String c s) = false ->
  Str.startswith w (String c s) = false /\ Str.isin w s = false.
Proof. cbn [Str.isin]. apply orb_false_iff. Qed.

(** A label without cattle is left as it is. *)
Lemma sub_unchanged (T : string) (s : string) (prev : option ascii) :
  Str.isin "cattle" (Str.lower s) = false ->
  Re.sub_from true re_cattle T prev s 0 = s.
Proof.
  revert prev. induction s as [|c s IH]; intros prev H; [reflexivity|].
  rewrite sub_cattle_step.
  change (Str.lower (String c s)) with (String (Chr.lower c) (Str.lower s)) in *.
  apply isin_tail_false in H. destruct H as [H1 H2].
  rewrite H1, (IH _ H2). reflexivity.
Qed.

Lemma isin_refl_append (w x : string) : Str.isin w (w ++ x) = true.
Proof. apply occurs_isin. exists "", x. reflexivity. Qed.

Lemma isin_cons (w : string) (c : ascii) (s : string) :
  Str.isin w s = true -> Str.isin w (String c s) = true.
Proof. intros H. cbn [Str.isin]. rewrite H. apply orb_true_r. Qed.

(** A label with cattle, in any casing, holds the token afterwards. *)
Lemma sub_has_token (T : string) (s : string) (prev : option ascii) :
  Str.isin "cattle" (Str.lower s) = true ->
  Str.isin T (Re.sub_from true re_cattle T prev s 0) = true.
Proof.
  revert prev. induction s as [|c s IH]; intros prev H; [discriminate|].
  rewrite sub_cattle_step.
  change (Str.lower (String c s)) with (String (Chr.lower c) (Str.lower s)) in *.
  cbn [Str.isin] in H.
  destruct (Str.startswith "cattle" (String (Chr.lower c) (Str.lower s))).
  - apply isin_refl_append.
  - apply isin_cons, IH. exact H.
Qed.

(** The replaced text begins as the label does, up to the first cattle. *)
Lemma sub_startswith (T w : string) (s : string) (prev : option ascii) :
  Str.startswith "c" (Str.lower T) = true ->
  Str.isin "c" w = false ->
  Str.startswith w (Str.lower (Re.sub_from true re_cattle T prev s 0)) = true ->
  Str.startswith w (Str.lower s) = true.
Proof.
  intros HT. revert s prev. induction w as [|a w IH]; intros s prev Hw H; [reflexivity|].
  apply isin_tail_false in Hw. destruct Hw as [Hw1 Hw2].
  cbn [Str.startswith] in Hw1. rewrite andb_true_r in Hw1.
  destruct s as [|c s]; [discriminate|].
  rewrite sub_cattle_step in H.
  destruct (Str.startswith "cattle" (Str.lower (String c s))).
  - rewrite lower_append in H. destruct (Str.lower T) as [|t T']; [discriminate|].
    cbn [Str.startswith] in HT. rewrite andb_true_r in HT.
    apply Ascii.eqb_eq in HT. subst t.
    cbn [append Str.startswith] in H. apply andb_true_iff in H. destruct H as [H _].
    rewrite Ascii.eqb_sym, Hw1 in H. discriminate.
  - change (Str.lower (String c (Re.sub_from true re_cattle T (Some c) s 0)))
      with (String (Chr.lower c) (Str.lower (Re.sub_from true re_cattle T (Some c) s 0))) in H.
    change (Str.lower (String c s)) with (String (Chr.lower c) (Str.lower s)).
    cbn [Str.startswith] in *. apply andb_true_iff in H. destruct H as [H1 H2].
    rewrite H1. cbn [andb]. exact (IH s (Some c) Hw2 H2).
Qed.

Lemma isin_other_token (x : string) :
  Str.isin "dairy" ("cattle (other)" ++ x) = Str.isin "dairy" x.
Proof. reflexivity. Qed.

(** The replacement by the other-cattle token brings no dairy into a
    label. *)
Lemma sub_no_new_dairy (s : string) (k : nat) (prev : option ascii) :
  Str.isin "dairy" (Str.lower (Re.sub_from true re_cattle "Cattle (other)" prev s k)) = true ->
  Str.isin "dairy" (Str.lower s) = true.
Proof.
  revert k prev. induction s as [|c s IH]; intros k prev H; [discriminate|].
  change (Str.lower (String c s)) with (String (Chr.lower c) (Str.lower s)).
  destruct k as [|k].
  - rewrite sub_cattle_step in H.
    destruct (Str.startswith "cattle" (Str.lower (String c s))).
    + rewrite lower_append in H.
      change (Str.lower "Cattle (other)") with "cattle (other)" in H.
      rewrite isin_other_token in H. apply isin_cons. exact (IH _ _ H).
    + change (Str.lower (String c (Re.sub_from true re_cattle "Cattle (other)" (Some c) s 0)))
        with (String (Chr.lower c)
                (Str.lower (Re.sub_from true re_cattle "Cattle (other)" (Some c) s 0))) in H.
      cbn [Str.isin] in H. apply orb_true_iff in H. destruct H as [H|H].
      * cbn [Str.isin]. apply orb_true_iff. left.
        cbn [Str.startswith] in *. apply andb_true_iff in H. destruct H as [H1 H2].
        rewrite H1. cbn [andb].
        apply (sub_startswith "Cattle (other)" "airy" s (Some c)); auto.
      * apply isin_cons. exact (IH _ _ H).
  - cbn [Re.sub_from] in H. apply isin_cons. exact (IH _ _ H).
Qed.

Lemma sub_skip (T x post : string) (prev prev' : option ascii) :
  Re.sub_from true re_cattle T prev (x ++ post) (String.length x)
  = Re.sub_from true re_cattle T prev' post 0.
Proof.
  revert prev. induction x as [|c x IH]; intros prev.
  - apply sub_from_prev.
  - cbn [append String.length Re.sub_from]. apply IH.
Qed.

Lemma startswith_app_short (w u v : string) :
  (String.length w <= String.length u)%nat ->
  Str.startswith w (u ++ v) = Str.startswith w u.
Proof.
  revert u. induction w as [|a w IH]; intros u H; [reflexivity|].
  destruct u as [|b u]; simpl in H; [lia|].
  cbn [append Str.startswith]. rewrite IH by lia. reflexivity.
Qed.

(** The leftmost cattle of a label is replaced by the token, and the
    replacement goes on in what follows it. *)
Lemma sub_first (T pre m post : string) (prev : option ascii) :
  Str.lower m = "cattle" ->
  Str.isin "cattle" (Str.lower pre ++ "cattl") = false ->
  Re.sub_from true re_cattle T prev (pre ++ m ++ post) 0
  = (pre ++ T ++ Re.sub_from true re_cattle T None post 0)%string.
Proof.
  intros Hm. revert prev. induction pre as [|c pre IH]; intros prev H.
  - cbn [append]. destruct m as [|c m]; [discriminate|].
    cbn [append]. rewrite sub_cattle_step.
    change (String c (m ++ post)) with (String c m ++ post)%string.
    rewrite lower_append, Hm.
    change (Str.startswith "cattle" ("cattle" ++ Str.lower post)) with true.
    cbv iota. f_equal.
    assert (L : String.length m = 5%nat).
    { apply (f_equal String.length) in Hm. unfold Str.lower in Hm.
      rewrite map_length in Hm. simpl in Hm. lia. }
    rewrite <- L. apply sub_skip.
  - cbn [append]. rewrite sub_cattle_step.
    change (Str.lower (String c pre)) with (String (Chr.lower c) (Str.lower pre)) in H.
    cbn [append] in H. apply isin_tail_false in H. destruct H as [H1 H2].
    change (String c (pre ++ m ++ post)) with (String c pre ++ (m ++ post))%string.
    rewrite !lower_append, Hm.
    change ("cattle" ++ Str.lower post)%string
      with ("cattl" ++ ("e" ++ Str.lower post))%string.
    rewrite <- append_assoc.
    rewrite startswith_app_short
      by (rewrite append_length; unfold Str.lower; simpl; lia).
    change (Str.lower (String c pre)) with (String (Chr.lower c) (Str.lower pre)).
    cbn [append]. rewrite H1. f_equal. apply IH. exact H2.
Qed.

(** ** C5: the cattle split and the weights of its rows *)

Lemma looks_like_cattle_spec (name : string) :
  looks_like_cattle name = true <->
  occurs_ci "cattle" name \/ occurs_ci "bovine" name.
Proof.
  unfold looks_like_cattle, occurs_ci. cbv zeta.
  rewrite orb_true_iff, !occurs_isin. reflexivity.
Qed.

Lemma dairy_row_weight (f : Q) (r : Rec) :
  occurs_ci "cattle" (Item r) ->
  default_lsu_weight (Item (split_row f "Cattle (dairy)" r)) = 1.0%Q.
Proof.
  intros H. apply occurs_isin in H.
  change (Str.lower "cattle") with "cattle" in H.
  assert (O : occurs "cattle (dairy)"
                (Str.lower (Re.sub true re_cattle "Cattle (dairy)" (Item r)))).
  { apply (occurs_lower "Cattle (dairy)"), occurs_isin, sub_has_token, H. }
  assert (D : Str.isin "dairy" (Str.lower (Re.sub true re_cattle "Cattle (dairy)" (Item r))) = true).
  { apply occurs_isin. apply (occurs_trans _ "cattle (dairy)"); [|exact O].
    apply occurs_isin. reflexivity. }
  assert (C : Str.isin "cattle" (Str.lower (Re.sub true re_cattle "Cattle (dairy)" (Item r))) = true).
  { apply occurs_isin. apply (occurs_trans _ "cattle (dairy)"); [|exact O].
    apply occurs_isin. reflexivity. }
  unfold default_lsu_weight. cbn [split_row Item]. cbv zeta.
  now rewrite D, C.
Qed.

Lemma other_row_weight (f : Q) (r : Rec) :
  occurs_ci "cattle" (Item r) -> ~ occurs_ci "dairy" (Item r) ->
  default_lsu_weight (Item (split_row f "Cattle (other)" r)) = 0.8%Q.
Proof.
  intros H Hd. apply occurs_isin in H.
  change (Str.lower "cattle") with "cattle" in H.
  assert (O : occurs "cattle (other)"
                (Str.lower (Re.sub true re_cattle "Cattle (other)" (Item r)))).
  { apply (occurs_lower "Cattle (other)"), occurs_isin, sub_has_token, H. }
  assert (C : Str.isin "cattle" (Str.lower (Re.sub true re_cattle "Cattle (other)" (Item r))) = true).
  { apply occurs_isin. apply (occurs_trans _ "cattle (other)"); [|exact O].
    apply occurs_isin. reflexivity. }
  assert (D : Str.isin "dairy" (Str.lower (Re.sub true re_cattle "Cattle (other)" (Item r))) = false).
  { destruct (Str.isin "dairy" (Str.lower (Re.sub true re_cattle "Cattle (other)" (Item r)))) eqn:E;
      [|reflexivity].
    exfalso. apply Hd. apply occurs_isin. exact (sub_no_new_dairy _ _ _ E). }
  unfold default_lsu_weight. cbn [split_row Item]. cbv zeta.
  now rewrite D, C.
Qed.

(** C5, as stated, fails: the dairy row of a bovine label without cattle
    keeps the label and weighs 0.8, and the other row of a cattle label
    that mentions dairy weighs 1.0. *)
Lemma cattle_split_counterexample :
  let dairy := split_row 0.35 "Cattle (dairy)" in
  let other := split_row 0.65 "Cattle (other)" in
  let bovine := mkRec "France" "Bovine animals" 2020 100 atomic false true in
  let dairy_cattle := mkRec "France" "Cattle, dairy" 2020 1000 atomic false true in
  (looks_like_cattle (Item bovine) = true /\
   Item (dairy bovine) = "Bovine animals" /\
   default_lsu_weight (Item (dairy bovine)) == 0.8 /\
   ~ default_lsu_weight (Item (dairy bovine)) == 1.0) /\
  (looks_like_cattle (Item dairy_cattle) = true /\
   Item (other dairy_cattle) = "Cattle (other), dairy" /\
   default_lsu_weight (Item (other dairy_cattle)) == 1.0 /\
   ~ default_lsu_weight (Item (other dairy_cattle)) == 0.8).
Proof. cbv zeta. repeat split; try reflexivity; intros H; discriminate H. Qed.

(** C5, amended. With the split enabled the stocks frame that enters the
    LSU computation is the rows that are neither cattle nor bovine,
    unchanged, then a dairy row and an other row for each cattle or bovine
    row.  The two rows keep area and year, are of atomic kind, and carry the
    label with every cattle (any casing) replaced by the token: a label
    without cattle is unchanged, and the leftmost cattle of a label becomes
    the token, the rest being replaced in the same way.  The weights are
    looked up on the labels after the split: for a label that contains
    cattle the dairy row weighs 1.0, and the other row weighs 0.8 when the
    label does not mention dairy. *)
Theorem cattle_split_rows (a : Args) (long : list LongRow) :
  flag (split_cattle a) = true ->
  let f := dairy_frac_of (dairy_share a) in
  let stocks := select Stocks long in
  let cattle := filter (fun r => looks_like_cattle (Item r)) stocks in
  let dairy := split_row f "Cattle (dairy)" in
  let other := split_row (1.0 - f) "Cattle (other)" in
  post_split a long =
    filter (fun r => negb (looks_like_cattle (Item r))) stocks
    ++ List.map dairy cattle ++ List.map other cattle /\
  frame a long M_LSU = lsu_frame (post_split a long) /\
  (forall name, looks_like_cattle name = true <->
                occurs_ci "cattle" name \/ occurs_ci "bovine" name) /\
  (forall r,
      Item (dairy r) = Re.sub true re_cattle "Cattle (dairy)" (Item r) /\
      Item (other r) = Re.sub true re_cattle "Cattle (other)" (Item r) /\
      (Area (dairy r), Year (dairy r)) = (Area r, Year r) /\
      (Area (other r), Year (other r)) = (Area r, Year r) /\
      (kind (dairy r), is_atomic (dairy r), is_all_animals (dairy r))
      = (atomic, true, false) /\
      (kind (other r), is_atomic (other r), is_all_animals (other r))
      = (atomic, true, false)) /\
  (forall T s, ~ occurs_ci "cattle" s -> Re.sub true re_cattle T s = s) /\
  (forall T pre m post,
      Str.lower m = "cattle" ->
      ~ occurs "cattle" (Str.lower pre ++ "cattl") ->
      Re.sub true re_cattle T (pre ++ m ++ post)
      = (pre ++ T ++ Re.sub true re_cattle T post)%string) /\
  (forall r, occurs_ci "cattle" (Item r) ->
      default_lsu_weight (Item (dairy r)) = 1.0%Q) /\
  (forall r, occurs_ci "cattle" (Item r) -> ~ occurs_ci "dairy" (Item r) ->
      default_lsu_weight (Item (other r)) = 0.8%Q).
Proof.
  intros Hf. cbv zeta.
  split; [unfold post_split; rewrite Hf; apply cattle_split_true|].
  split; [reflexivity|].
  split; [exact looks_like_cattle_spec|].
  split; [intros r; repeat split|].
  split.
  { intros T s H. apply sub_unchanged.
    destruct (Str.isin "cattle" (Str.lower s)) eqn:E; [|reflexivity].
    exfalso. apply H, occurs_isin, E. }
  split.
  { intros T pre m post Hm H. apply sub_first; [assumption|].
    destruct (Str.isin "cattle" (Str.lower pre ++ "cattl")) eqn:E; [|reflexivity].
    exfalso. apply H, occurs_isin, E. }
  split; [intros r; apply dairy_row_weight | intros r; apply other_row_weight].
Qed.

Lemma cattle_split_rows_witness :
  let a := default_args in
  let long := sample_long in
  let f := dairy_frac_of (dairy_share a) in
  let stocks := select Stocks long in
  let cattle := filter (fun r => looks_like_cattle (Item r)) stocks in
  let dairy := split_row f "Cattle (dairy)" in
  let other := split_row (1.0 - f) "Cattle (other)" in
  post_split a long =
    filter (fun r => negb (looks_like_cattle (Item r))) stocks
    ++ List.map dairy cattle ++ List.map other cattle /\
  frame a long M_LSU = lsu_frame (post_split a long) /\
  (forall name, looks_like_cattle name = true <->
                occurs_ci "cattle" name \/ occurs_ci "bovine" name) /\
  (forall r,
      Item (dairy r) = Re.sub true re_cattle "Cattle (dairy)" (Item r) /\
      Item (other r) = Re.sub true re_cattle "Cattle (other)" (Item r) /\
      (Area (dairy r), Year (dairy r)) = (Area r, Year r) /\
      (Area (other r), Year (other r)) = (Area r, Year r) /\
      (kind (dairy r), is_atomic (dairy r), is_all_animals (dairy r))
      = (atomic, true, false) /\
      (kind (other r), is_atomic (other r), is_all_animals (other r))
      = (atomic, true, false)) /\
  (forall T s, ~ occurs_ci "cattle" s -> Re.sub true re_cattle T s = s) /\
  (forall T pre m post,
      Str.lower m = "cattle" ->
      ~ occurs "cattle" (Str.lower pre ++ "cattl") ->
      Re.sub true re_cattle T (pre ++ m ++ post)
      = (pre ++ T ++ Re.sub true re_cattle T post)%string) /\
  (forall r, occurs_ci "cattle" (Item r) ->
      default_lsu_weight (Item (dairy r)) = 1.0%Q) /\
  (forall r, occurs_ci "cattle" (Item r) -> ~ occurs_ci "dairy" (Item r) ->
      default_lsu_weight (Item (other r)) = 0.8%Q).
Proof.
  apply (cattle_split_rows default_args sample_long). reflexivity.
Defined.

(** ** C10: stocks and LSU rows are not collapsed *)

Lemma sub_keeps_cattle (T s : string) :
  Str.isin "cattle" (Str.lower T) = true ->
  looks_like_cattle s = true ->
  looks_like_cattle (Re.sub true re_cattle T s) = true.
Proof.
  intros HT H. unfold looks_like_cattle in *. cbv zeta in *.
  destruct (Str.isin "cattle" (Str.lower s)) eqn:E.
  - apply orb_true_iff. left. apply occurs_isin.
    apply (occurs_trans _ (Str.lower T)); [now apply occurs_isin|].
    apply occurs_lower, occurs_isin, sub_has_token, E.
  - unfold Re.sub. rewrite (sub_unchanged T s None E), E. exact H.
Qed.

Lemma lsu_frame_at (sb : list Rec) (a i : string) (y : Z) :
  filter (rec_at a i y) (lsu_frame sb) = lsu_frame (filter (rec_at a i y) sb).
Proof. unfold lsu_frame. now rewrite filter_map_comm. Qed.

(** Under a key whose item is neither cattle nor bovine, the split frame
    holds the stocks rows of the key. *)
Lemma cattle_split_at (b : bool) (f : Q) (sb : list Rec) (a i : string) (y : Z) :
  b = false \/ looks_like_cattle i = false ->
  filter (rec_at a i y) (cattle_split b f sb) = filter (rec_at a i y) sb.
Proof.
  intros H. destruct b; [|reflexivity].
  destruct H as [H|H]; [discriminate|].
  rewrite cattle_split_true, !filter_app, !filter_map_comm, !filter_filter.
  assert (E1 : filter (fun x => negb (looks_like_cattle (Item x)) && rec_at a i y x) sb
               = filter (rec_at a i y) sb).
  { apply filter_ext. intros r. destruct (rec_at a i y r) eqn:E.
    - apply rec_at_spec in E. destruct E as [_ [E _]]. now rewrite E, H.
    - apply andb_false_r. }
  assert (E2 : forall frac T, Str.isin "cattle" (Str.lower T) = true ->
               filter (fun x => looks_like_cattle (Item x)
                                && rec_at a i y (split_row frac T x)) sb = []).
  { intros frac T HT. apply filter_nil_iff. intros r _.
    destruct (looks_like_cattle (Item r)) eqn:C; [|reflexivity].
    destruct (rec_at a i y (split_row frac T r)) eqn:E; [|reflexivity].
    apply rec_at_spec in E. destruct E as [_ [E _]]. cbn [split_row Item] in E.
    rewrite <- E, (sub_keeps_cattle T (Item r) HT C) in H. discriminate. }
  rewrite E1, !E2 by reflexivity. simpl. now rewrite app_nil_r.
Qed.

Lemma melt_count (year_cols : list string) (df : list (RawRow * ElementNorm))
    (n : ElementNorm) (a i : string) (y : Z) :
  List.length (raw_values n a i y (melt year_cols df))
  = (List.length (filter (fun c => Z.eqb (Str.int (Str.tail c)) y) year_cols)
     * List.length
         (filter (fun rn : RawRow * ElementNorm =>
                    norm_eqb (snd rn) n && String.eqb (raw_Area (fst rn)) a
                    && String.eqb (raw_Item (fst rn)) i) df))%nat.
Proof.
  unfold raw_values, melt. rewrite length_map.
  induction year_cols as [|c ycs IH]; [reflexivity|].
  cbn [flat_map filter]. rewrite filter_app, length_app, IH.
  rewrite filter_map_comm, length_map.
  destruct (Z.eqb (Str.int (Str.tail c)) y) eqn:E.
  - cbn [List.length Nat.mul]. f_equal. f_equal. apply filter_ext. intros [r m].
    unfold long_at. cbn. now rewrite E, andb_true_r.
  - rewrite (proj2 (filter_nil_iff _ df)); [reflexivity|].
    intros [r m] _. unfold long_at. cbn. now rewrite E, andb_false_r.
Qed.

(** C10, as stated, fails: two raw stocks rows for France and Cattle give,
    with the default arguments, two Stocks rows under that key and no LSU
    row there; the four LSU rows lie under the two replaced labels. *)
Lemma duplicate_stocks_counterexample :
  main default_args dup_cattle_df = inr dup_cattle_out /\
  List.length (rows_at dup_cattle_out M_Stocks "France" "Cattle" 2020) = 2%nat /\
  rows_at dup_cattle_out M_LSU "France" "Cattle" 2020 = [] /\
  List.length (rows_at dup_cattle_out M_LSU "France" "Cattle (dairy)" 2020) = 2%nat /\
  List.length (rows_at dup_cattle_out M_LSU "France" "Cattle (other)" 2020) = 2%nat.
Proof. repeat split; vm_compute; reflexivity. Qed.

(** A gas metric holds one row under a key, with the sum of the scaled
    values, when the long table records values there, and none otherwise. *)
Lemma gas_rows_sum (a : Args) (long : list LongRow) (ar i : string) (y : Z) :
  Forall long_ok long ->
  let out := per_country (prepared a long) in
  let collapsed n m factor :=
    (raw_values n ar i y long = [] -> rows_at out m ar i y = []) /\
    (raw_values n ar i y long <> [] ->
     exists r, rows_at out m ar i y = [r] /\
               Value (body r)
               == sumQ (List.map (fun v => v * factor) (raw_values n ar i y long))) in
  collapsed CH4 M_CH4_CO2e (fst (gwp_pair (gwp a))) /\
  collapsed N2O M_N2O_CO2e (snd (gwp_pair (gwp a))).
Proof.
  intros Hok. cbv zeta.
  destruct (gas_rows_at a long ar i y Hok) as [Ec [En _]].
  assert (C : forall n m factor,
             rows_at (per_country (prepared a long)) m ar i y =
               match filter (rec_at ar i y) (scaled factor (select n long)) with
               | [] => []
               | _ => [mkRow m (rec_of_key6
                                  (full_key ar i y,
                                   sumQ (List.map Value
                                           (filter (rec_at ar i y)
                                              (scaled factor (select n long))))))]
               end ->
             (raw_values n ar i y long = [] ->
              rows_at (per_country (prepared a long)) m ar i y = []) /\
             (raw_values n ar i y long <> [] ->
              exists r, rows_at (per_country (prepared a long)) m ar i y = [r] /\
                        Value (body r)
                        == sumQ (List.map (fun v => v * factor)
                                   (raw_values n ar i y long)))).
  { intros n m factor E. rewrite raw_values_nil, <- (scaled_at_nil factor).
    rewrite E. split.
    - intros ->. reflexivity.
    - intros H.
      destruct (filter (rec_at ar i y) (scaled factor (select n long))) eqn:Ef;
        [contradiction|].
      eexists. split; [reflexivity|].
      cbn [body Value rec_of_key6 full_key].
      rewrite <- Ef, scaled_at, select_at. reflexivity. }
  split; now apply C.
Qed.

Lemma filter_length_split {A : Type} (p : A -> bool) (l : list A) :
  List.length l
  = (List.length (filter (fun x => negb (p x)) l) + List.length (filter p l))%nat.
Proof.
  induction l as [|x l IH]; [reflexivity|]. cbn [filter].
  destruct (p x); cbn [negb List.length]; lia.
Qed.

(** C10, amended. Under every area, item and year the per-country table
    holds as many Stocks rows as the long table records stocks values
    there: one for each year column of that year and each table row of
    that area and item with a stocks element.  When the split is disabled
    or the item is neither cattle nor bovine it holds as many LSU rows
    there, with the stocks values each multiplied by the weight of the
    item; in every case the LSU frame has one row for each row of the
    stocks frame after the split, none summed.  With the split enabled
    the LSU frame has one row for each stocks row that is neither cattle
    nor bovine and two for each that is; the LSU rows under a key are the
    rows of the split frame under that key, each times the weight of its
    label: the stocks rows of that label that are not cattle, the dairy
    rows and the other rows whose replaced label it is; and every cattle
    or bovine stocks row has its dairy row and its other row among the LSU
    rows of the table, under the two replaced labels.  A gas metric is
    collapsed: the table holds one CH4_CO2e row (N2O_CO2e row) under the
    key when the long table records CH4 (N2O) values there, with the sum
    of these values each times the factor, and none otherwise. *)
Theorem stocks_rows_not_collapsed (a : Args) (df : DataFrame) (long : list LongRow)
    (ar i : string) (y : Z) :
  to_long a df = inr long ->
  let out := per_country (prepared a long) in
  let stocks := raw_values Stocks ar i y long in
  List.length (rows_at out M_Stocks ar i y) = List.length stocks /\
  Permutation (List.map (fun r => Value (body r)) (rows_at out M_Stocks ar i y)) stocks /\
  (flag (split_cattle a) = false \/ looks_like_cattle i = false ->
   List.length (rows_at out M_LSU ar i y) = List.length stocks /\
   Permutation (List.map (fun r => Value (body r)) (rows_at out M_LSU ar i y))
     (List.map (fun v => v * default_lsu_weight i)%Q stocks)) /\
  List.length (frame a long M_LSU) = List.length (post_split a long) /\
  (List.length (rows_at out M_CH4_CO2e ar i y) <= 1)%nat /\
  (List.length (rows_at out M_N2O_CO2e ar i y) <= 1)%nat /\
  (forall year_cols t n,
      List.length (raw_values n ar i y (melt year_cols t))
      = (List.length (filter (fun c => Z.eqb (Str.int (Str.tail c)) y) year_cols)
         * List.length
             (filter (fun rn : RawRow * ElementNorm =>
                        norm_eqb (snd rn) n && String.eqb (raw_Area (fst rn)) ar
                        && String.eqb (raw_Item (fst rn)) i) t))%nat) /\
  (let collapsed n m factor :=
     (raw_values n ar i y long = [] -> rows_at out m ar i y = []) /\
     (raw_values n ar i y long <> [] ->
      exists r, rows_at out m ar i y = [r] /\
                Value (body r)
                == sumQ (List.map (fun v => v * factor) (raw_values n ar i y long))) in
   collapsed CH4 M_CH4_CO2e (fst (gwp_pair (gwp a))) /\
   collapsed N2O M_N2O_CO2e (snd (gwp_pair (gwp a)))) /\
  (flag (split_cattle a) = true ->
   let f := dairy_frac_of (dairy_share a) in
   let dairy := split_row f "Cattle (dairy)" in
   let other := split_row (1.0 - f) "Cattle (other)" in
   let frame_stocks := select Stocks long in
   let cattle := filter (fun r => looks_like_cattle (Item r)) frame_stocks in
   let non_cattle := filter (fun r => negb (looks_like_cattle (Item r))) frame_stocks in
   List.length (frame a long M_LSU)
   = (List.length non_cattle + 2 * List.length cattle)%nat /\
   List.length frame_stocks = (List.length non_cattle + List.length cattle)%nat /\
   Permutation (List.map body (rows_at out M_LSU ar i y))
     (lsu_frame
        (filter (rec_at ar i y) non_cattle
         ++ List.map dairy (filter (fun r => rec_at ar i y (dairy r)) cattle)
         ++ List.map other (filter (fun r => rec_at ar i y (other r)) cattle))) /\
   (forall r, In r cattle ->
      let D := Re.sub true re_cattle "Cattle (dairy)" (Item r) in
      let O := Re.sub true re_cattle "Cattle (other)" (Item r) in
      In (mkRow M_LSU
            (mkRec (Area r) D (Year r) (Value r * f * default_lsu_weight D)
               atomic false true)) out /\
      In (mkRow M_LSU
            (mkRec (Area r) O (Year r) (Value r * (1.0 - f) * default_lsu_weight O)
               atomic false true)) out)).
Proof.
  intros Hl. cbv zeta.
  assert (PS := rows_at_perm a long M_Stocks ar i y).
  assert (PL := rows_at_perm a long M_LSU ar i y).
  assert (VS : Permutation
                 (List.map (fun r => Value (body r))
                    (rows_at (per_country (prepared a long)) M_Stocks ar i y))
                 (raw_values Stocks ar i y long)).
  { rewrite <- select_at.
    eapply perm_trans; [apply Permutation_map, PS|].
    unfold with_metric. rewrite map_map. apply Permutation_refl. }
  split; [|split; [exact VS|split; [|split; [|split; [|split; [|split; [|split]]]]]]].
  - rewrite <- (length_map (fun r => Value (body r))).
    apply Permutation_length, VS.
  - intros H.
    assert (VL : Permutation
                   (List.map (fun r => Value (body r))
                      (rows_at (per_country (prepared a long)) M_LSU ar i y))
                   (List.map (fun v => (v * default_lsu_weight i)%Q)
                      (raw_values Stocks ar i y long))).
    { eapply perm_trans; [apply Permutation_map, PL|].
      unfold with_metric. rewrite map_map. cbn [body frame].
      rewrite lsu_frame_at. unfold post_split.
      rewrite (cattle_split_at _ _ _ ar i y H).
      rewrite <- select_at. unfold lsu_frame. rewrite !map_map.
      rewrite (map_ext_in _ (fun r => (Value r * default_lsu_weight i)%Q)).
      - apply Permutation_refl.
      - intros r Hr. apply filter_In in Hr. destruct Hr as [_ Hr].
        apply rec_at_spec in Hr. destruct Hr as [_ [-> _]]. reflexivity. }
    split; [|exact VL].
    rewrite <- (length_map (fun r => Value (body r))).
    rewrite (Permutation_length VL). apply length_map.
  - unfold frame, lsu_frame. apply length_map.
  - destruct (gas_rows_at a long ar i y (to_long_ok a df long Hl)) as [Ec _].
    rewrite Ec. destruct (filter _ (scaled _ (select CH4 long))); simpl; lia.
  - destruct (gas_rows_at a long ar i y (to_long_ok a df long Hl)) as [_ [En _]].
    rewrite En. destruct (filter _ (scaled _ (select N2O long))); simpl; lia.
  - intros ycs t n. apply melt_count.
  - exact (gas_rows_sum a long ar i y (to_long_ok a df long Hl)).
  - intros Hf.
    assert (E : post_split a long
                = filter (fun r => negb (looks_like_cattle (Item r))) (select Stocks long)
                  ++ List.map (split_row (dairy_frac_of (dairy_share a)) "Cattle (dairy)")
                       (filter (fun r => looks_like_cattle (Item r)) (select Stocks long))
                  ++ List.map (split_row (1.0 - dairy_frac_of (dairy_share a))
                                 "Cattle (other)")
                       (filter (fun r => looks_like_cattle (Item r)) (select Stocks long)))
      by (unfold post_split; rewrite Hf; apply cattle_split_true).
    split; [|split; [|split]].
    + unfold frame, lsu_frame. rewrite length_map, E, !length_app, !length_map. lia.
    + apply filter_length_split.
    + eapply perm_trans; [apply Permutation_map, PL|].
      unfold with_metric. rewrite map_map. cbn [body]. rewrite map_id.
      cbn [frame]. rewrite lsu_frame_at, E, !filter_app, !filter_map_comm.
      apply Permutation_refl.
    + intros r Hr. split; apply per_country_In; cbn [Metric body frame];
        unfold lsu_frame; rewrite E; apply in_map_iff.
      * exists (split_row (dairy_frac_of (dairy_share a)) "Cattle (dairy)" r).
        split; [reflexivity|]. apply in_or_app. right. apply in_or_app. left.
        now apply in_map.
      * exists (split_row (1.0 - dairy_frac_of (dairy_share a)) "Cattle (other)" r).
        split; [reflexivity|]. apply in_or_app. right. apply in_or_app. right.
        now apply in_map.
Qed.

Lemma stocks_rows_not_collapsed_witness :
  let a := default_args in
  let long := sample_long in
  let ar := "Germany" in
  let i := "Sheep" in
  let y := 2020%Z in
  let out := per_country (prepared a long) in
  let stocks := raw_values Stocks ar i y long in
  List.length (rows_at out M_Stocks ar i y) = List.length stocks /\
  Permutation (List.map (fun r => Value (body r)) (rows_at out M_Stocks ar i y)) stocks /\
  (flag (split_cattle a) = false \/ looks_like_cattle i = false ->
   List.length (rows_at out M_LSU ar i y) = List.length stocks /\
   Permutation (List.map (fun r => Value (body r)) (rows_at out M_LSU ar i y))
     (List.map (fun v => v * default_lsu_weight i)%Q stocks)) /\
  List.length (frame a long M_LSU) = List.length (post_split a long) /\
  (List.length (rows_at out M_CH4_CO2e ar i y) <= 1)%nat /\
  (List.length (rows_at out M_N2O_CO2e ar i y) <= 1)%nat /\
  (forall year_cols t n,
      List.length (raw_values n ar i y (melt year_cols t))
      = (List.length (filter (fun c => Z.eqb (Str.int (Str.tail c)) y) year_cols)
         * List.length
             (filter (fun rn : RawRow * ElementNorm =>
                        norm_eqb (snd rn) n && String.eqb (raw_Area (fst rn)) ar
                        && String.eqb (raw_Item (fst rn)) i) t))%nat) /\
  (let collapsed n m factor :=
     (raw_values n ar i y long = [] -> rows_at out m ar i y = []) /\
     (raw_values n ar i y long <> [] ->
      exists r, rows_at out m ar i y = [r] /\
                Value (body r)
                == sumQ (List.map (fun v => v * factor) (raw_values n ar i y long))) in
   collapsed CH4 M_CH4_CO2e (fst (gwp_pair (gwp a))) /\
   collapsed N2O M_N2O_CO2e (snd (gwp_pair (gwp a)))) /\
  (flag (split_cattle a) = true ->
   let f := dairy_frac_of (dairy_share a) in
   let dairy := split_row f "Cattle (dairy)" in
   let other := split_row (1.0 - f) "Cattle (other)" in
   let frame_stocks := select Stocks long in
   let cattle := filter (fun r => looks_like_cattle (Item r)) frame_stocks in
   let non_cattle := filter (fun r => negb (looks_like_cattle (Item r))) frame_stocks in
   List.length (frame a long M_LSU)
   = (List.length non_cattle + 2 * List.length cattle)%nat /\
   List.length frame_stocks = (List.length non_cattle + List.length cattle)%nat /\
   Permutation (List.map body (rows_at out M_LSU ar i y))
     (lsu_frame
        (filter (rec_at ar i y) non_cattle
         ++ List.map dairy (filter (fun r => rec_at ar i y (dairy r)) cattle)
         ++ List.map other (filter (fun r => rec_at ar i y (other r)) cattle))) /\
   (forall r, In r cattle ->
      let D := Re.sub true re_cattle "Cattle (dairy)" (Item r) in
      let O := Re.sub true re_cattle "Cattle (other)" (Item r) in
      In (mkRow M_LSU
            (mkRec (Area r) D (Year r) (Value r * f * default_lsu_weight D)
               atomic false true)) out /\
      In (mkRow M_LSU
            (mkRec (Area r) O (Year r) (Value r * (1.0 - f) * default_lsu_weight O)
               atomic false true)) out)).
Proof.
  apply (stocks_rows_not_collapsed default_args sample_df sample_long
           "Germany" "Sheep" 2020).
  vm_compute. reflexivity.
Defined.

(** ** The matcher and case *)

Lemma at_end_lower (s : string) : Re.at_end (Str.lower s) = Re.at_end s.
Proof.
  destruct s as [|c [|d s]]; try reflexivity.
  cbn. all_chars c.
Qed.

Lemma is_word_opt_lower (p : option ascii) :
  Re.is_word_opt (option_map Chr.lower p) = Re.is_word_opt p.
Proof. destruct p; [apply is_word_lower | reflexivity]. Qed.

Lemma head_lower (s : string) :
  Str.head (Str.lower s) = option_map Chr.lower (Str.head s).
Proof. now destruct s. Qed.

Lemma is_some_or {A : Type} (x y : option A) :
  is_some (match x with Some t => Some t | None => y end) = is_some x || is_some y.
Proof. now destruct x. Qed.

(** With [re.I], matching the lower-cased subject is matching the
    subject. *)
Lemma rmatch_lower (r : Re.regex) :
  forall (p : option ascii) (t : string) (k k' : option ascii -> string -> option string),
    (forall q u, is_some (k (option_map Chr.lower q) (Str.lower u)) = is_some (k' q u)) ->
    is_some (Re.rmatch true r (option_map Chr.lower p) (Str.lower t) k)
    = is_some (Re.rmatch true r p t k').
Proof.
  induction r as [|c|a IHa b IHb|a IHa b IHb|a IHa| | |]; intros p t k k' H;
    cbn [Re.rmatch].
  - apply H.
  - destruct t as [|d t]; [reflexivity|].
    change (Str.lower (String d t)) with (String (Chr.lower d) (Str.lower t)).
    unfold Re.chr_eq. rewrite lower_idem.
    destruct (Ascii.eqb (Chr.lower c) (Chr.lower d)); [|reflexivity].
    apply (H (Some d) t).
  - apply IHa. intros q u. apply IHb, H.
  - rewrite !is_some_or. now rewrite (IHa p t k k' H), (IHb p t k k' H).
  - rewrite !is_some_or. now rewrite (IHa p t k k' H), H.
  - destruct p; [reflexivity | apply (H None t)].
  - rewrite at_end_lower. destruct (Re.at_end t); [apply H | reflexivity].
  - rewrite head_lower, !is_word_opt_lower.
    destruct (xorb _ _); [apply H | reflexivity].
Qed.

Lemma search_from_unfold (ic : bool) (r : Re.regex) (p : option ascii) (s : string) :
  Re.search_from ic r p s =
  is_some (Re.match_here ic r p s)
  || match s with
     | EmptyString => false
     | String c s' => Re.search_from ic r (Some c) s'
     end.
Proof. destruct s; cbn [Re.search_from]; now destruct (Re.match_here ic r p _). Qed.

Lemma search_from_lower (r : Re.regex) (p : option ascii) (s : string) :
  Re.search_from true r (option_map Chr.lower p) (Str.lower s)
  = Re.search_from true r p s.
Proof.
  revert p. induction s as [|c s IH]; intros p;
    rewrite (search_from_unfold true r p), search_from_unfold; unfold Re.match_here;
    rewrite (rmatch_lower r p _ Re.accept Re.accept (fun _ _ => eq_refl)).
  - reflexivity.
  - change (Str.lower (String c s)) with (String (Chr.lower c) (Str.lower s)).
    cbv iota. f_equal. apply (IH (Some c)).
Qed.

Lemma search_lower (r : Re.regex) (s : string) :
  Re.search true r (Str.lower s) = Re.search true r s.
Proof. apply (search_from_lower r None s). Qed.

(** [re.search] finds a match exactly when the pattern matches at some
    split of the subject. *)
Lemma search_from_true (ic : bool) (r : Re.regex) (prev : option ascii) (s : string) :
  Re.search_from ic r prev s = true <->
  exists pre post, s = (pre ++ post)%string /\
                   is_some (Re.match_here ic r (Str.last prev pre) post) = true.
Proof.
  revert prev. induction s as [|c s IH]; intros prev; cbn [Re.search_from].
  - split.
    + intros H. exists "", "". split; [reflexivity|]. cbn [Str.last].
      destruct (Re.match_here ic r prev ""); [reflexivity | discriminate].
    + intros [pre [post [E H]]]. destruct pre; [|discriminate].
      simpl in E. subst post. cbn [Str.last] in H.
      destruct (Re.match_here ic r prev ""); [reflexivity | discriminate].
  - destruct (Re.match_here ic r prev (String c s)) eqn:M.
    + split; [|reflexivity]. intros _. exists "", (String c s).
      split; [reflexivity|]. cbn [Str.last]. now rewrite M.
    + rewrite IH. split.
      * intros [pre [post [-> H]]]. exists (String c pre), post. auto.
      * intros [pre [post [E H]]]. destruct pre as [|d pre].
        -- simpl in E. subst post. cbn [Str.last] in H. rewrite M in H. discriminate.
        -- inversion E; subst. exists pre, post. auto.
Qed.

(** ** Whole-word patterns *)

Lemma chr_eq_word (c d : ascii) :
  Re.chr_eq true c d = true -> Chr.is_word d = Chr.is_word c.
Proof.
  unfold Re.chr_eq. intros H. apply Ascii.eqb_eq in H.
  now rewrite <- (is_word_lower d), <- H, is_word_lower.
Qed.

Lemma starts_last_word (w t : string) (p : option ascii) :
  starts_with_lit true w t = true -> all_word w = true ->
  w <> "" \/ Re.is_word_opt p = true ->
  Re.is_word_opt (Str.last p (str_take (String.length w) t)) = true.
Proof.
  revert t p. induction w as [|c w IH]; intros t p S A H.
  - destruct H as [H|H]; [congruence|]. now destruct t.
  - destruct t as [|d t]; [discriminate|].
    cbn [starts_with_lit all_word] in S, A.
    apply andb_true_iff in S. destruct S as [S1 S2].
    apply andb_true_iff in A. destruct A as [A1 A2].
    cbn [String.length str_take Str.last]. apply IH; try assumption.
    right. cbn. now rewrite (chr_eq_word c d S1).
Qed.

Lemma starts_head_word (w t : string) :
  starts_with_lit true w t = true -> all_word w = true -> w <> "" ->
  Re.is_word_opt (Str.head t) = true.
Proof.
  intros S A H. destruct w as [|c w]; [congruence|].
  destruct t as [|d t]; [discriminate|].
  cbn [starts_with_lit all_word] in S, A.
  apply andb_true_iff in S. destruct S as [S1 _].
  apply andb_true_iff in A. destruct A as [A1 _].
  cbn. now rewrite (chr_eq_word c d S1).
Qed.

Lemma word_text_spec (w : string) :
  word_text w = true -> all_word w = true /\ w <> "" /\ Str.lower w = w.
Proof.
  unfold word_text. rewrite !andb_true_iff, negb_true_iff, String.eqb_neq, String.eqb_eq.
  tauto.
Qed.

Lemma match_lit_wordb (w : string) (p : option ascii) (t : string) :
  word_text w = true ->
  is_some (Re.rmatch true (Re.lit w) p t
             (fun q u => Re.rmatch true Re.WordB q u Re.accept))
  = word_here w t.
Proof.
  intros W. apply word_text_spec in W. destruct W as [A [N _]].
  rewrite rmatch_lit. unfold word_here.
  destruct (starts_with_lit true w t) eqn:S; [|reflexivity].
  cbn [Re.rmatch andb]. rewrite (starts_last_word w t p S A (or_introl N)).
  now destruct (Re.is_word_opt (Str.head (str_drop (String.length w) t))).
Qed.

Lemma word_here_head (w t : string) :
  word_text w = true -> word_here w t = true -> Re.is_word_opt (Str.head t) = true.
Proof.
  intros W H. apply word_text_spec in W. destruct W as [A [N _]].
  unfold word_here in H. apply andb_true_iff in H. destruct H as [S _].
  exact (starts_head_word w t S A N).
Qed.

Lemma match_word1 (w : string) (p : option ascii) (t : string) :
  word_text w = true ->
  is_some (Re.match_here true (re_word1 w) p t)
  = negb (Re.is_word_opt p) && word_here w t.
Proof.
  intros W. unfold Re.match_here, re_word1. cbn [Re.rmatch].
  destruct (word_here w t) eqn:H.
  - rewrite (word_here_head w t W H), andb_true_r.
    destruct (Re.is_word_opt p); cbn [xorb negb]; [reflexivity|].
    now rewrite match_lit_wordb, H.
  - rewrite andb_false_r. destruct (xorb _ _); [|reflexivity].
    now rewrite match_lit_wordb, H.
Qed.

Lemma match_word2 (w1 w2 : string) (p : option ascii) (t : string) :
  word_text w1 = true -> word_text w2 = true ->
  is_some (Re.match_here true (re_word2 w1 w2) p t)
  = negb (Re.is_word_opt p) && (word_here w1 t || word_here w2 t).
Proof.
  intros W1 W2. unfold Re.match_here, re_word2. cbn [Re.rmatch].
  destruct (word_here w1 t || word_here w2 t) eqn:H.
  - assert (Hh : Re.is_word_opt (Str.head t) = true).
    { apply orb_true_iff in H.
      destruct H as [H|H]; [apply (word_here_head w1) | apply (word_here_head w2)];
        assumption. }
    rewrite Hh, andb_true_r.
    destruct (Re.is_word_opt p); cbn [xorb negb]; [reflexivity|].
    now rewrite is_some_or, !match_lit_wordb, H.
  - rewrite andb_false_r. destruct (xorb _ _); [|reflexivity].
    now rewrite is_some_or, !match_lit_wordb, H.
Qed.

Lemma str_drop_app (m post : string) :
  str_drop (String.length m) (m ++ post) = post.
Proof. induction m; simpl; auto. Qed.

Lemma word_here_spec (w t : string) :
  word_text w = true ->
  (word_here w t = true <->
   exists m post, t = (m ++ post)%string /\ Str.lower m = w
                  /\ Re.is_word_opt (Str.head post) = false).
Proof.
  intros W. apply word_text_spec in W. destruct W as [_ [_ L]].
  unfold word_here. rewrite andb_true_iff, negb_true_iff, starts_with_lit_ci, L.
  rewrite startswith_spec. split.
  - intros [[u E] H]. apply map_split in E. destruct E as [m [post [-> [Em Ep]]]].
    exists m, post. split; [reflexivity|]. split; [exact Em|].
    assert (El : String.length w = String.length m)
      by (rewrite <- Em; apply map_length).
    rewrite El, str_drop_app in H. exact H.
  - intros [m [post [-> [Em H]]]].
    assert (El : String.length w = String.length m)
      by (rewrite <- Em; apply map_length).
    split.
    + exists (Str.lower post). now rewrite lower_append, Em.
    + now rewrite El, str_drop_app.
Qed.

(** A whole-word occurrence is a split of the subject before which no
    word character stands and at which the word stands alone. *)
Lemma word_at_split (w x : string) :
  word_text w = true ->
  ((exists pre post, x = (pre ++ post)%string /\
       negb (Re.is_word_opt (Str.last None pre)) && word_here w post = true)
   <-> occurs_as_word w x).
Proof.
  intros W. unfold occurs_as_word. split.
  - intros [pre [post [-> H]]]. apply andb_true_iff in H. destruct H as [H1 H2].
    apply negb_true_iff in H1. apply (word_here_spec w post W) in H2.
    destruct H2 as [m [post' [-> [Em H2]]]]. exists pre, m, post'. auto.
  - intros [pre [m [post [-> [Em [H1 H2]]]]]]. exists pre, (m ++ post)%string.
    split; [reflexivity|]. rewrite H1. cbn [negb andb].
    apply (word_here_spec w _ W). exists m, post. auto.
Qed.

Lemma search_word1 (w x : string) :
  word_text w = true ->
  (Re.search true (re_word1 w) x = true <-> occurs_as_word w x).
Proof.
  intros W. unfold Re.search. rewrite search_from_true, <- (word_at_split w x W).
  split; intros [pre [post [E H]]]; exists pre, post; (split; [exact E|]);
    rewrite (match_word1 w _ post W) in *; exact H.
Qed.

Lemma search_word2 (w1 w2 x : string) :
  word_text w1 = true -> word_text w2 = true ->
  (Re.search true (re_word2 w1 w2) x = true <->
   occurs_as_word w1 x \/ occurs_as_word w2 x).
Proof.
  intros W1 W2. unfold Re.search.
  rewrite search_from_true, <- (word_at_split w1 x W1), <- (word_at_split w2 x W2).
  split.
  - intros [pre [post [E H]]]. rewrite (match_word2 w1 w2 _ post W1 W2) in H.
    apply andb_true_iff in H. destruct H as [H1 H2]. apply orb_true_iff in H2.
    destruct H2 as [H2|H2]; [left | right]; exists pre, post;
      (split; [exact E|]); now rewrite H1, H2.
  - intros [[pre [post [E H]]]|[pre [post [E H]]]]; exists pre, post;
      (split; [exact E|]); rewrite (match_word2 w1 w2 _ post W1 W2);
      apply andb_true_iff in H; destruct H as [H1 H2]; rewrite H1, H2;
      cbn [andb orb]; [reflexivity | apply orb_true_r].
Qed.

(** ** Stripping *)

Lemma rstrip_last (s : string) (c : ascii) :
  Str.last None (Str.rstrip s) = Some c -> Chr.is_space c = false.
Proof.
  induction s as [|a s IH]; cbn [Str.rstrip]; [discriminate|].
  destruct (Str.rstrip s) as [|b r].
  - destruct (Chr.is_space a) eqn:E; cbn; [discriminate|]. congruence.
  - intros H. apply IH. exact H.
Qed.

Lemma strip_last (e : string) (c : ascii) :
  Str.last None (Str.strip e) = Some c -> Chr.is_space c = false.
Proof. apply rstrip_last. Qed.

Lemma rstrip_idem (s : string) : Str.rstrip (Str.rstrip s) = Str.rstrip s.
Proof.
  induction s as [|a s IH]; [reflexivity|]. cbn [Str.rstrip].
  destruct (Str.rstrip s) as [|b r] eqn:E.
  - destruct (Chr.is_space a) eqn:Ea; [reflexivity|].
    cbn [Str.rstrip]. now rewrite Ea.
  - change (Str.rstrip (String a (String b r)))
      with (match Str.rstrip (String b r) with
            | EmptyString => if Chr.is_space a then EmptyString else String a EmptyString
            | r0 => String a r0
            end).
    now rewrite IH.
Qed.

Lemma lstrip_head (s : string) (c : ascii) :
  Str.head (Str.lstrip s) = Some c -> Chr.is_space c = false.
Proof.
  induction s as [|a s IH]; cbn [Str.lstrip]; [discriminate|].
  destruct (Chr.is_space a) eqn:E; [exact IH|]. cbn. congruence.
Qed.

Lemma lstrip_fixed (s : string) :
  (forall c, Str.head s = Some c -> Chr.is_space c = false) -> Str.lstrip s = s.
Proof.
  destruct s as [|a s]; [reflexivity|]. intros H. cbn [Str.lstrip].
  now rewrite (H a eq_refl).
Qed.

Lemma rstrip_head (s : string) (c : ascii) :
  (forall d, Str.head s = Some d -> Chr.is_space d = false) ->
  Str.head (Str.rstrip s) = Some c -> Chr.is_space c = false.
Proof.
  destruct s as [|a s]; [discriminate|]. intros H. cbn [Str.rstrip].
  specialize (H a eq_refl).
  destruct (Str.rstrip s); [rewrite H|]; cbn; congruence.
Qed.

Lemma strip_idem (s : string) : Str.strip (Str.strip s) = Str.strip s.
Proof.
  unfold Str.strip.
  rewrite (lstrip_fixed (Str.rstrip (Str.lstrip s))).
  - apply rstrip_idem.
  - intros c. apply rstrip_head. intros d. apply lstrip_head.
Qed.

Lemma normalize_element_strip (e : string) :
  normalize_element (Some (Str.strip e)) = normalize_element (Some e).
Proof. unfold normalize_element. now rewrite strip_idem. Qed.

(** ** C1: element normalisation *)

Lemma last_append (p : option ascii) (a b : string) :
  Str.last p (a ++ b) = Str.last (Str.last p a) b.
Proof. revert p. induction a as [|c a IH]; intros p; simpl; auto. Qed.

Lemma last_some (c : ascii) (pre : string) :
  exists d, Str.last (Some c) pre = Some d.
Proof.
  revert c. induction pre as [|e pre IH]; intros c; cbn [Str.last].
  - now exists c.
  - apply IH.
Qed.

Lemma last_none (pre : string) : Str.last None pre = None -> pre = "".
Proof.
  destruct pre as [|c pre]; [reflexivity|]. cbn [Str.last].
  destruct (last_some c pre) as [d ->]. discriminate.
Qed.

(** The first alternative of the stocks pattern matches a stripped label
    only when the label is stock or stocks, in any casing. *)
Lemma stock_whole_match (x : string) :
  (forall c, Str.last None x = Some c -> Chr.is_space c = false) ->
  is_some (Re.match_here true re_stock_whole None x) = true ->
  Str.lower x = "stock" \/ Str.lower x = "stocks".
Proof.
  intros Hx. unfold Re.match_here, re_stock_whole. cbn [Re.rmatch].
  rewrite rmatch_lit.
  destruct (starts_with_lit true "stock" x) eqn:S; [|discriminate].
  rewrite starts_with_lit_ci in S. apply startswith_spec in S. destruct S as [u E].
  apply map_split in E. destruct E as [m [rest [-> [Em Er]]]].
  change (Str.map Chr.lower m = "stock") in Em.
  assert (El : String.length "stock" = String.length m)
    by (rewrite <- Em; apply map_length).
  change (Str.lower m = "stock") in Em.
  rewrite El, str_drop_app, lower_append, Em. clear El.
  assert (NL : forall t, rest = (t ++ String "010" "")%string -> False).
  { intros t ->. specialize (Hx "010"%char).
    rewrite !last_append in Hx. cbn in Hx. specialize (Hx eq_refl). discriminate. }
  cbn [Re.rmatch].
  destruct rest as [|d [|e [|g rest]]]; cbn [Re.at_end Str.lower Str.map append].
  - intros _. left. reflexivity.
  - unfold Re.chr_eq. destruct (Ascii.eqb (Chr.lower "s") (Chr.lower d)) eqn:Ed.
    + intros _. right. apply Ascii.eqb_eq in Ed. rewrite <- Ed. reflexivity.
    + destruct (Ascii.eqb d "010") eqn:En; [|discriminate].
      apply Ascii.eqb_eq in En. subst d. exfalso. apply (NL ""). reflexivity.
  - destruct (Re.chr_eq true "s" d); [|discriminate].
    destruct (Ascii.eqb e "010") eqn:En; [|discriminate].
    apply Ascii.eqb_eq in En. subst e. exfalso. apply (NL (String d "")). reflexivity.
  - destruct (Re.chr_eq true "s" d); discriminate.
Qed.

Lemma match_here_alt (a b : Re.regex) (p : option ascii) (t : string) :
  is_some (Re.match_here true (Re.Alt a b) p t)
  = is_some (Re.match_here true a p t) || is_some (Re.match_here true b p t).
Proof. unfold Re.match_here. cbn [Re.rmatch]. apply is_some_or. Qed.

(** The stocks pattern on a stripped label. *)
Lemma search_stock (x : string) :
  (forall c, Str.last None x = Some c -> Chr.is_space c = false) ->
  (Re.search true re_stock x = true <->
   Str.lower x = "stocks" \/ occurs_as_word "stock" x).
Proof.
  intros Hx. change re_stock with (Re.Alt re_stock_whole (re_word1 "stock")).
  split.
  - unfold Re.search. rewrite search_from_true.
    intros [pre [post [E H]]]. rewrite match_here_alt in H.
    apply orb_true_iff in H. destruct H as [H|H].
    + assert (Hp : Str.last None pre = None).
      { unfold Re.match_here, re_stock_whole in H. cbn [Re.rmatch] in H.
        destruct (Str.last None pre); [discriminate | reflexivity]. }
      rewrite Hp in H. apply last_none in Hp. subst pre. simpl in E. subst post.
      destruct (stock_whole_match x Hx H) as [L|L]; [right | now left].
      exists "", x, "". rewrite append_nil_r. auto.
    + right. apply (word_at_split "stock" x eq_refl). exists pre, post.
      split; [exact E|]. now rewrite <- (match_word1 "stock" _ post eq_refl).
  - intros [L|O].
    + rewrite <- search_lower, L. reflexivity.
    + apply (word_at_split "stock" x eq_refl) in O. destruct O as [pre [post [E H]]].
      unfold Re.search. apply search_from_true. exists pre, post.
      split; [exact E|]. rewrite match_here_alt, (match_word1 "stock" _ post eq_refl), H.
      apply orb_true_r.
Qed.

Lemma classify_In (rs : list RawRow) (r : RawRow) (n : ElementNorm) :
  In (r, n) (classify rs) <->
  In r rs /\ normalize_element (Some (raw_Element r)) = Some n.
Proof.
  unfold classify. rewrite in_flat_map. split.
  - intros [r' [Hr H]].
    destruct (normalize_element (Some (raw_Element r'))) eqn:E; [|destruct H].
    destruct H as [H|[]]. inversion H; subst. auto.
  - intros [Hr E]. exists r. split; [exact Hr|]. rewrite E. now left.
Qed.

Lemma classify_filter (rs : list RawRow) :
  classify (filter (fun r => is_some (normalize_element (Some (raw_Element r)))) rs)
  = classify rs.
Proof.
  unfold classify. induction rs as [|r rs IH]; [reflexivity|].
  cbn [filter flat_map].
  destruct (normalize_element (Some (raw_Element r))) eqn:E; cbn [is_some flat_map].
  - now rewrite E, IH.
  - exact IH.
Qed.

Lemma clean_classified (rs : list RawRow) :
  clean (filter (fun r => is_some (normalize_element (Some (raw_Element r)))) rs)
  = filter (fun r => is_some (normalize_element (Some (raw_Element r)))) (clean rs).
Proof.
  unfold clean.
  set (S := fun r => mkRaw (Str.strip (raw_Area r)) (Str.strip (raw_Item r))
                       (Str.strip (raw_Element r)) (raw_cell r)).
  assert (E : List.map S (filter (fun r => is_some (normalize_element (Some (raw_Element r)))) rs)
              = filter (fun r => is_some (normalize_element (Some (raw_Element r))))
                  (List.map S rs)).
  { rewrite filter_map_comm. f_equal. apply filter_ext. intros r.
    unfold S. cbn [raw_Element]. now rewrite normalize_element_strip. }
  rewrite E, !filter_filter. apply filter_ext. intros x. apply andb_comm.
Qed.

Lemma main_classified_only (a : Args) (df : DataFrame) :
  main a (classified_only df) = main a df.
Proof.
  unfold main, to_long, classified_only. cbn [columns rows].
  now rewrite clean_classified, classify_filter.
Qed.

(** C1, as stated, fails: a label can contain stock, ch4 or n2o without
    holding it as a word of its own. *)
Lemma normalize_element_counterexample :
  (occurs_ci "stock" "Livestock total (Emissions CH4)" /\
   normalize_element (Some "Livestock total (Emissions CH4)") = Some CH4) /\
  (occurs_ci "stock" "Stocks (head)" /\
   normalize_element (Some "Stocks (head)") = None) /\
  (occurs_ci "ch4" "CH4s" /\ normalize_element (Some "CH4s") = None).
Proof.
  repeat split; try reflexivity; apply occurs_isin; reflexivity.
Qed.

(** C1, amended. On the stripped label, compared in any casing: the
    result is Stocks when the label is stocks or holds stock as a whole
    word (no letter, digit or underscore just before or after it);
    otherwise CH4 when it holds ch4 or methane as a whole word; otherwise
    N2O when it holds n2o or nitrous as a whole word; otherwise there is
    no classification.  The classified rows are the rows with a
    classification, and [main] gives the same result on a table as on
    that table without its unclassified rows. *)
Theorem normalize_element_words (e : string) :
  let s := Str.strip e in
  let stock := Str.lower s = "stocks" \/ occurs_as_word "stock" s in
  let ch4 := occurs_as_word "ch4" s \/ occurs_as_word "methane" s in
  let n2o := occurs_as_word "n2o" s \/ occurs_as_word "nitrous" s in
  (normalize_element (Some e) = Some Stocks <-> stock) /\
  (normalize_element (Some e) = Some CH4 <-> ~ stock /\ ch4) /\
  (normalize_element (Some e) = Some N2O <-> ~ stock /\ ~ ch4 /\ n2o) /\
  (normalize_element (Some e) = None <-> ~ stock /\ ~ ch4 /\ ~ n2o) /\
  normalize_element None = None /\
  (forall rs r n,
      In (r, n) (classify rs) <->
      In r rs /\ normalize_element (Some (raw_Element r)) = Some n) /\
  (forall a df, main a (classified_only df) = main a df).
Proof.
  cbv zeta.
  assert (S := search_stock (Str.strip e) (strip_last e)).
  assert (C := search_word2 "ch4" "methane" (Str.strip e) eq_refl eq_refl).
  assert (N := search_word2 "n2o" "nitrous" (Str.strip e) eq_refl eq_refl).
  change (re_word2 "ch4" "methane") with re_ch4 in C.
  change (re_word2 "n2o" "nitrous") with re_n2o in N.
  unfold normalize_element. cbv zeta. rewrite !search_lower.
  destruct (Re.search true re_stock (Str.strip e));
    destruct (Re.search true re_ch4 (Str.strip e));
    destruct (Re.search true re_n2o (Str.strip e));
    rewrite <- S, <- C, <- N;
    (split; [|split; [|split; [|split; [|split; [|split]]]]]);
    try exact classify_In; try exact main_classified_only; try reflexivity;
    intuition congruence.
Qed.

(** ** The item kind of the split rows *)

Lemma lstrip_lower (s : string) : Str.lstrip (Str.lower s) = Str.lower (Str.lstrip s).
Proof.
  induction s as [|c s IH]; [reflexivity|].
  change (Str.lower (String c s)) with (String (Chr.lower c) (Str.lower s)).
  cbn [Str.lstrip]. rewrite is_space_lower.
  destruct (Chr.is_space c); [exact IH | reflexivity].
Qed.

Lemma rstrip_lower (s : string) : Str.rstrip (Str.lower s) = Str.lower (Str.rstrip s).
Proof.
  induction s as [|c s IH]; [reflexivity|].
  change (Str.lower (String c s)) with (String (Chr.lower c) (Str.lower s)).
  cbn [Str.rstrip]. rewrite IH, is_space_lower.
  destruct (Str.rstrip s); [destruct (Chr.is_space c)|]; reflexivity.
Qed.

Lemma strip_lower (s : string) : Str.strip (Str.lower s) = Str.lower (Str.strip s).
Proof. unfold Str.strip. now rewrite lstrip_lower, rstrip_lower. Qed.

Lemma isin_nil (w : string) : w <> "" -> Str.isin w "" = false.
Proof. destruct w; [congruence | reflexivity]. Qed.

(** Stripping keeps every occurrence of a text that neither begins nor
    ends with white space. *)
Lemma lstrip_keeps (c : ascii) (w x : string) :
  Chr.is_space c = false ->
  Str.isin (String c w) x = true -> Str.isin (String c w) (Str.lstrip x) = true.
Proof.
  intros Hc. induction x as [|a x IH]; [discriminate|].
  cbn [Str.lstrip]. destruct (Chr.is_space a) eqn:Ea; [|auto].
  cbn [Str.isin Str.startswith]. intros H. apply orb_true_iff in H.
  destruct H as [H|H]; [|exact (IH H)].
  apply andb_true_iff in H. destruct H as [H _]. apply Ascii.eqb_eq in H. congruence.
Qed.

Lemma startswith_rstrip (w x : string) :
  w <> "" ->
  (forall c, Str.last None w = Some c -> Chr.is_space c = false) ->
  Str.startswith w x = true -> Str.startswith w (Str.rstrip x) = true.
Proof.
  revert x. induction w as [|c w IH]; intros x Hn Hl H; [congruence|].
  destruct x as [|a x]; [discriminate|].
  cbn [Str.startswith] in H. apply andb_true_iff in H. destruct H as [H1 H2].
  apply Ascii.eqb_eq in H1. subst a.
  destruct w as [|d w].
  - assert (Hc : Chr.is_space c = false) by (apply Hl; reflexivity).
    cbn [Str.rstrip]. destruct (Str.rstrip x); [rewrite Hc|];
      cbn [Str.startswith]; now rewrite Ascii.eqb_refl.
  - assert (IH' : Str.startswith (String d w) (Str.rstrip x) = true).
    { apply IH; [discriminate | exact Hl | exact H2]. }
    cbn [Str.rstrip]. destruct (Str.rstrip x) as [|b r]; [discriminate|].
    cbn [Str.startswith] in *. now rewrite Ascii.eqb_refl, IH'.
Qed.

Lemma rstrip_keeps (w x : string) :
  w <> "" ->
  (forall c, Str.last None w = Some c -> Chr.is_space c = false) ->
  Str.isin w x = true -> Str.isin w (Str.rstrip x) = true.
Proof.
  intros Hn Hl. induction x as [|a x IH]; [now rewrite isin_nil|].
  intros H. cbn [Str.isin] in H. apply orb_true_iff in H. destruct H as [H|H].
  - apply (startswith_rstrip w _ Hn Hl) in H.
    destruct (Str.rstrip (String a x)); cbn [Str.isin]; now rewrite H.
  - specialize (IH H). cbn [Str.rstrip].
    destruct (Str.rstrip x) as [|b r]; [now rewrite isin_nil in IH|].
    now apply isin_cons.
Qed.

Lemma strip_keeps (c : ascii) (w x : string) :
  Chr.is_space c = false ->
  (forall d, Str.last None (String c w) = Some d -> Chr.is_space d = false) ->
  Str.isin (String c w) x = true -> Str.isin (String c w) (Str.strip x) = true.
Proof.
  intros Hc Hl H. unfold Str.strip.
  apply rstrip_keeps; [discriminate | exact Hl|]. now apply lstrip_keeps.
Qed.

Lemma mem_without (w low : string) (l : list string) :
  forallb (fun e => negb (Str.isin w e)) l = true ->
  Str.isin w low = true -> Str.mem low l = false.
Proof.
  intros Hl H. destruct (Str.mem low l) eqn:M; [|reflexivity].
  apply mem_spec in M. rewrite forallb_forall in Hl. specialize (Hl low M).
  rewrite H in Hl. discriminate.
Qed.

(** A label with a parenthesis, or with bovine, is of atomic kind. *)
Lemma item_kind_atomic (w x : string) :
  w = "(" \/ w = "bovine" ->
  Str.isin w (Str.lower x) = true -> item_kind x = atomic.
Proof.
  intros Hw H. unfold item_kind. cbv zeta. rewrite <- strip_lower.
  assert (K : Str.isin w (Str.strip (Str.lower x)) = true).
  { destruct Hw as [-> | ->]; apply strip_keeps; try reflexivity; try exact H;
      cbn; intros d E; inversion E; reflexivity. }
  rewrite (mem_without w _ (List.map Str.lower ALL_ANIMALS_LIST))
    by (try exact K; destruct Hw as [-> | ->]; reflexivity).
  rewrite (mem_without w _ (List.map Str.lower AGGREGATE_LIST))
    by (try exact K; destruct Hw as [-> | ->]; reflexivity).
  now destruct (Str.mem _ (List.map Str.lower ATOMIC_LIST)).
Qed.

Lemma split_row_ok (frac : Q) (T : string) (r : Rec) :
  T = "Cattle (dairy)" \/ T = "Cattle (other)" ->
  looks_like_cattle (Item r) = true ->
  rec_ok (split_row frac T r).
Proof.
  intros HT H. unfold rec_ok, kinds_ok. cbn [split_row kind is_all_animals is_atomic Item].
  split; [|split; reflexivity]. symmetry.
  destruct (Str.isin "cattle" (Str.lower (Item r))) eqn:E.
  - apply (item_kind_atomic "("); [now left|]. apply occurs_isin.
    apply (occurs_trans _ (Str.lower T)).
    + apply occurs_isin. destruct HT as [-> | ->]; reflexivity.
    + apply occurs_lower, occurs_isin, sub_has_token, E.
  - unfold Re.sub. rewrite (sub_unchanged T _ None E).
    apply (item_kind_atomic "bovine"); [now right|].
    unfold looks_like_cattle in H. cbv zeta in H. rewrite E in H. exact H.
Qed.

Lemma cattle_split_ok (b : bool) (f : Q) (sb : list Rec) :
  Forall rec_ok sb -> Forall rec_ok (cattle_split b f sb).
Proof.
  intros H. destruct b; [|exact H]. rewrite cattle_split_true.
  rewrite Forall_forall in *. intros r Hr.
  rewrite !in_app_iff, !in_map_iff in Hr.
  destruct Hr as [Hr|[[x [<- Hx]]|[x [<- Hx]]]].
  - apply filter_In in Hr. apply H, Hr.
  - apply filter_In in Hx. apply split_row_ok; [now left | apply Hx].
  - apply filter_In in Hx. apply split_row_ok; [now right | apply Hx].
Qed.

Lemma lsu_frame_ok (sb : list Rec) : Forall rec_ok sb -> Forall rec_ok (lsu_frame sb).
Proof.
  rewrite !Forall_forall. intros H r Hr. unfold lsu_frame in Hr.
  apply in_map_iff in Hr. destruct Hr as [x [<- Hx]]. apply (H x Hx).
Qed.

Lemma rec_of_full_key_ok (a i : string) (y : Z) (v : Q) :
  rec_ok (rec_of_key6 (full_key a i y, v)).
Proof. repeat split. Qed.

Lemma co2e_frame_ok (f : list Rec) : Forall rec_ok f -> Forall rec_ok (co2e_frame f).
Proof.
  intros H. apply Forall_forall. intros r Hr. unfold co2e_frame in Hr.
  apply in_map_iff in Hr. destruct Hr as [[k v] [<- Hkv]].
  destruct (groupby6_keys_ok f (k, v) H Hkv) as [a [i [y E]]]. simpl in E. subst k.
  apply rec_of_full_key_ok.
Qed.

Lemma merge_outer_keys (L R : list (Key6 * Q)) (t : Key6 * option Q * option Q) :
  In t (merge_outer L R) ->
  In (fst (fst t)) (List.map fst L) \/ In (fst (fst t)) (List.map fst R).
Proof.
  unfold merge_outer. rewrite In_sort_values, in_app_iff, in_flat_map, in_map_iff.
  intros [[a [Ha H]]|[b [<- Hb]]].
  - left. destruct (filter (fun b => key6_eqb (fst a) (fst b)) R).
    + destruct H as [<-|[]]. cbn [fst]. now apply (in_map fst).
    + apply in_map_iff in H. destruct H as [b [<- _]]. cbn [fst]. now apply (in_map fst).
  - right. apply filter_In in Hb. cbn [fst]. apply (in_map fst), Hb.
Qed.

Lemma total_frame_ok (ch4 n2o : list Rec) :
  Forall rec_ok ch4 -> Forall rec_ok n2o -> Forall rec_ok (total_frame ch4 n2o).
Proof.
  intros Hc Hn. apply Forall_forall. intros r Hr. unfold total_frame in Hr.
  apply in_map_iff in Hr. destruct Hr as [[[k c] n] [<- Ht]].
  assert (E : exists a i y, k = full_key a i y).
  { destruct (merge_outer_keys _ _ _ Ht) as [H|H]; cbn [fst] in H;
      apply in_map_iff in H; destruct H as [kv [E Hkv]]; rewrite <- E.
    - exact (groupby6_keys_ok ch4 kv Hc Hkv).
    - exact (groupby6_keys_ok n2o kv Hn Hkv). }
  destruct E as [a [i [y ->]]]. apply rec_of_full_key_ok.
Qed.

(** Every row of the per-country table has the item kind of its label. *)
Lemma frame_ok (a : Args) (long : list LongRow) (m : MetricName) :
  Forall long_ok long -> Forall rec_ok (frame a long m).
Proof.
  intros H. destruct m; unfold frame, post_split; cbv zeta.
  - now apply select_ok.
  - now apply co2e_frame_ok, scaled_ok, select_ok.
  - now apply co2e_frame_ok, scaled_ok, select_ok.
  - apply total_frame_ok; now apply scaled_ok, select_ok.
  - now apply lsu_frame_ok, cattle_split_ok, select_ok.
Qed.

Lemma per_country_ok (a : Args) (long : list LongRow) (r : Row) :
  Forall long_ok long -> In r (per_country (prepared a long)) -> rec_ok (body r).
Proof.
  intros H Hr. apply per_country_In in Hr.
  assert (F := frame_ok a long (Metric r) H). rewrite Forall_forall in F.
  exact (F _ Hr).
Qed.

(** For rows with the item kind of their label, the key of a group total
    is the item, the year and the metric. *)
Lemma keyG_ok (r g : Row) :
  rec_ok (body r) -> rec_ok (body g) ->
  (keyG r = keyG g <->
   Item (body r) = Item (body g) /\ Year (body r) = Year (body g)
   /\ Metric r = Metric g).
Proof.
  intros [R1 [R2 R3]] [G1 [G2 G3]]. unfold keyG. split.
  - intros H. inversion H. auto.
  - intros [E1 [E2 E3]]. rewrite R2, R3, G2, G3, R1, G1, E1, E2, E3. reflexivity.
Qed.

Lemma NoDup_map_In_inj {A B : Type} (f : A -> B) (l : list A) (x y : A) :
  NoDup (List.map f l) -> In x l -> In y l -> f x = f y -> x = y.
Proof.
  induction l as [|z l IH]; simpl; [tauto|].
  intros N Hx Hy E. inversion N as [|? ? Hn N']; subst.
  destruct Hx as [<-|Hx], Hy as [<-|Hy]; auto.
  - exfalso. apply Hn. rewrite E. now apply in_map.
  - exfalso. apply Hn. rewrite <- E. now apply in_map.
Qed.

(** On the per-country table, the value of an area under a group-total
    key is its value under the item, year and metric of the key. *)
Lemma member_value_at (a : Args) (long : list LongRow) (g : Row) (A : string) :
  Forall long_ok long -> rec_ok (body g) ->
  member_value (per_country (prepared a long)) (keyG g) A
  == value_at (per_country (prepared a long)) (Metric g) A
       (Item (body g)) (Year (body g)).
Proof.
  intros H Hg. unfold member_value, value_at, rows_at.
  rewrite (filter_ext_in _ (at_key (Metric g) A (Item (body g)) (Year (body g))));
    [reflexivity|].
  intros r Hr. apply eq_true_iff_eq. unfold at_key.
  rewrite !andb_true_iff, keyG_eqb_spec, metric_eqb_spec, !String.eqb_eq, Z.eqb_eq.
  rewrite (keyG_ok r g (per_country_ok a long r H Hr) Hg). tauto.
Qed.

(** C7. The table written holds the per-country rows and the rows of the
    three groups under their fixed labels.  A group none of whose members
    is an area of the table adds no row.  Otherwise it adds one row for
    each item, year, metric and item kind found among its members' rows,
    under the group's label, whose value is the sum over the member areas
    present of the value each holds under that key, an area without a row
    there counting 0: the sum of the two for a group with members A and B
    present.  On the per-country table of the pipeline the item kind
    follows the item label, so that there is one row per item, year and
    metric, whose value is the sum over the member areas present of the
    value each holds for that item, year and metric. *)
Theorem region_totals (out : list Row) (members : list string) (label : string) :
  let present := areas_in out members in
  let region := List.concat (region_frames out members label) in
  (present = [] -> region = []) /\
  (forall g, In g region ->
     Area (body g) = label /\
     (exists r, In r out /\ In (Area (body r)) members /\ keyG r = keyG g) /\
     Value (body g) == sumQ (List.map (member_value out (keyG g)) present)) /\
  (forall r, In r out -> In (Area (body r)) members ->
     exists g, In g region /\ keyG g = keyG r) /\
  NoDup (List.map keyG region) /\
  (forall g A B, In g region -> present = [A; B] ->
     Value (body g)
     == member_value out (keyG g) A + member_value out (keyG g) B) /\
  (forall k a, (forall r, In r out -> Area (body r) = a -> keyG r <> k) ->
     member_value out k a == 0) /\
  (forall r, In r (append_totals out) <->
     In r out \/
     In r (List.concat
             (region_frames out EU "EU (group total)"
              ++ region_frames out EEA_PLUS_UK "EU/EEA+UK (group total)"
              ++ region_frames out EUROPE_WIDE "Europe (group total)"))) /\
  (forall a df long,
     to_long a df = inr long -> out = per_country (prepared a long) ->
     (forall g, In g region ->
        Value (body g)
        == sumQ (List.map
                   (fun A => value_at out (Metric g) A (Item (body g)) (Year (body g)))
                   present)) /\
     (forall g A B, In g region -> present = [A; B] ->
        Value (body g)
        == value_at out (Metric g) A (Item (body g)) (Year (body g))
           + value_at out (Metric g) B (Item (body g)) (Year (body g))) /\
     (forall g g', In g region -> In g' region ->
        Item (body g) = Item (body g') -> Year (body g) = Year (body g') ->
        Metric g = Metric g' -> g = g')).
Proof.
  cbv zeta.
  destruct (region_totals_any out members label) as [H1 [H2 [H3 [H4 [H5 [H6 H7]]]]]].
  cbv zeta in H1, H2, H3, H4, H5, H6, H7.
  split; [exact H1|]. split; [exact H2|]. split; [exact H3|]. split; [exact H4|].
  split; [exact H5|]. split; [exact H6|]. split; [exact H7|].
  intros a df long Hl ->.
  assert (Hok := to_long_ok a df long Hl).
  assert (G : forall g, In g (List.concat
                                (region_frames (per_country (prepared a long)) members label)) ->
              rec_ok (body g)).
  { intros g Hg. destruct (H2 g Hg) as [_ [[r [Hr [_ E]]] _]].
    assert (R := per_country_ok a long r Hok Hr).
    destruct R as [R1 [R2 R3]]. unfold keyG in E. inversion E.
    unfold rec_ok, kinds_ok. repeat split; congruence. }
  split; [|split].
  - intros g Hg. destruct (H2 g Hg) as [_ [_ V]]. rewrite V.
    apply sumQ_map_ext. intros A _. apply member_value_at; auto.
  - intros g A B Hg E. rewrite (H5 g A B Hg E).
    rewrite !member_value_at by auto. reflexivity.
  - intros g g' Hg Hg' E1 E2 E3.
    apply (NoDup_map_In_inj keyG _ g g' H4 Hg Hg').
    apply keyG_ok; auto.
Qed.

(** ** The scenarios of the specification *)

Example scenario_runs : main default_args scenario_df = inr scenario_out.
Proof. vm_compute. reflexivity. Qed.

Example scenario_values :
  value_at scenario_out M_LSU "France" "Cattle (dairy)" 2020 == 350 /\
  value_at scenario_out M_LSU "France" "Cattle (other)" 2020 == 520 /\
  value_at scenario_out M_CH4_CO2e "France" "Cattle" 2020 == 272 /\
  value_at scenario_out M_Total_CO2e "France" "Cattle" 2020 == 272 /\
  value_at scenario_out M_Stocks "EU (group total)" "Cattle" 2020 == 1000.
Proof. repeat split; vm_compute; reflexivity. Qed.

Example scenario_exclusions :
  filter (fun r => Str.mem (Str.lower (Item (body r))) EXCLUDE_ITEMS) scenario_out = [].
Proof. vm_compute. reflexivity. Qed.

Example sample_ar5 :
  let a := mkArgs " ar5" "true" 35.0 "true" in
  value_at (per_country (prepared a sample_long)) M_CH4_CO2e "France" "Cattle" 2020
  == (10 + 2) * 28.
Proof. vm_compute. reflexivity. Qed.

Example sample_region :
  match main default_args sample_df with
  | inr out =>
      value_at out M_Stocks "EU (group total)" "Sheep" 2020 == 210 + 21
      /\ rows_at out M_Stocks "Europe (group total)" "Swine" 2020 = []
  | inl _ => False
  end.
Proof. vm_compute. split; reflexivity. Qed.

(** ** The totals of the gases in the table written *)

Lemma rows_at_app (l1 l2 : list Row) (m : MetricName) (a i : string) (y : Z) :
  rows_at (l1 ++ l2) m a i y = rows_at l1 m a i y ++ rows_at l2 m a i y.
Proof. apply filter_app. Qed.

Lemma value_at_app (l1 l2 : list Row) (m : MetricName) (a i : string) (y : Z) :
  value_at (l1 ++ l2) m a i y == value_at l1 m a i y + value_at l2 m a i y.
Proof. unfold value_at. now rewrite rows_at_app, map_app, sumQ_app. Qed.

Lemma rows_at_perm_of (l1 l2 : list Row) (m : MetricName) (a i : string) (y : Z) :
  Permutation l1 l2 -> Permutation (rows_at l1 m a i y) (rows_at l2 m a i y).
Proof. apply filter_perm. Qed.

Lemma value_at_perm (l1 l2 : list Row) (m : MetricName) (a i : string) (y : Z) :
  Permutation l1 l2 -> value_at l1 m a i y == value_at l2 m a i y.
Proof.
  intros P. unfold value_at. apply sumQ_perm, Permutation_map, rows_at_perm_of, P.
Qed.

Lemma at_key_spec (m : MetricName) (a i : string) (y : Z) (r : Row) :
  at_key m a i y r = true <->
  Metric r = m /\ Area (body r) = a /\ Item (body r) = i /\ Year (body r) = y.
Proof.
  unfold at_key. rewrite !andb_true_iff, metric_eqb_spec, !String.eqb_eq, Z.eqb_eq.
  tauto.
Qed.

Lemma append_totals_perm (out : list Row) :
  Permutation (append_totals out)
    (out ++ region_rows out EU "EU (group total)"
         ++ region_rows out EEA_PLUS_UK "EU/EEA+UK (group total)"
         ++ region_rows out EUROPE_WIDE "Europe (group total)").
Proof.
  unfold region_rows. rewrite <- !concat_app. fold (add_frames out).
  unfold append_totals. destruct (add_frames out) as [|f fs] eqn:E.
  - simpl. rewrite app_nil_r. apply Permutation_refl.
  - cbn [is_empty]. apply sort_values_perm.
Qed.

Lemma sumQ_zero {A : Type} (f : A -> Q) (l : list A) :
  (forall x, In x l -> f x == 0) -> sumQ (List.map f l) == 0.
Proof.
  induction l as [|x l IH]; intros H; [reflexivity|].
  cbn [List.map]. rewrite sumQ_cons, (H x) by (now left).
  rewrite IH by (intros z Hz; apply H; now right). ring.
Qed.

Lemma filter_short {A B : Type} (f : A -> B) (p : A -> bool) (l : list A) :
  NoDup (List.map f l) ->
  (forall x z, In x (filter p l) -> In z (filter p l) -> f x = f z) ->
  (List.length (filter p l) <= 1)%nat.
Proof.
  intros N H.
  assert (Nf : NoDup (filter p l)) by (apply NoDup_filter, (NoDup_map_inv f), N).
  destruct (filter p l) as [|x [|z t]] eqn:E; simpl; try lia.
  exfalso.
  assert (Hx : In x (filter p l)) by (rewrite E; simpl; auto).
  assert (Hz : In z (filter p l)) by (rewrite E; simpl; auto).
  assert (Exz : x = z).
  { apply (NoDup_map_In_inj f l x z N).
    - apply filter_In in Hx. apply Hx.
    - apply filter_In in Hz. apply Hz.
    - rewrite <- E in H. apply H; assumption. }
  subst z. inversion Nf as [|? ? Hn _]; subst. apply Hn. now left.
Qed.

Section RegionRows.

Variable a : Args.
Variable long : list LongRow.
Hypothesis Hok : Forall long_ok long.
Variable members : list string.
Variable label : string.

Let out := per_country (prepared a long).
Let R := region_rows out members label.
Let P := areas_in out members.

Lemma region_rows_spec (g : Row) :
  In g R ->
  Area (body g) = label /\
  (exists r, In r out /\ In (Area (body r)) members /\ keyG r = keyG g) /\
  Value (body g) == sumQ (List.map (member_value out (keyG g)) P).
Proof. apply (region_totals_any out members label). Qed.

Lemma region_rows_ok (g : Row) : In g R -> rec_ok (body g).
Proof.
  intros Hg. destruct (region_rows_spec g Hg) as [_ [[r [Hr [_ E]]] _]].
  destruct (per_country_ok a long r Hok Hr) as [R1 [R2 R3]].
  unfold keyG in E. inversion E.
  unfold rec_ok, kinds_ok. repeat split; congruence.
Qed.

Lemma region_rows_other (m : MetricName) (ar i : string) (y : Z) :
  ar <> label -> rows_at R m ar i y = [].
Proof.
  intros H. apply filter_nil_iff. intros g Hg.
  destruct (at_key m ar i y g) eqn:E; [|reflexivity].
  apply at_key_spec in E. destruct (region_rows_spec g Hg) as [E' _]. intuition congruence.
Qed.

Lemma region_rows_short (m : MetricName) (i : string) (y : Z) :
  (List.length (rows_at R m label i y) <= 1)%nat.
Proof.
  apply (filter_short keyG).
  - apply (region_totals_any out members label).
  - intros x z Hx Hz. apply filter_In in Hx, Hz.
    destruct Hx as [Hx Ex], Hz as [Hz Ez]. apply at_key_spec in Ex, Ez.
    apply keyG_ok; try (apply region_rows_ok; assumption). intuition congruence.
Qed.

Lemma region_rows_exist (m : MetricName) (i : string) (y : Z) :
  rows_at R m label i y <> [] <->
  exists A, In A P /\ rows_at out m A i y <> [].
Proof.
  unfold rows_at. rewrite filter_not_nil. split.
  - intros [g [Hg Eg]]. apply at_key_spec in Eg.
    destruct (region_rows_spec g Hg) as [_ [[r [Hr [Hm E]]] _]].
    exists (Area (body r)). split.
    + apply areas_in_spec. split; [exists r|]; auto.
    + apply filter_not_nil. exists r. split; [exact Hr|].
      apply at_key_spec. unfold keyG in E. inversion E. intuition congruence.
  - intros [A [HA H]]. apply filter_not_nil in H. destruct H as [r [Hr Er]].
    apply at_key_spec in Er. apply areas_in_spec in HA.
    destruct (proj1 (proj2 (proj2 (region_totals_any out members label))) r Hr)
      as [g [Hg E]]; [intuition congruence|].
    exists g. split; [exact Hg|]. apply at_key_spec.
    destruct (region_rows_spec g Hg) as [Ea _].
    unfold keyG in E. inversion E. intuition congruence.
Qed.

Lemma region_rows_value (m : MetricName) (i : string) (y : Z) :
  value_at R m label i y
  == sumQ (List.map (fun A => value_at out m A i y) P).
Proof.
  assert (S := region_rows_short m i y).
  assert (X := region_rows_exist m i y).
  unfold value_at at 1.
  destruct (rows_at R m label i y) as [|g [|z t]] eqn:E; simpl in S; try lia.
  - symmetry. apply sumQ_zero. intros A HA. apply value_at_none.
    destruct (rows_at out m A i y) eqn:Eo; [reflexivity|].
    exfalso. apply (proj2 X); [|reflexivity]. exists A. split; [exact HA|]. congruence.
  - assert (Hg : In g (rows_at R m label i y)) by (rewrite E; now left).
    apply filter_In in Hg. destruct Hg as [Hg Eg]. apply at_key_spec in Eg.
    destruct Eg as [<- [_ [<- <-]]].
    cbn [List.map]. rewrite sumQ_single.
    destruct (region_rows_spec g Hg) as [_ [_ V]]. rewrite V.
    apply sumQ_map_ext. intros A _.
    apply member_value_at; [exact Hok | now apply region_rows_ok].
Qed.

(** The value of a group under any key: the sum over its members under
    its own label, nothing elsewhere. *)
Lemma region_rows_value_any (m : MetricName) (ar i : string) (y : Z) :
  value_at R m ar i y
  == if String.eqb ar label
     then sumQ (List.map (fun A => value_at out m A i y) P)
     else 0.
Proof.
  destruct (String.eqb ar label) eqn:E.
  - apply String.eqb_eq in E. subst ar. apply region_rows_value.
  - apply String.eqb_neq in E. apply value_at_none, region_rows_other, E.
Qed.

End RegionRows.

Lemma gas_values_at (a : Args) (long : list LongRow) (ar i : string) (y : Z) :
  Forall long_ok long ->
  value_at (per_country (prepared a long)) M_Total_CO2e ar i y
  == value_at (per_country (prepared a long)) M_CH4_CO2e ar i y
     + value_at (per_country (prepared a long)) M_N2O_CO2e ar i y.
Proof.
  intros Hok. destruct (gas_rows_at a long ar i y Hok) as [Ec [En Et]].
  unfold value_at. rewrite Ec, En, Et.
  destruct (filter _ (scaled _ (select CH4 long)));
    destruct (filter _ (scaled _ (select N2O long)));
    cbn [List.map body Value rec_of_key6 full_key];
    rewrite ?sumQ_single, ?sumQ_nil; ring.
Qed.

Lemma gas_rows_exist (a : Args) (long : list LongRow) (ar i : string) (y : Z) :
  Forall long_ok long ->
  (rows_at (per_country (prepared a long)) M_Total_CO2e ar i y <> [] <->
   rows_at (per_country (prepared a long)) M_CH4_CO2e ar i y <> [] \/
   rows_at (per_country (prepared a long)) M_N2O_CO2e ar i y <> []).
Proof.
  intros Hok. destruct (gas_rows_at a long ar i y Hok) as [Ec [En Et]].
  rewrite Ec, En, Et.
  destruct (filter _ (scaled _ (select CH4 long)));
    destruct (filter _ (scaled _ (select N2O long)));
    split; intros H; try discriminate; try tauto;
    try (left; discriminate); try (right; discriminate).
Qed.

Lemma gas_rows_short (a : Args) (long : list LongRow) (m : MetricName)
    (ar i : string) (y : Z) :
  Forall long_ok long -> m = M_Total_CO2e \/ m = M_CH4_CO2e \/ m = M_N2O_CO2e ->
  (List.length (rows_at (per_country (prepared a long)) m ar i y) <= 1)%nat.
Proof.
  intros Hok Hm. destruct (gas_rows_at a long ar i y Hok) as [Ec [En Et]].
  destruct Hm as [-> | [-> | ->]]; [rewrite Et | rewrite Ec | rewrite En];
    destruct (filter _ (scaled _ (select CH4 long)));
    destruct (filter _ (scaled _ (select N2O long))); simpl; lia.
Qed.

Lemma region_gas_exist (a : Args) (long : list LongRow) (members : list string)
    (label ar i : string) (y : Z) :
  Forall long_ok long ->
  let R := region_rows (per_country (prepared a long)) members label in
  (rows_at R M_Total_CO2e ar i y <> [] <->
   rows_at R M_CH4_CO2e ar i y <> [] \/ rows_at R M_N2O_CO2e ar i y <> []).
Proof.
  intros Hok R. unfold R. destruct (String.eqb ar label) eqn:E.
  - apply String.eqb_eq in E. subst ar.
    rewrite !(region_rows_exist a long members label). split.
    + intros [A [HA H]]. apply (gas_rows_exist a long A i y Hok) in H.
      destruct H as [H|H]; [left | right]; exists A; auto.
    + intros [[A [HA H]]|[A [HA H]]]; exists A; (split; [exact HA|]);
        apply (gas_rows_exist a long A i y Hok); auto.
  - apply String.eqb_neq in E.
    rewrite !(region_rows_other a long members label _ ar i y E). tauto.
Qed.

Lemma region_gas_value (a : Args) (long : list LongRow) (members : list string)
    (label ar i : string) (y : Z) :
  Forall long_ok long ->
  let R := region_rows (per_country (prepared a long)) members label in
  value_at R M_Total_CO2e ar i y
  == value_at R M_CH4_CO2e ar i y + value_at R M_N2O_CO2e ar i y.
Proof.
  intros Hok R. unfold R.
  rewrite !(region_rows_value_any a long Hok members label).
  destruct (String.eqb ar label); [|ring].
  rewrite <- sumQ_map_plus. apply sumQ_map_ext. intros A _.
  now apply gas_values_at.
Qed.

Lemma app_not_nil {A : Type} (l1 l2 : list A) :
  l1 ++ l2 <> [] <-> l1 <> [] \/ l2 <> [].
Proof.
  destruct l1, l2; simpl; split; intros H; try tauto; try discriminate;
    try (left; discriminate); try (right; discriminate).
Qed.

Lemma perm_not_nil {A : Type} (l l' : list A) :
  Permutation l l' -> (l <> [] <-> l' <> []).
Proof.
  intros P. split; intros H E; subst; apply H.
  - apply Permutation_nil, Permutation_sym, P.
  - apply Permutation_nil, P.
Qed.

Lemma rows_at_final (out : list Row) (m : MetricName) (ar i : string) (y : Z) :
  Permutation (rows_at (append_totals out) m ar i y)
    (rows_at out m ar i y
     ++ rows_at (region_rows out EU "EU (group total)") m ar i y
     ++ rows_at (region_rows out EEA_PLUS_UK "EU/EEA+UK (group total)") m ar i y
     ++ rows_at (region_rows out EUROPE_WIDE "Europe (group total)") m ar i y).
Proof.
  rewrite <- !rows_at_app. apply rows_at_perm_of, append_totals_perm.
Qed.

Lemma value_at_final (out : list Row) (m : MetricName) (ar i : string) (y : Z) :
  value_at (append_totals out) m ar i y
  == value_at out m ar i y
     + (value_at (region_rows out EU "EU (group total)") m ar i y
        + (value_at (region_rows out EEA_PLUS_UK "EU/EEA+UK (group total)") m ar i y
           + value_at (region_rows out EUROPE_WIDE "Europe (group total)") m ar i y)).
Proof.
  rewrite (value_at_perm _ _ m ar i y (append_totals_perm out)).
  now rewrite !value_at_app.
Qed.

Lemma rows_at_no_area (out : list Row) (m : MetricName) (ar i : string) (y : Z) :
  (forall r, In r out -> Area (body r) <> ar) -> rows_at out m ar i y = [].
Proof.
  intros H. apply filter_nil_iff. intros r Hr.
  destruct (at_key m ar i y r) eqn:E; [|reflexivity].
  apply at_key_spec in E. exfalso. apply (H r Hr). tauto.
Qed.

(** In the table written there is at most one row of a gas metric under a
    key, when no area of the per-country table bears a group label. *)
Lemma final_gas_rows_short (a : Args) (long : list LongRow) (m : MetricName)
    (ar i : string) (y : Z) :
  Forall long_ok long ->
  m = M_Total_CO2e \/ m = M_CH4_CO2e \/ m = M_N2O_CO2e ->
  (forall r, In r (per_country (prepared a long)) ->
             ~ In (Area (body r)) GROUP_LABELS) ->
  (List.length (rows_at (append_totals (per_country (prepared a long))) m ar i y) <= 1)%nat.
Proof.
  intros Hok Hm Hlab.
  rewrite (Permutation_length (rows_at_final _ m ar i y)), !length_app.
  assert (S0 := gas_rows_short a long m ar i y Hok Hm).
  destruct (in_dec string_dec ar GROUP_LABELS) as [Hin|Hout].
  - rewrite (rows_at_no_area (per_country (prepared a long)) m ar i y)
      by (intros r Hr E; apply (Hlab r Hr); now rewrite E).
    destruct Hin as [<-|[<-|[<-|[]]]].
    + assert (S1 := region_rows_short a long Hok EU "EU (group total)" m i y).
      rewrite (region_rows_other a long EEA_PLUS_UK "EU/EEA+UK (group total)" m)
        by discriminate.
      rewrite (region_rows_other a long EUROPE_WIDE "Europe (group total)" m)
        by discriminate.
      simpl. lia.
    + assert (S1 := region_rows_short a long Hok EEA_PLUS_UK "EU/EEA+UK (group total)" m i y).
      rewrite (region_rows_other a long EU "EU (group total)" m) by discriminate.
      rewrite (region_rows_other a long EUROPE_WIDE "Europe (group total)" m)
        by discriminate.
      simpl. lia.
    + assert (S1 := region_rows_short a long Hok EUROPE_WIDE "Europe (group total)" m i y).
      rewrite (region_rows_other a long EU "EU (group total)" m) by discriminate.
      rewrite (region_rows_other a long EEA_PLUS_UK "EU/EEA+UK (group total)" m)
        by discriminate.
      simpl. lia.
  - rewrite (region_rows_other a long EU "EU (group total)" m)
      by (intros E; apply Hout; rewrite E; simpl; auto).
    rewrite (region_rows_other a long EEA_PLUS_UK "EU/EEA+UK (group total)" m)
      by (intros E; apply Hout; rewrite E; simpl; auto).
    rewrite (region_rows_other a long EUROPE_WIDE "Europe (group total)" m)
      by (intros E; apply Hout; rewrite E; simpl; auto).
    simpl. lia.
Qed.

(** C2. Under every area, item and year, in the per-country table and in
    the table written with its group totals: there is a Total_CO2e row
    exactly when there is a CH4_CO2e row or an N2O_CO2e row, and the
    Total_CO2e value is the CH4_CO2e value plus the N2O_CO2e value, a metric
    without a row there counting 0.  The per-country table holds at most
    one Total_CO2e row under the key, and so does the table written when no
    area of the input bears the label of a group total; the value of that
    row is the sum of the two. *)
Theorem total_co2e_is_sum (a : Args) (df : DataFrame) (long : list LongRow)
    (ar i : string) (y : Z) :
  to_long a df = inr long ->
  let out := per_country (prepared a long) in
  let final := append_totals out in
  let holds table :=
    (rows_at table M_Total_CO2e ar i y <> [] <->
       rows_at table M_CH4_CO2e ar i y <> [] \/ rows_at table M_N2O_CO2e ar i y <> []) /\
    value_at table M_Total_CO2e ar i y
    == value_at table M_CH4_CO2e ar i y + value_at table M_N2O_CO2e ar i y /\
    (forall m, rows_at table m ar i y = [] -> value_at table m ar i y == 0) in
  let single table :=
    (List.length (rows_at table M_Total_CO2e ar i y) <= 1)%nat /\
    (forall r, In r (rows_at table M_Total_CO2e ar i y) ->
       Value (body r)
       == value_at table M_CH4_CO2e ar i y + value_at table M_N2O_CO2e ar i y) in
  holds out /\ single out /\
  holds final /\
  ((forall r, In r out -> ~ In (Area (body r)) GROUP_LABELS) -> single final) /\
  (main a df = inr final \/ main a df = inl NothingToWrite).
Proof.
  intros Hl. cbv zeta.
  assert (Hok := to_long_ok a df long Hl).
  destruct (total_co2e_per_country a df long ar i y Hl) as [P1 [P2 [P3 P4]]].
  cbv zeta in P1, P2, P3, P4.
  split; [|split; [|split; [|split]]].
  - split; [exact P1|]. split; [now apply gas_values_at | exact P4].
  - split; [exact P2 | exact P3].
  - split; [|split].
    + rewrite !(perm_not_nil _ _ (rows_at_final _ _ ar i y)), !app_not_nil.
      rewrite (gas_rows_exist a long ar i y Hok).
      rewrite (region_gas_exist a long EU "EU (group total)" ar i y Hok).
      rewrite (region_gas_exist a long EEA_PLUS_UK "EU/EEA+UK (group total)" ar i y Hok).
      rewrite (region_gas_exist a long EUROPE_WIDE "Europe (group total)" ar i y Hok).
      tauto.
    + rewrite !value_at_final.
      rewrite (gas_values_at a long ar i y Hok).
      rewrite (region_gas_value a long EU "EU (group total)" ar i y Hok).
      rewrite (region_gas_value a long EEA_PLUS_UK "EU/EEA+UK (group total)" ar i y Hok).
      rewrite (region_gas_value a long EUROPE_WIDE "Europe (group total)" ar i y Hok).
      ring.
    + intros m. apply value_at_none.
  - intros Hlab.
    assert (S := final_gas_rows_short a long M_Total_CO2e ar i y Hok
                   (or_introl eq_refl) Hlab).
    split; [exact S|]. intros r Hr.
    assert (V : value_at (append_totals (per_country (prepared a long)))
                  M_Total_CO2e ar i y == Value (body r)).
    { unfold value_at.
      destruct (rows_at (append_totals (per_country (prepared a long)))
                  M_Total_CO2e ar i y) as [|r0 [|r1 t]]; simpl in S; try lia.
      - destruct Hr.
      - destruct Hr as [<-|[]]. cbn [List.map]. apply sumQ_single. }
    rewrite <- V, !value_at_final.
    rewrite (gas_values_at a long ar i y Hok).
    rewrite (region_gas_value a long EU "EU (group total)" ar i y Hok).
    rewrite (region_gas_value a long EEA_PLUS_UK "EU/EEA+UK (group total)" ar i y Hok).
    rewrite (region_gas_value a long EUROPE_WIDE "Europe (group total)" ar i y Hok).
    ring.
  - unfold main. rewrite Hl. destruct (is_empty (prepared a long)); auto.
Qed.

Lemma no_group_label_check (out : list Row) :
  forallb (fun r => negb (Str.mem (Area (body r)) GROUP_LABELS)) out = true ->
  forall r, In r out -> ~ In (Area (body r)) GROUP_LABELS.
Proof.
  intros H r Hr Hin. rewrite forallb_forall in H. specialize (H r Hr).
  apply mem_spec in Hin. rewrite Hin in H. discriminate.
Qed.

Lemma total_co2e_is_sum_witness :
  let ar := "EU (group total)" in
  let i := "Cattle" in
  let y := 2020%Z in
  let out := per_country (prepared default_args sample_long) in
  let final := append_totals out in
  let holds table :=
    (rows_at table M_Total_CO2e ar i y <> [] <->
       rows_at table M_CH4_CO2e ar i y <> [] \/ rows_at table M_N2O_CO2e ar i y <> []) /\
    value_at table M_Total_CO2e ar i y
    == value_at table M_CH4_CO2e ar i y + value_at table M_N2O_CO2e ar i y /\
    (forall m, rows_at table m ar i y = [] -> value_at table m ar i y == 0) in
  let single table :=
    (List.length (rows_at table M_Total_CO2e ar i y) <= 1)%nat /\
    (forall r, In r (rows_at table M_Total_CO2e ar i y) ->
       Value (body r)
       == value_at table M_CH4_CO2e ar i y + value_at table M_N2O_CO2e ar i y) in
  holds out /\ single out /\
  holds final /\
  ((forall r, In r out -> ~ In (Area (body r)) GROUP_LABELS) -> single final) /\
  (main default_args sample_df = inr final
   \/ main default_args sample_df = inl NothingToWrite).
Proof.
  apply (total_co2e_is_sum default_args sample_df sample_long
           "EU (group total)" "Cattle" 2020).
  vm_compute. reflexivity.
Defined.

Example sample_no_group_label :
  forall r, In r (per_country (prepared default_args sample_long)) ->
            ~ In (Area (body r)) GROUP_LABELS.
Proof. apply no_group_label_check. vm_compute. reflexivity. Qed.

Example sample_total_row :
  exists r,
    rows_at (append_totals (per_country (prepared default_args sample_long)))
      M_Total_CO2e "EU (group total)" "Cattle" 2020 = [r]
    /\ Value (body r) == (10 + 2) * 27.2 + 0.5 * 273.
Proof. eexists. split; [vm_compute; reflexivity | vm_compute; reflexivity]. Qed.

(** * Further properties of the script *)

(** ** The cattle split, row by row *)

Lemma sum_partition {A : Type} (val : A -> Q) (q : A -> bool) (l : list A) :
  sumQ (List.map val l)
  == sumQ (List.map val (filter (fun x => negb (q x)) l))
     + sumQ (List.map val (filter q l)).
Proof.
  induction l as [|x l IH]; [reflexivity|].
  cbn [filter List.map]. destruct (q x); cbn [negb List.map];
    rewrite !sumQ_cons, IH; ring.
Qed.

Lemma split_row_at (frac : Q) (T : string) (a : string) (y : Z) (r : Rec) :
  area_year a y (split_row frac T r) = area_year a y r.
Proof. reflexivity. Qed.

Lemma cattle_split_sum (b : bool) (f : Q) (sb : list Rec) (p : Rec -> bool) :
  (forall frac T r, p (split_row frac T r) = p r) ->
  frame_sum (filter p (cattle_split b f sb)) == frame_sum (filter p sb).
Proof.
  intros Hp. destruct b; [|reflexivity].
  rewrite cattle_split_true. unfold frame_sum.
  rewrite !filter_app, !map_app, !sumQ_app, !filter_map_comm, !map_map.
  rewrite (filter_ext (fun x => p (split_row f "Cattle (dairy)" x)) p
             (fun r => Hp _ _ r)).
  rewrite (filter_ext (fun x => p (split_row (1.0 - f) "Cattle (other)" x)) p
             (fun r => Hp _ _ r)).
  cbn [split_row Value].
  rewrite (sumQ_map_scale Value f), (sumQ_map_scale Value (1.0 - f)).
  rewrite (sum_partition Value (fun r => looks_like_cattle (Item r)) (filter p sb)).
  rewrite !filter_filter.
  rewrite (filter_ext (fun x => p x && negb (looks_like_cattle (Item x)))
             (fun x => negb (looks_like_cattle (Item x)) && p x)
             (fun x => andb_comm _ _)).
  rewrite (filter_ext (fun x => p x && looks_like_cattle (Item x))
             (fun x => looks_like_cattle (Item x) && p x)
             (fun x => andb_comm _ _)).
  ring.
Qed.

Lemma filter_all {A : Type} (l : list A) : filter (fun _ => true) l = l.
Proof. apply (filter_const (fun _ : A => true) true). reflexivity. Qed.

Lemma cattle_split_total (b : bool) (f : Q) (sb : list Rec) :
  frame_sum (cattle_split b f sb) == frame_sum sb.
Proof.
  assert (E := cattle_split_sum b f sb (fun _ => true) (fun _ _ _ => eq_refl)).
  now rewrite !filter_all in E.
Qed.

Lemma split_row_cattle (frac : Q) (T : string) (r : Rec) :
  T = "Cattle (dairy)" \/ T = "Cattle (other)" ->
  looks_like_cattle (Item r) = true ->
  looks_like_cattle (Item (split_row frac T r)) = true.
Proof.
  intros HT H. cbn [split_row Item]. apply sub_keeps_cattle; [|exact H].
  destruct HT as [-> | ->]; reflexivity.
Qed.

Lemma filter_split_rows (frac : Q) (T : string) (l : list Rec) :
  T = "Cattle (dairy)" \/ T = "Cattle (other)" ->
  (forall r, In r l -> looks_like_cattle (Item r) = true) ->
  filter (fun r => looks_like_cattle (Item r)) (List.map (split_row frac T) l)
  = List.map (split_row frac T) l /\
  filter (fun r => negb (looks_like_cattle (Item r))) (List.map (split_row frac T) l)
  = [].
Proof.
  intros HT H.
  assert (C : forall x, In x (List.map (split_row frac T) l) ->
              looks_like_cattle (Item x) = true).
  { intros x Hx. apply in_map_iff in Hx. destruct Hx as [r [<- Hr]].
    apply split_row_cattle; auto. }
  split.
  - now apply (filter_const (fun r => looks_like_cattle (Item r)) true).
  - apply (filter_const (fun r => negb (looks_like_cattle (Item r))) false).
    intros x Hx. now rewrite (C x Hx).
Qed.

(** X1. The cattle split loses no row and touches no other row.  With the
    split disabled, or without a cattle or bovine row, the stocks frame is
    unchanged.  With the split enabled the rows that are neither cattle nor
    bovine stay as they are and in their order, and the cattle or bovine
    rows of the result are a dairy row for each such row followed by an
    other row for each: one row more per cattle or bovine row, in the
    whole frame and under every area and year.  For a fraction between 0
    and 1 and stocks that are not negative, neither split row is negative
    or exceeds the row it comes from. *)
Theorem cattle_split_keeps_rows (f : Q) (sb : list Rec) :
  let cattle := filter (fun r => looks_like_cattle (Item r)) sb in
  let dairy := split_row f "Cattle (dairy)" in
  let other := split_row (1.0 - f) "Cattle (other)" in
  cattle_split false f sb = sb /\
  (cattle = [] -> cattle_split true f sb = sb) /\
  filter (fun r => negb (looks_like_cattle (Item r))) (cattle_split true f sb)
  = filter (fun r => negb (looks_like_cattle (Item r))) sb /\
  filter (fun r => looks_like_cattle (Item r)) (cattle_split true f sb)
  = List.map dairy cattle ++ List.map other cattle /\
  (forall b,
      List.length (cattle_split b f sb)
      = (List.length sb + if b then List.length cattle else 0)%nat) /\
  (forall b a y,
      List.length (filter (area_year a y) (cattle_split b f sb))
      = (List.length (filter (area_year a y) sb)
         + if b then List.length (filter (area_year a y) cattle) else 0)%nat) /\
  (0 <= f -> f <= 1 -> forall r, 0 <= Value r ->
      (0 <= Value (dairy r) /\ Value (dairy r) <= Value r) /\
      (0 <= Value (other r) /\ Value (other r) <= Value r)).
Proof.
  cbv zeta.
  assert (C : forall r, In r (filter (fun r => looks_like_cattle (Item r)) sb) ->
              looks_like_cattle (Item r) = true)
    by (intros r Hr; apply filter_In in Hr; apply Hr).
  destruct (filter_split_rows f "Cattle (dairy)" _ (or_introl eq_refl) C) as [D1 D2].
  destruct (filter_split_rows (1.0 - f) "Cattle (other)" _ (or_intror eq_refl) C)
    as [O1 O2].
  split; [reflexivity|]. split; [|split; [|split; [|split; [|split]]]].
  - intros E. unfold cattle_split. now rewrite E.
  - rewrite cattle_split_true, !filter_app, D2, O2, !app_nil_r, filter_filter.
    apply filter_ext. intros r. apply andb_diag.
  - rewrite cattle_split_true, !filter_app, D1, O1, filter_filter.
    rewrite (filter_const _ false); [reflexivity|].
    intros x _. now destruct (looks_like_cattle (Item x)).
  - intros [|]; [|simpl; lia].
    rewrite cattle_split_true, !length_app, !length_map.
    rewrite (filter_length_split (fun r => looks_like_cattle (Item r)) sb). lia.
  - intros [|] a y; [|simpl; lia].
    rewrite cattle_split_true, !filter_app, !filter_map_comm, !length_app, !length_map.
    change (fun x => area_year a y (split_row f "Cattle (dairy)" x))
      with (area_year a y).
    change (fun x => area_year a y (split_row (1.0 - f) "Cattle (other)" x))
      with (area_year a y).
    rewrite (filter_length_split (fun r => looks_like_cattle (Item r))
               (filter (area_year a y) sb)).
    rewrite !filter_filter.
    rewrite (filter_ext (fun x => area_year a y x && negb (looks_like_cattle (Item x)))
               (fun x => negb (looks_like_cattle (Item x)) && area_year a y x)
               (fun x => andb_comm _ _)).
    rewrite (filter_ext (fun x => area_year a y x && looks_like_cattle (Item x))
               (fun x => looks_like_cattle (Item x) && area_year a y x)
               (fun x => andb_comm _ _)).
    lia.
  - intros F0 F1 r Hr. cbn [split_row Value]. repeat split; nra.
Qed.

(** ** Livestock units never exceed the head count of their row *)

Lemma default_lsu_weight_values (item : string) :
  In (default_lsu_weight item) [1.0; 0.8; 0.1; 0.3; 0.01]%Q.
Proof.
  unfold default_lsu_weight. cbv zeta.
  repeat match goal with
         | |- context [if ?c then _ else _] => destruct c
         end; simpl; tauto.
Qed.

Lemma default_lsu_weight_range (item : string) :
  0 < default_lsu_weight item /\ default_lsu_weight item <= 1.
Proof.
  destruct (default_lsu_weight_values item) as [<-|[<-|[<-|[<-|[<-|[]]]]]];
    split; reflexivity || (intros H; discriminate H).
Qed.


Lemma sumQ_le {A : Type} (f g : A -> Q) (l : list A) :
  (forall x, In x l -> f x <= g x) ->
  sumQ (List.map f l) <= sumQ (List.map g l).
Proof.
  induction l as [|x l IH]; intros H; [apply Qle_refl|].
  cbn [List.map]. rewrite !sumQ_cons.
  assert (H1 := H x (or_introl eq_refl)).
  assert (H2 := IH (fun z Hz => H z (or_intror Hz))). lra.
Qed.

Lemma cattle_split_nonneg (b : bool) (f : Q) (sb : list Rec) :
  0 <= f -> f <= 1 ->
  Forall (fun r => 0 <= Value r) sb ->
  Forall (fun r => 0 <= Value r) (cattle_split b f sb).
Proof.
  intros H0 H1 H. destruct b; [|exact H]. rewrite cattle_split_true.
  rewrite Forall_forall in *. intros r Hr.
  rewrite !in_app_iff, !in_map_iff in Hr.
  destruct Hr as [Hr|[[x [<- Hx]]|[x [<- Hx]]]].
  - apply filter_In in Hr. apply H, Hr.
  - apply filter_In in Hx. destruct Hx as [Hx _]. specialize (H x Hx).
    cbn [split_row Value]. apply Qmult_le_0_compat; assumption.
  - apply filter_In in Hx. destruct Hx as [Hx _]. specialize (H x Hx).
    cbn [split_row Value]. apply Qmult_le_0_compat; [assumption | lra].
Qed.

Lemma share_bounds (v c : Q) :
  0 <= v -> 0 <= c -> c <= 1 -> 0 <= v * c /\ v * c <= v.
Proof. intros Hv H0 H1. split; nra. Qed.

(** X2. The weight of every item label is one of 1.0, 0.8, 0.1, 0.3 and
    0.01, so it lies above 0 and at most at 1.  Hence, row by row, the LSU
    frame repeats the frame it is computed from with each value between 0
    and the stocks value of the row when that is not negative; and when no
    stocks value of the long table is negative, every LSU row of the
    pipeline, split or not, has the area and year of a stocks row and a
    value between 0 and the value of that row. *)
Theorem lsu_within_stocks :
  (forall item,
      In (default_lsu_weight item) [1.0; 0.8; 0.1; 0.3; 0.01]%Q /\
      0 < default_lsu_weight item /\ default_lsu_weight item <= 1) /\
  (forall sb,
      Forall (fun r => 0 <= Value r) sb ->
      Forall2 (fun r l => Area l = Area r /\ Item l = Item r /\ Year l = Year r /\
                          0 <= Value l /\ Value l <= Value r)
        sb (lsu_frame sb)) /\
  (forall a long,
      Forall (fun r => 0 <= Value r) (select Stocks long) ->
      forall l, In l (frame a long M_LSU) ->
        exists s, In s (select Stocks long) /\
                  Area l = Area s /\ Year l = Year s /\
                  0 <= Value l /\ Value l <= Value s).
Proof.
  split; [|split].
  - intros item. split; [apply default_lsu_weight_values | apply default_lsu_weight_range].
  - intros sb H. induction H as [|r sb Hr _ IH]; [constructor|].
    cbn [lsu_frame List.map]. constructor; [|exact IH].
    cbn [set_Value Area Item Year Value].
    destruct (default_lsu_weight_range (Item r)) as [W0 W1].
    repeat split; nra.
  - intros a long H l Hl. cbn [frame] in Hl. unfold lsu_frame in Hl.
    apply in_map_iff in Hl. destruct Hl as [b [<- Hb]].
    cbn [set_Value Area Year Value].
    destruct (default_lsu_weight_range (Item b)) as [W0 W1].
    destruct (dairy_frac_bounds (dairy_share a)) as [F0 F1].
    rewrite Forall_forall in H. unfold post_split in Hb.
    destruct (flag (split_cattle a)).
    + rewrite cattle_split_true, !in_app_iff, !in_map_iff in Hb.
      destruct Hb as [Hb|[[s [<- Hs]]|[s [<- Hs]]]];
        apply filter_In in Hb || apply filter_In in Hs.
      * exists b. destruct Hb as [Hb _]. specialize (H b Hb). cbv beta in H.
        repeat split; try assumption; nra.
      * exists s. destruct Hs as [Hs _]. specialize (H s Hs). cbv beta in H.
        cbn [split_row Area Year Value Item] in *.
        destruct (share_bounds (Value s) (dairy_frac_of (dairy_share a)) H F0 F1)
          as [S0 S1].
        destruct (share_bounds _ _ S0 (Qlt_le_weak _ _ W0) W1) as [T0 T1].
        repeat split; try assumption. lra.
      * exists s. destruct Hs as [Hs _]. specialize (H s Hs). cbv beta in H.
        cbn [split_row Area Year Value Item] in *.
        assert (G0 : 0 <= 1.0 - dairy_frac_of (dairy_share a)) by lra.
        assert (G1 : 1.0 - dairy_frac_of (dairy_share a) <= 1) by lra.
        destruct (share_bounds (Value s) _ H G0 G1) as [S0 S1].
        destruct (share_bounds _ _ S0 (Qlt_le_weak _ _ W0) W1) as [T0 T1].
        repeat split; try assumption. lra.
    + exists b. specialize (H b Hb). cbv beta in H.
      repeat split; try assumption; nra.
Qed.

(** ** The outcomes of [main] *)

Lemma to_long_cases (a : Args) (df : DataFrame) :
  to_long a df =
  match missing_columns df with
  | _ :: _ => inl (MissingColumns (missing_columns df))
  | [] =>
      match detect_year_cols (columns df) with
      | [] => inl NoYearColumns
      | _ :: _ =>
          match astype_int (melt (detect_year_cols (columns df)) (kept_rows a df)) with
          | Some long => inr long
          | None => inl YearOverflow
          end
      end
  end.
Proof.
  unfold to_long, kept_rows. fold (missing_columns df).
  destruct (missing_columns df); cbn [is_empty negb]; [|reflexivity].
  now destruct (detect_year_cols (columns df)).
Qed.

Lemma melt_nil (year_cols : list string) (df : list (RawRow * ElementNorm)) :
  melt year_cols df = [] <-> year_cols = [] \/ df = [].
Proof.
  split.
  - intros H. apply (f_equal (@List.length LongRow)) in H.
    rewrite melt_length in H. simpl in H.
    destruct year_cols, df; simpl in H; auto; lia.
  - intros [-> | ->]; [reflexivity|].
    apply length_zero_iff_nil. rewrite melt_length. simpl. lia.
Qed.

Lemma select_nil_all (long : list LongRow) :
  select Stocks long = [] -> select CH4 long = [] -> select N2O long = [] ->
  long = [].
Proof.
  destruct long as [|l long]; [reflexivity|].
  unfold select. cbn [filter]. destruct (l_ElementNorm l); cbn [norm_eqb List.map];
    intros H1 H2 H3; discriminate.
Qed.

Lemma prepared_empty (a : Args) (long : list LongRow) :
  is_empty (prepared a long) = true <-> long = [].
Proof.
  split.
  - unfold prepared. cbv zeta. rewrite !scaled_empty. intros H.
    destruct (select Stocks long) eqn:E1; [|discriminate].
    destruct (select CH4 long) eqn:E2; [|discriminate].
    destruct (select N2O long) eqn:E3; [|discriminate].
    now apply select_nil_all.
  - intros ->. reflexivity.
Qed.

Lemma all_frames_not_nil (a : Args) (long : list LongRow) :
  long <> [] -> all_frames a long <> [].
Proof.
  intros H E. apply H. unfold all_frames in E.
  apply app_eq_nil in E. destruct E as [E1 E].
  apply app_eq_nil in E. destruct E as [E2 E].
  apply app_eq_nil in E. destruct E as [E3 _].
  unfold with_metric in E1, E2, E3. apply map_eq_nil in E1, E2, E3.
  cbn [frame] in E1, E2, E3. unfold co2e_frame in E2, E3.
  apply map_eq_nil in E2, E3. unfold groupby6 in E2, E3.
  apply groupby_sum_nil in E2, E3.
  apply select_nil_all; [exact E1| |].
  - destruct (select CH4 long); [reflexivity | discriminate].
  - destruct (select N2O long); [reflexivity | discriminate].
Qed.

Lemma append_totals_not_nil (out : list Row) : out <> [] -> append_totals out <> [].
Proof.
  destruct out as [|r out]; [congruence|]. intros _ E.
  assert (H : In r (append_totals (r :: out))) by (apply append_totals_In; left; now left).
  rewrite E in H. destruct H.
Qed.

Lemma missing_columns_In (df : DataFrame) (c : string) :
  In c (missing_columns df) <->
  In c ["Area"; "Item"; "Element"] /\ ~ In c (columns df).
Proof.
  unfold missing_columns. rewrite filter_In, negb_true_iff.
  assert (M : Str.mem c (columns df) = false <-> ~ In c (columns df)).
  { rewrite <- (mem_spec c (columns df)).
    destruct (Str.mem c (columns df)); split; congruence. }
  rewrite M. simpl. tauto.
Qed.

(** X3. [main] stops with the missing-columns error exactly when the
    header lacks Area, Item or Element, whatever the arguments, the rows and
    the other columns; the error names exactly the required columns that
    are absent, each once, in alphabetical order. *)
Theorem main_missing_columns (a : Args) (df : DataFrame) :
  ((exists ms, main a df = inl (MissingColumns ms)) <-> ~ has_required df) /\
  (forall ms, main a df = inl (MissingColumns ms) ->
     ms = missing_columns df /\ ms <> []) /\
  (forall c, In c (missing_columns df) <->
     In c ["Area"; "Item"; "Element"] /\ ~ In c (columns df)) /\
  (exists keep_area keep_element keep_item : bool,
     missing_columns df
     = (if keep_area then ["Area"] else [])
       ++ (if keep_element then ["Element"] else [])
       ++ (if keep_item then ["Item"] else [])) /\
  (forall a' df', columns df' = columns df -> ~ has_required df ->
     main a' df' = main a df).
Proof.
  assert (M : forall a0 df0, missing_columns df0 <> [] ->
              main a0 df0 = inl (MissingColumns (missing_columns df0))).
  { intros a0 df0 H. unfold main. rewrite to_long_cases.
    destruct (missing_columns df0); [congruence | reflexivity]. }
  assert (N : forall a0 df0 ms, main a0 df0 = inl (MissingColumns ms) ->
              ms = missing_columns df0 /\ ms <> []).
  { intros a0 df0 ms. unfold main. rewrite to_long_cases.
    destruct (missing_columns df0) as [|m l] eqn:E.
    - destruct (detect_year_cols (columns df0)); [discriminate|].
      destruct (astype_int _) as [long|]; [|discriminate].
      destruct (is_empty _); discriminate.
    - intros H. inversion H. split; [reflexivity | discriminate]. }
  assert (R : forall df0, missing_columns df0 = [] <-> has_required df0)
    by (intros df0; apply missing_nil).
  split; [|split; [exact (N a df)|split; [apply missing_columns_In|split]]].
  - split.
    + intros [ms H] Hr. apply N in H. destruct H as [-> H]. apply H, R, Hr.
    + intros H. exists (missing_columns df). apply M. intros E. apply H, R, E.
  - unfold missing_columns. cbn [filter].
    exists (negb (Str.mem "Area" (columns df))),
      (negb (Str.mem "Element" (columns df))), (negb (Str.mem "Item" (columns df))).
    destruct (Str.mem "Area" (columns df)), (Str.mem "Element" (columns df)),
      (Str.mem "Item" (columns df)); reflexivity.
  - intros a' df' E H.
    assert (E' : missing_columns df' = missing_columns df)
      by (unfold missing_columns; now rewrite E).
    rewrite (M a df) by (intros X; apply H, R, X).
    rewrite (M a' df') by (rewrite E'; intros X; apply H, R, X).
    now rewrite E'.
Qed.

(** ** The order of the rows written *)

Section Orders.

Context {A : Type}.

(** A comparison that behaves as a total order up to its own [Eq]. *)
Record total_order (cmp : A -> A -> comparison) : Prop := {
  cmp_antisym : forall a b, cmp a b = CompOpp (cmp b a);
  cmp_eq_l : forall a b c, cmp a b = Eq -> cmp a c = cmp b c;
  cmp_lt_trans : forall a b c, cmp a b = Lt -> cmp b c = Lt -> cmp a c = Lt
}.

Lemma cmp_eq_r (cmp : A -> A -> comparison) (H : total_order cmp) (a b c : A) :
  cmp a b = Eq -> cmp c a = cmp c b.
Proof.
  intros E. rewrite (cmp_antisym _ H c a), (cmp_antisym _ H c b).
  now rewrite (cmp_eq_l _ H a b c E).
Qed.

Lemma lex_total (f g : A -> A -> comparison) :
  total_order f -> total_order g -> total_order (fun a b => lex (f a b) (g a b)).
Proof.
  intros Hf Hg. split.
  - intros a b. rewrite (cmp_antisym _ Hf a b), (cmp_antisym _ Hg a b).
    now destruct (f b a), (g b a).
  - intros a b c E.
    destruct (f a b) eqn:Ef; cbn [lex] in E; try discriminate.
    now rewrite (cmp_eq_l _ Hf a b c Ef), (cmp_eq_l _ Hg a b c E).
  - intros a b c E1 E2.
    destruct (f a b) eqn:Ef; cbn [lex] in E1; try discriminate.
    + rewrite (cmp_eq_l _ Hf a b c Ef).
      destruct (f b c) eqn:Ef2; cbn [lex] in E2 |- *; try discriminate; [|reflexivity].
      exact (cmp_lt_trans _ Hg a b c E1 E2).
    + destruct (f b c) eqn:Ef2; cbn [lex] in E2; try discriminate.
      * rewrite <- (cmp_eq_r f Hf b c a Ef2), Ef. reflexivity.
      * now rewrite (cmp_lt_trans _ Hf a b c Ef Ef2).
Qed.

Lemma total_order_le_trans (cmp : A -> A -> comparison) (H : total_order cmp)
    (a b c : A) :
  is_le (cmp a b) = true -> is_le (cmp b c) = true -> is_le (cmp a c) = true.
Proof.
  destruct (cmp a b) eqn:E1; try discriminate; intros _.
  - now rewrite (cmp_eq_l _ H a b c E1).
  - destruct (cmp b c) eqn:E2; try discriminate; intros _.
    + now rewrite <- (cmp_eq_r cmp H b c a E2), E1.
    + now rewrite (cmp_lt_trans _ H a b c E1 E2).
Qed.

Lemma total_order_le_total (cmp : A -> A -> comparison) (H : total_order cmp)
    (a b : A) :
  is_le (cmp a b) = false -> is_le (cmp b a) = true.
Proof.
  rewrite (cmp_antisym _ H a b). now destruct (cmp b a).
Qed.

Lemma string_total (p : A -> string) :
  total_order (fun a b => String.compare (p a) (p b)).
Proof.
  split.
  - intros a b. apply String.compare_antisym.
  - intros a b c E. apply String.compare_eq_iff in E. now rewrite E.
  - intros a b c E1 E2.
    apply OrderedTypeEx.String_as_OT.cmp_lt.
    apply OrderedTypeEx.String_as_OT.cmp_lt in E1, E2.
    exact (OrderedTypeEx.String_as_OT.lt_trans _ _ _ E1 E2).
Qed.

Lemma Z_total (p : A -> Z) : total_order (fun a b => Z.compare (p a) (p b)).
Proof.
  split.
  - intros a b. apply Z.compare_antisym.
  - intros a b c E. apply Z.compare_eq_iff in E. now rewrite E.
  - intros a b c E1 E2. rewrite Z.compare_lt_iff in *. lia.
Qed.

Variable cmp : A -> A -> comparison.
Hypothesis cmp_total : total_order cmp.

Let le (a b : A) : Prop := is_le (cmp a b) = true.

Lemma insert_sorted_In (x y : A) (l : list A) :
  In y (insert_sorted cmp x l) <-> y = x \/ In y l.
Proof.
  induction l as [|z l IH]; simpl.
  - intuition.
  - destruct (is_le (cmp x z)); simpl; [intuition|]. rewrite IH. intuition.
Qed.

Lemma insert_sorted_sorted (x : A) (l : list A) :
  StronglySorted le l -> StronglySorted le (insert_sorted cmp x l).
Proof.
  induction 1 as [|z l Hs IH Hz]; simpl.
  - constructor; constructor.
  - destruct (is_le (cmp x z)) eqn:E.
    + constructor; [now constructor|]. constructor; [exact E|].
      rewrite Forall_forall in *. intros y Hy.
      exact (total_order_le_trans cmp cmp_total x z y E (Hz y Hy)).
    + constructor; [exact IH|]. rewrite Forall_forall in *. intros y Hy.
      apply insert_sorted_In in Hy. destruct Hy as [-> | Hy]; [|now apply Hz].
      now apply total_order_le_total.
Qed.

Lemma sort_values_sorted (l : list A) : StronglySorted le (sort_values cmp l).
Proof.
  induction l as [|x l IH]; simpl; [constructor|].
  now apply insert_sorted_sorted.
Qed.

End Orders.

Lemma out_compare_total : total_order out_compare.
Proof.
  unfold out_compare.
  apply (lex_total (fun a b => String.compare (Area (body a)) (Area (body b)))).
  { apply (string_total (fun a => Area (body a))). }
  apply (lex_total (fun a b => String.compare (Item (body a)) (Item (body b)))).
  { apply (string_total (fun a => Item (body a))). }
  apply (lex_total (fun a b => Z.compare (Year (body a)) (Year (body b)))).
  { apply (Z_total (fun a => Year (body a))). }
  apply (string_total (fun a => metric_label (Metric a))).
Qed.

Lemma out_le_cases (r s : Row) :
  out_le r s <->
  String.ltb (Area (body r)) (Area (body s)) = true \/
  Area (body r) = Area (body s) /\
  (String.ltb (Item (body r)) (Item (body s)) = true \/
   Item (body r) = Item (body s) /\
   ((Year (body r) < Year (body s))%Z \/
    Year (body r) = Year (body s) /\
    String.leb (metric_label (Metric r)) (metric_label (Metric s)) = true)).
Proof.
  unfold out_le, out_compare, String.ltb, String.leb.
  rewrite <- (Z.compare_lt_iff (Year (body r))).
  pose proof (String.compare_eq_iff (Area (body r)) (Area (body s))) as E1.
  pose proof (String.compare_eq_iff (Item (body r)) (Item (body s))) as E2.
  pose proof (Z.compare_eq_iff (Year (body r)) (Year (body s))) as E3.
  assert (R : forall x, String.compare x x = Eq).
  { intros x. pose proof (String.compare_antisym x x) as X.
    destruct (String.compare x x); [reflexivity | discriminate | discriminate]. }
  assert (R1 : Area (body r) = Area (body s) ->
               String.compare (Area (body r)) (Area (body s)) = Eq)
    by (intros ->; apply R).
  assert (R2 : Item (body r) = Item (body s) ->
               String.compare (Item (body r)) (Item (body s)) = Eq)
    by (intros ->; apply R).
  destruct E3 as [E3 R3].
  destruct (String.compare (Area (body r)) (Area (body s))) eqn:C1; cbn [lex is_le];
    [|intuition (try discriminate; congruence)..].
  destruct (String.compare (Item (body r)) (Item (body s))) eqn:C2; cbn [lex is_le];
    [|intuition (try discriminate; congruence)..].
  destruct (Z.compare (Year (body r)) (Year (body s))) eqn:C3; cbn [lex is_le];
    [|intuition (try discriminate; congruence)..].
  destruct (String.compare (metric_label (Metric r)) (metric_label (Metric s)));
    cbn [is_le]; intuition (try discriminate; congruence).
Qed.

(** X5. Whatever frames are prepared, the table written is sorted by Area,
    then Item, then Year, then metric name: every row precedes or ties with
    every later row, in the lexicographic order of these four columns, the
    metric names in the order CH4_CO2e, LSU, N2O_CO2e, Stocks, Total_CO2e.
    The table written on a successful run of [main] is sorted so. *)
Theorem output_sorted :
  (forall frames, StronglySorted out_le (append_totals (per_country frames))) /\
  (forall a df out, main a df = inr out -> StronglySorted out_le out) /\
  (forall r s, out_le r s <->
     String.ltb (Area (body r)) (Area (body s)) = true \/
     Area (body r) = Area (body s) /\
     (String.ltb (Item (body r)) (Item (body s)) = true \/
      Item (body r) = Item (body s) /\
      ((Year (body r) < Year (body s))%Z \/
       Year (body r) = Year (body s) /\
       String.leb (metric_label (Metric r)) (metric_label (Metric s)) = true))) /\
  StronglySorted (fun m n => String.ltb (metric_label m) (metric_label n) = true)
    [M_CH4_CO2e; M_LSU; M_N2O_CO2e; M_Stocks; M_Total_CO2e].
Proof.
  assert (S : forall frames, StronglySorted out_le (append_totals (per_country frames))).
  { intros frames. unfold append_totals, per_country.
    destruct (is_empty (add_frames _));
      apply (sort_values_sorted out_compare out_compare_total). }
  split; [exact S|split; [|split; [exact out_le_cases|]]].
  - intros a df out. unfold main.
    destruct (to_long a df) as [e|long]; [discriminate|].
    destruct (is_empty (prepared a long)); [discriminate|].
    intros H. inversion H. apply S.
  - repeat (constructor; [|repeat (constructor; try reflexivity)]). constructor.
Qed.

(** ** The year read from a column name *)

Lemma digit_value (c : ascii) :
  Chr.is_digit c = true -> (0 <= Z.of_nat (Chr.code c - 48) <= 9)%Z.
Proof.
  unfold Chr.is_digit, Chr.between. rewrite andb_true_iff, !Nat.leb_le. lia.
Qed.

Lemma int_acc_value (s : string) (acc : Z) :
  Str.int_acc acc s = (acc * 10 ^ Z.of_nat (String.length s) + Str.int s)%Z.
Proof.
  unfold Str.int. revert acc. induction s as [|c s IH]; intros acc.
  - simpl. lia.
  - cbn [Str.int_acc String.length]. rewrite (IH (10 * acc + _)%Z), (IH (10 * 0 + _)%Z).
    rewrite Nat2Z.inj_succ, Z.pow_succ_r by lia. ring.
Qed.

Lemma int_cons (c : ascii) (s : string) :
  Str.int (String c s)
  = (Z.of_nat (Chr.code c - 48) * 10 ^ Z.of_nat (String.length s) + Str.int s)%Z.
Proof.
  unfold Str.int at 1. cbn [Str.int_acc]. rewrite int_acc_value. ring.
Qed.

Lemma int_range (s : string) :
  Str.all_digits s = true -> (0 <= Str.int s < 10 ^ Z.of_nat (String.length s))%Z.
Proof.
  induction s as [|c s IH].
  - intros _. cbn. lia.
  - cbn [Str.all_digits]. rewrite andb_true_iff. intros [Hc Hs].
    rewrite int_cons. cbn [String.length].
    rewrite Nat2Z.inj_succ, Z.pow_succ_r by lia.
    pose proof (digit_value c Hc). specialize (IH Hs). nia.
Qed.

Lemma digit_code_inj (c d : ascii) :
  Chr.is_digit c = true -> Chr.is_digit d = true ->
  Z.of_nat (Chr.code c - 48) = Z.of_nat (Chr.code d - 48) -> c = d.
Proof.
  unfold Chr.is_digit, Chr.between, Chr.code.
  rewrite !andb_true_iff, !Nat.leb_le. intros [H1 H2] [H3 H4] E.
  rewrite <- (ascii_nat_embedding c), <- (ascii_nat_embedding d).
  f_equal. lia.
Qed.

Lemma int_inj (s t : string) :
  Str.all_digits s = true -> Str.all_digits t = true ->
  String.length s = String.length t -> Str.int s = Str.int t -> s = t.
Proof.
  revert t. induction s as [|c s IH]; intros [|d t]; try discriminate; [reflexivity|].
  cbn [Str.all_digits String.length]. rewrite !andb_true_iff.
  intros [Hc Hs] [Hd Ht] L. injection L as L. rewrite !int_cons, L.
  pose proof (int_range s Hs) as Rs. pose proof (int_range t Ht) as Rt.
  rewrite L in Rs.
  pose proof (digit_value c Hc). pose proof (digit_value d Hd).
  intros E.
  assert (Z.of_nat (Chr.code c - 48) = Z.of_nat (Chr.code d - 48)) by nia.
  assert (Str.int s = Str.int t) by nia.
  f_equal; [now apply digit_code_inj | now apply IH].
Qed.

Lemma int_app_digit (s : string) (c : ascii) :
  Str.int (s ++ String c "") = (10 * Str.int s + Z.of_nat (Chr.code c - 48))%Z.
Proof.
  unfold Str.int. generalize 0%Z. induction s as [|d s IH]; intros acc.
  - reflexivity.
  - cbn [append Str.int_acc]. apply IH.
Qed.

(** X6. The year of a column is the decimal value of the digits after the
    Y: it is never negative, below 10 to the number of digits (so below
    2^63 up to 18 digits), and appending a digit multiplies it by ten and
    adds the digit.  Two year columns with the same number of digits and
    different names have different years, but leading zeros are ignored:
    Y2020 and Y02020 are both year columns, with the same year. *)
Theorem year_is_decimal_value :
  (forall cols c, In c (detect_year_cols cols) ->
     (0 <= Str.int (Str.tail c) < 10 ^ Z.of_nat (String.length (Str.tail c)))%Z /\
     ((String.length (Str.tail c) <= 18)%nat -> (Str.int (Str.tail c) < 2 ^ 63)%Z)) /\
  (forall s c, Str.int (s ++ String c "")
               = (10 * Str.int s + Z.of_nat (Chr.code c - 48))%Z) /\
  (forall cols c d, In c (detect_year_cols cols) -> In d (detect_year_cols cols) ->
     String.length c = String.length d ->
     Str.int (Str.tail c) = Str.int (Str.tail d) -> c = d) /\
  (forall ds, Str.isdigit ds = true ->
     detect_year_cols [String "Y" ds; String "Y" (String "0" ds)]
     = [String "Y" ds; String "Y" (String "0" ds)] /\
     Str.int (Str.tail (String "Y" (String "0" ds))) = Str.int (Str.tail (String "Y" ds))).
Proof.
  split; [|split; [exact int_app_digit|split]].
  - intros cols c H. apply detect_year_cols_In in H.
    destruct H as [_ [ds [-> Hd]]]. cbn [Str.tail].
    apply isdigit_spec in Hd. destruct Hd as [_ Hd].
    pose proof (int_range ds Hd) as R. split; [exact R|].
    intros L.
    assert (10 ^ Z.of_nat (String.length ds) <= 10 ^ 18)%Z
      by (apply Z.pow_le_mono_r; lia).
    assert (10 ^ 18 < 2 ^ 63)%Z by reflexivity. lia.
  - intros cols c d Hc Hd L E. apply detect_year_cols_In in Hc, Hd.
    destruct Hc as [_ [cs [-> Hc]]]. destruct Hd as [_ [ds [-> Hd]]].
    cbn [Str.tail] in E. cbn [String.length] in L. injection L as L.
    apply isdigit_spec in Hc, Hd. f_equal.
    apply int_inj; tauto.
  - intros ds Hd. split.
    + unfold detect_year_cols. cbn [filter Str.startswith Str.tail].
      rewrite Hd. apply isdigit_spec in Hd. destruct Hd as [_ Hd].
      cbn [Str.isdigit Str.all_digits]. rewrite Hd. reflexivity.
    + cbn [Str.tail]. rewrite int_cons. reflexivity.
Qed.

(** ** The three groups are nested *)







(** ** How the arguments are read *)

Lemma upper_lower (c : ascii) : Chr.upper (Chr.lower c) = Chr.upper c.
Proof. all_chars c. Qed.

Lemma lower_upper (c : ascii) : Chr.lower (Chr.upper c) = Chr.lower c.
Proof. all_chars c. Qed.

Lemma is_space_upper (c : ascii) : Chr.is_space (Chr.upper c) = Chr.is_space c.
Proof. all_chars c. Qed.

Lemma str_upper_lower (s : string) : Str.upper (Str.lower s) = Str.upper s.
Proof.
  unfold Str.upper, Str.lower. induction s as [|c s IH]; simpl; [reflexivity|].
  now rewrite upper_lower, IH.
Qed.

Lemma str_lower_upper (s : string) : Str.lower (Str.upper s) = Str.lower s.
Proof.
  unfold Str.upper, Str.lower. induction s as [|c s IH]; simpl; [reflexivity|].
  now rewrite lower_upper, IH.
Qed.

Lemma lstrip_upper (s : string) : Str.lstrip (Str.upper s) = Str.upper (Str.lstrip s).
Proof.
  induction s as [|c s IH]; [reflexivity|].
  change (Str.upper (String c s)) with (String (Chr.upper c) (Str.upper s)).
  cbn [Str.lstrip]. rewrite is_space_upper.
  destruct (Chr.is_space c); [exact IH | reflexivity].
Qed.

Lemma rstrip_upper (s : string) : Str.rstrip (Str.upper s) = Str.upper (Str.rstrip s).
Proof.
  induction s as [|c s IH]; [reflexivity|].
  change (Str.upper (String c s)) with (String (Chr.upper c) (Str.upper s)).
  cbn [Str.rstrip]. rewrite IH, is_space_upper.
  destruct (Str.rstrip s); [destruct (Chr.is_space c)|]; reflexivity.
Qed.

Lemma strip_upper (s : string) : Str.strip (Str.upper s) = Str.upper (Str.strip s).
Proof. unfold Str.strip. now rewrite lstrip_upper, rstrip_upper. Qed.

Lemma same_text_variants (x : string) :
  same_text (Str.upper x) x /\ same_text (Str.lower x) x /\ same_text (Str.strip x) x.
Proof.
  unfold same_text. repeat split.
  - now rewrite strip_upper, str_lower_upper.
  - now rewrite strip_lower, str_lower_idem.
  - now rewrite strip_idem.
Qed.

Lemma same_text_upper (x y : string) :
  same_text x y -> Str.upper (Str.strip x) = Str.upper (Str.strip y).
Proof.
  unfold same_text. intros E.
  rewrite <- (str_upper_lower (Str.strip x)), <- (str_upper_lower (Str.strip y)).
  now rewrite E.
Qed.

Lemma flag_same (x y : string) : same_text x y -> flag x = flag y.
Proof. unfold same_text, flag. now intros ->. Qed.

Lemma gwp_pair_same (x y : string) : same_text x y -> gwp_pair x = gwp_pair y.
Proof. intros E. unfold gwp_pair. now rewrite (same_text_upper x y E). Qed.

Lemma main_args (a a' : Args) (df : DataFrame) :
  gwp_pair (gwp a) = gwp_pair (gwp a') ->
  flag (split_cattle a) = flag (split_cattle a') ->
  dairy_frac_of (dairy_share a) = dairy_frac_of (dairy_share a') ->
  flag (only_livestock_total a) = flag (only_livestock_total a') ->
  main a df = main a' df.
Proof.
  intros E1 E2 E3 E4. unfold main, to_long, prepared. cbv zeta.
  now rewrite E1, E2, E3, E4.
Qed.

Lemma dairy_frac_clamp_low (share : Q) :
  share <= 0 -> dairy_frac_of share = dairy_frac_of 0.
Proof.
  intros H.
  assert (E : share / 100.0 == share * (1 # 100)) by (field; lra).
  change (dairy_frac_of 0) with 0.0.
  unfold dairy_frac_of, py_max, py_min.
  destruct (Qlt_le_dec (share / 100.0) 1.0) as [H1|H1]; [|lra].
  destruct (Qlt_le_dec 0.0 (share / 100.0)) as [H2|H2]; [lra | reflexivity].
Qed.

Lemma dairy_frac_clamp_high (share : Q) :
  100 <= share -> dairy_frac_of share = dairy_frac_of 100.
Proof.
  intros H.
  assert (E : share / 100.0 == share * (1 # 100)) by (field; lra).
  change (dairy_frac_of 100) with 1.0.
  unfold dairy_frac_of, py_max, py_min.
  destruct (Qlt_le_dec (share / 100.0) 1.0) as [H1|H1]; [lra|].
  destruct (Qlt_le_dec 0.0 1.0) as [H2|H2]; [reflexivity | lra].
Qed.

(** X8. The arguments are read leniently.  The GWP name and the two
    switches count up to case and surrounding white space: arguments that
    differ only so give the same result.  A GWP name that is none of AR4,
    AR5, AR6_NOCCF and AR6_CCF is no error: the run is that of AR6_NOCCF.
    A dairy share of at most 0 runs as 0 and one of at least 100 as
    100. *)
Theorem arguments_read_leniently :
  (forall a a' df,
     same_text (gwp a) (gwp a') ->
     same_text (split_cattle a) (split_cattle a') ->
     same_text (only_livestock_total a) (only_livestock_total a') ->
     dairy_share a = dairy_share a' ->
     main a df = main a' df) /\
  (forall x, same_text (Str.upper x) x /\ same_text (Str.lower x) x /\
             same_text (Str.strip x) x) /\
  (forall a df,
     Str.mem (Str.upper (Str.strip (gwp a))) ["AR4"; "AR5"; "AR6_NOCCF"; "AR6_CCF"]
     = false ->
     main a df = main (with_gwp "AR6_NOCCF" a) df) /\
  (forall a df, dairy_share a <= 0 -> main a df = main (with_dairy_share 0 a) df) /\
  (forall a df, 100 <= dairy_share a -> main a df = main (with_dairy_share 100 a) df).
Proof.
  split; [|split; [exact same_text_variants|split; [|split]]].
  - intros a a' df E1 E2 E3 E4.
    apply main_args; [now apply gwp_pair_same | now apply flag_same
                     | now rewrite E4 | now apply flag_same].
  - intros a df H. apply main_args; try reflexivity.
    cbn [with_gwp gwp]. now rewrite (gwp_pair_default _ H).
  - intros a df H. apply main_args; try reflexivity.
    cbn [with_dairy_share dairy_share]. now apply dairy_frac_clamp_low.
  - intros a df H. apply main_args; try reflexivity.
    cbn [with_dairy_share dairy_share]. now apply dairy_frac_clamp_high.
Qed.

(** ** The item kind of the rows written *)

Lemma main_inr (a : Args) (df : DataFrame) (out : list Row) :
  main a df = inr out ->
  exists long, to_long a df = inr long /\
               out = append_totals (per_country (prepared a long)).
Proof.
  unfold main. destruct (to_long a df) as [e|long]; [discriminate|].
  destruct (is_empty (prepared a long)); [discriminate|].
  intros H. inversion H. now exists long.
Qed.

Lemma final_ok (a : Args) (long : list LongRow) (r : Row) :
  Forall long_ok long ->
  In r (append_totals (per_country (prepared a long))) -> rec_ok (body r).
Proof.
  intros Hok Hr. apply append_totals_In in Hr. destruct Hr as [Hr|Hr].
  - exact (per_country_ok a long r Hok Hr).
  - unfold add_frames in Hr. rewrite !concat_app in Hr.
    apply in_app_or in Hr. destruct Hr as [Hr|Hr];
      [exact (region_rows_ok a long Hok _ _ r Hr)|].
    apply in_app_or in Hr. destruct Hr as [Hr|Hr];
      exact (region_rows_ok a long Hok _ _ r Hr).
Qed.

Lemma item_kind_all_animals (x : string) :
  item_kind x = all_animals <->
  In (Str.lower (Str.strip x)) (List.map Str.lower ALL_ANIMALS_LIST).
Proof.
  unfold item_kind. cbv zeta. rewrite <- mem_spec.
  destruct (Str.mem _ (List.map Str.lower ALL_ANIMALS_LIST)).
  - tauto.
  - destruct (Str.mem _ (List.map Str.lower AGGREGATE_LIST));
      [|destruct (Str.mem _ (List.map Str.lower ATOMIC_LIST))];
      split; discriminate.
Qed.

Lemma item_kind_aggregate (x : string) :
  item_kind x = aggregate <->
  In (Str.lower (Str.strip x)) (List.map Str.lower AGGREGATE_LIST).
Proof.
  unfold item_kind. cbv zeta. rewrite <- mem_spec.
  destruct (Str.mem _ (List.map Str.lower ALL_ANIMALS_LIST)) eqn:E1.
  - split; [discriminate|]. intros E2. exfalso.
    assert (D : forallb (fun y => negb (Str.mem y (List.map Str.lower AGGREGATE_LIST)))
                  (List.map Str.lower ALL_ANIMALS_LIST) = true)
      by (vm_compute; reflexivity).
    rewrite forallb_forall in D. apply mem_spec in E1. specialize (D _ E1).
    rewrite E2 in D. discriminate.
  - destruct (Str.mem _ (List.map Str.lower AGGREGATE_LIST));
      [tauto|destruct (Str.mem _ (List.map Str.lower ATOMIC_LIST))];
      split; discriminate.
Qed.

Lemma item_kind_same (x y : string) : same_text x y -> item_kind x = item_kind y.
Proof. unfold same_text, item_kind. cbv zeta. now intros ->. Qed.

(** X9. In a table written by [main] the three kind columns of every row,
    per-country or group total, split or not, follow from its Item label:
    item_kind is the kind of the label, is_all_animals holds exactly for
    the kind all_animals and is_atomic exactly for the kind atomic, so
    never both.  The kind of a label is all_animals or aggregate exactly
    when the label, stripped and in lower case, is on the list of that
    name in lower case, and atomic otherwise, on the atomic list or not;
    it is the same for labels that differ in case or surrounding white
    space. *)
Theorem kind_follows_item :
  (forall a df out r, main a df = inr out -> In r out ->
     kind (body r) = item_kind (Item (body r)) /\
     is_all_animals (body r) = kind_eqb (kind (body r)) all_animals /\
     is_atomic (body r) = kind_eqb (kind (body r)) atomic /\
     is_all_animals (body r) && is_atomic (body r) = false) /\
  (forall x, item_kind x = all_animals <->
     In (Str.lower (Str.strip x)) (List.map Str.lower ALL_ANIMALS_LIST)) /\
  (forall x, item_kind x = aggregate <->
     In (Str.lower (Str.strip x)) (List.map Str.lower AGGREGATE_LIST)) /\
  (forall x, item_kind x = atomic <->
     ~ In (Str.lower (Str.strip x))
         (List.map Str.lower (ALL_ANIMALS_LIST ++ AGGREGATE_LIST))) /\
  (forall x y, same_text x y -> item_kind x = item_kind y).
Proof.
  split; [|split; [exact item_kind_all_animals|split; [exact item_kind_aggregate|
    split; [|exact item_kind_same]]]].
  - intros a df out r H Hr. apply main_inr in H. destruct H as [long [Hl ->]].
    pose proof (final_ok a long r (to_long_ok a df long Hl) Hr) as [K1 [K2 K3]].
    repeat split; try assumption.
    rewrite K2, K3. now destruct (kind (body r)).
  - intros x. rewrite map_app, in_app_iff.
    rewrite <- item_kind_all_animals, <- item_kind_aggregate.
    destruct (item_kind x); split; intros H; try reflexivity; try discriminate.
    + exfalso. apply H. now left.
    + exfalso. apply H. now right.
    + intros [E|E]; discriminate.
Qed.

(** ** Where the rows written come from *)

Lemma select_source (n : ElementNorm) (long : list LongRow) (b : Rec) :
  In b (select n long) ->
  exists l, In l long /\ l_ElementNorm l = n /\
            Area b = l_Area l /\ Item b = l_Item l /\ Year b = l_Year l.
Proof.
  unfold select. rewrite in_map_iff. intros [l [<- Hl]].
  apply filter_In in Hl. destruct Hl as [Hl E].
  exists l. repeat split; try assumption.
  destruct (l_ElementNorm l), n; try discriminate; reflexivity.
Qed.

Lemma scaled_source (c : Q) (f : list Rec) (b : Rec) :
  In b (scaled c f) -> exists b0, In b0 f /\ key6 b = key6 b0.
Proof.
  rewrite scaled_map, in_map_iff. intros [b0 [<- H]]. now exists b0.
Qed.

Lemma groupby6_source (f : list Rec) (kv : Key6 * Q) :
  In kv (groupby6 f) -> exists b0, In b0 f /\ fst kv = key6 b0.
Proof.
  intros Hin. assert (Hk : In (fst kv) (List.map fst (groupby6 f)))
    by (apply in_map; exact Hin).
  unfold groupby6 in Hk.
  rewrite (groupby_sum_keys key6 Value key6_eqb key6_compare key6_eqb_spec) in Hk.
  apply in_map_iff in Hk. destruct Hk as [b [E Hb]]. now exists b.
Qed.

Lemma key6_rec_of (k : Key6) (v : Q) : key6 (rec_of_key6 (k, v)) = k.
Proof. now destruct k as [[[[[a i] y] kd] aa] at_]. Qed.

Lemma co2e_frame_source (f : list Rec) (b : Rec) :
  In b (co2e_frame f) -> exists b0, In b0 f /\ key6 b = key6 b0.
Proof.
  unfold co2e_frame. rewrite in_map_iff. intros [[k v] [<- H]].
  destruct (groupby6_source f (k, v) H) as [b0 [Hb E]].
  exists b0. split; [assumption|]. now rewrite key6_rec_of.
Qed.

Lemma total_frame_source (ch4 n2o : list Rec) (b : Rec) :
  In b (total_frame ch4 n2o) ->
  exists b0, (In b0 ch4 \/ In b0 n2o) /\ key6 b = key6 b0.
Proof.
  unfold total_frame. rewrite in_map_iff. intros [[[k c] n] [<- Ht]].
  rewrite key6_rec_of.
  destruct (merge_outer_keys _ _ _ Ht) as [H|H]; cbn [fst] in H;
    apply in_map_iff in H; destruct H as [kv [E Hkv]];
    destruct (groupby6_source _ kv Hkv) as [b0 [Hb E']];
    exists b0; (split; [auto | congruence]).
Qed.

Lemma key6_place (b b0 : Rec) :
  key6 b = key6 b0 -> Area b = Area b0 /\ Item b = Item b0 /\ Year b = Year b0.
Proof. unfold key6. intros H. inversion H. auto. Qed.

Lemma cattle_split_source (s : bool) (f : Q) (sb : list Rec) (b : Rec) :
  In b (cattle_split s f sb) ->
  exists b0, In b0 sb /\ Area b = Area b0 /\ Year b = Year b0 /\
    (Item b = Item b0 \/
     (s = true /\ looks_like_cattle (Item b0) = true /\
      In (Item b) (split_items (Item b0)))).
Proof.
  destruct s.
  - rewrite cattle_split_true, !in_app_iff, !in_map_iff.
    intros [H|[[b0 [<- H]]|[b0 [<- H]]]]; apply filter_In in H; destruct H as [H E].
    + exists b. auto.
    + exists b0. repeat split; try assumption. right. repeat split; try assumption.
      left. reflexivity.
    + exists b0. repeat split; try assumption. right. repeat split; try assumption.
      right. left. reflexivity.
  - intros H. exists b. auto.
Qed.

Lemma frame_source (a : Args) (long : list LongRow) (m : MetricName) (b : Rec) :
  In b (frame a long m) ->
  exists l, In l long /\ feeds (l_ElementNorm l) m = true /\
    Area b = l_Area l /\ Year b = l_Year l /\
    (Item b = l_Item l \/
     (m = M_LSU /\ flag (split_cattle a) = true /\
      looks_like_cattle (l_Item l) = true /\ In (Item b) (split_items (l_Item l)))).
Proof.
  destruct m; unfold frame, post_split; cbv zeta; intros H.
  - apply select_source in H. destruct H as [l [Hl [En [E1 [E2 E3]]]]].
    exists l. rewrite En. repeat split; try assumption. now left.
  - apply co2e_frame_source in H. destruct H as [b1 [H E]].
    apply scaled_source in H. destruct H as [b0 [H E0]].
    apply select_source in H. destruct H as [l [Hl [En [E1 [E2 E3]]]]].
    rewrite E0 in E. apply key6_place in E. destruct E as [K1 [K2 K3]].
    exists l. rewrite En. repeat split; try congruence. left. congruence.
  - apply co2e_frame_source in H. destruct H as [b1 [H E]].
    apply scaled_source in H. destruct H as [b0 [H E0]].
    apply select_source in H. destruct H as [l [Hl [En [E1 [E2 E3]]]]].
    rewrite E0 in E. apply key6_place in E. destruct E as [K1 [K2 K3]].
    exists l. rewrite En. repeat split; try congruence. left. congruence.
  - apply total_frame_source in H. destruct H as [b1 [[H|H] E]];
      apply scaled_source in H; destruct H as [b0 [H E0]];
      apply select_source in H; destruct H as [l [Hl [En [E1 [E2 E3]]]]];
      rewrite E0 in E; apply key6_place in E; destruct E as [K1 [K2 K3]];
      exists l; rewrite En; (repeat split; try congruence); left; congruence.
  - unfold lsu_frame in H. apply in_map_iff in H. destruct H as [b1 [<- H]].
    apply cattle_split_source in H. destruct H as [b0 [H [K1 [K3 K2]]]].
    apply select_source in H. destruct H as [l [Hl [En [E1 [E2 E3]]]]].
    exists l. rewrite En. cbn [set_Value Area Item Year].
    repeat split; try congruence.
    destruct K2 as [K2|[S [C I]]]; [left; congruence|].
    right. rewrite <- E2. auto.
Qed.

Lemma clean_In (rs : list RawRow) (r : RawRow) :
  In r (clean rs) <->
  exists r0, In r0 rs /\ r = stripped r0 /\ excluded (raw_Item r0) = false.
Proof.
  unfold clean. rewrite filter_In, in_map_iff. fold EXCLUDE_ITEMS.
  split.
  - intros [[r0 [<- H]] E]. exists r0. repeat split; [assumption|].
    cbn [raw_Item] in E. rewrite strip_idem in E.
    unfold excluded. now apply negb_true_iff.
  - intros [r0 [H [-> E]]]. split; [now exists r0|].
    cbn [stripped raw_Item]. rewrite strip_idem. unfold excluded in E.
    now rewrite E.
Qed.

Lemma kept_rows_In (a : Args) (df : DataFrame) (rn : RawRow * ElementNorm) :
  In rn (kept_rows a df) ->
  exists r0, In r0 (rows df) /\ fst rn = stripped r0 /\
    excluded (raw_Item r0) = false /\
    normalize_element (Some (raw_Element r0)) = Some (snd rn).
Proof.
  unfold kept_rows. intros H.
  assert (H' : In rn (classify (clean (rows df)))).
  { unfold livestock_total_filter in H.
    destruct (flag (only_livestock_total a)); [|exact H].
    apply filter_In in H. apply H. }
  destruct rn as [r n]. apply classify_In in H'. destruct H' as [Hr E].
  apply clean_In in Hr. destruct Hr as [r0 [H0 [-> X]]].
  exists r0. repeat split; try assumption.
  cbn [stripped raw_Element] in E. now rewrite normalize_element_strip in E.
Qed.

Lemma to_long_inr (a : Args) (df : DataFrame) (long : list LongRow) :
  to_long a df = inr long ->
  long = melt (detect_year_cols (columns df)) (kept_rows a df).
Proof. intros H. apply to_long_melt in H. exact H. Qed.

Lemma per_country_source (a : Args) (df : DataFrame) (long : list LongRow) (r : Row) :
  to_long a df = inr long -> In r (per_country (prepared a long)) ->
  exists r0 c, In r0 (rows df) /\ In c (detect_year_cols (columns df)) /\
    Area (body r) = Str.strip (raw_Area r0) /\ comes_from a r r0 c.
Proof.
  intros Hl Hr. apply per_country_In, frame_source in Hr.
  destruct Hr as [l [Hin [F [E1 [E3 E2]]]]].
  rewrite (to_long_inr a df long Hl) in Hin. apply melt_In in Hin.
  destruct Hin as [c [rn [Hc [Hrn ->]]]].
  apply kept_rows_In in Hrn. destruct Hrn as [r0 [H0 [Er [X N]]]].
  cbn [long_row l_Area l_Item l_Year l_ElementNorm] in *. rewrite Er in *.
  cbn [stripped raw_Area raw_Item] in *.
  exists r0, c. repeat split; try assumption.
  - now left.
  - exists (snd rn). split; assumption.
Qed.

Lemma final_source (a : Args) (df : DataFrame) (out : list Row) (r : Row) :
  main a df = inr out -> In r out ->
  exists r0 c, In r0 (rows df) /\ In c (detect_year_cols (columns df)) /\
               comes_from a r r0 c.
Proof.
  intros H Hr. apply main_inr in H. destruct H as [long [Hl ->]].
  apply append_totals_In in Hr. destruct Hr as [Hr|Hr].
  - destruct (per_country_source a df long r Hl Hr) as [r0 [c [H0 [Hc [_ S]]]]].
    now exists r0, c.
  - assert (G : exists members label,
                In label GROUP_LABELS /\
                In r (region_rows (per_country (prepared a long)) members label)).
    { unfold add_frames in Hr. rewrite !concat_app in Hr.
      apply in_app_or in Hr. destruct Hr as [Hr|Hr];
        [exists EU, "EU (group total)"; split; [now left | exact Hr]|].
      apply in_app_or in Hr. destruct Hr as [Hr|Hr];
        [exists EEA_PLUS_UK, "EU/EEA+UK (group total)"; split;
           [right; now left | exact Hr]|].
      exists EUROPE_WIDE, "Europe (group total)". split; [right; right; now left | exact Hr]. }
    destruct G as [members [label [Hlab Hg]]].
    destruct (region_totals_any (per_country (prepared a long)) members label)
      as [_ [S1 _]].
    destruct (S1 r Hg) as [Ea [[m [Hm [_ Ek]]] _]].
    destruct (per_country_source a df long m Hl Hm)
      as [r0 [c [H0 [Hc [_ [Y [_ [I [N X]]]]]]]]].
    unfold keyG in Ek. inversion Ek as [[K1 K2 K3 K4 K5 K6]].
    exists r0, c. split; [assumption|]. split; [assumption|].
    unfold comes_from. rewrite <- K1, <- K2, <- K3, Ea.
    repeat split; try assumption. now right.
Qed.

(** X10. Every row of a table written by [main] can be traced to a row
    and a year column of the table read: its year is the number in the
    column name; its area is the stripped area of the raw row, or a group
    label; its item is the stripped item of the raw row or, for an LSU
    row of a cattle-like item with the split enabled, one of the two
    replaced labels; the raw row is not excluded and its element is
    classified Stocks for a Stocks or LSU row, CH4 for a CH4_CO2e row, N2O
    for an N2O_CO2e row and CH4 or N2O for a Total_CO2e row. *)
Theorem rows_have_a_source :
  forall a df out r, main a df = inr out -> In r out ->
    exists r0 c, In r0 (rows df) /\ In c (detect_year_cols (columns df)) /\
      Year (body r) = Str.int (Str.tail c) /\
      (Area (body r) = Str.strip (raw_Area r0) \/ In (Area (body r)) GROUP_LABELS) /\
      (Item (body r) = Str.strip (raw_Item r0) \/
       (Metric r = M_LSU /\ flag (split_cattle a) = true /\
        looks_like_cattle (Str.strip (raw_Item r0)) = true /\
        In (Item (body r)) (split_items (Str.strip (raw_Item r0))))) /\
      (exists n, normalize_element (Some (raw_Element r0)) = Some n /\
                 feeds n (Metric r) = true) /\
      excluded (raw_Item r0) = false.
Proof.
  intros a df out r H Hr.
  destruct (final_source a df out r H Hr) as [r0 [c [H0 [Hc S]]]].
  exists r0, c. split; [assumption|]. split; [assumption|]. exact S.
Qed.

Lemma rows_have_a_source_witness :
  let a := default_args in
  let r := mkRow M_LSU (mkRec "France" "Cattle (dairy)" 2020 350.00000 atomic false true) in
  exists r0 c, In r0 (rows scenario_df) /\ In c (detect_year_cols (columns scenario_df)) /\
    Year (body r) = Str.int (Str.tail c) /\
    (Area (body r) = Str.strip (raw_Area r0) \/ In (Area (body r)) GROUP_LABELS) /\
    (Item (body r) = Str.strip (raw_Item r0) \/
     (Metric r = M_LSU /\ flag (split_cattle a) = true /\
      looks_like_cattle (Str.strip (raw_Item r0)) = true /\
      In (Item (body r)) (split_items (Str.strip (raw_Item r0))))) /\
    (exists n, normalize_element (Some (raw_Element r0)) = Some n /\
               feeds n (Metric r) = true) /\
    excluded (raw_Item r0) = false.
Proof.
  apply (rows_have_a_source default_args scenario_df scenario_out
           (mkRow M_LSU (mkRec "France" "Cattle (dairy)" 2020 350.00000 atomic false true))).
  - vm_compute. reflexivity.
  - vm_compute. do 18 right. left. reflexivity.
Defined.

(** ** Padding and excluded items *)

Lemma stripped_idem (r : RawRow) : stripped (stripped r) = stripped r.
Proof. unfold stripped. cbn [raw_Area raw_Item raw_Element raw_cell]. now rewrite !strip_idem. Qed.

Lemma clean_as_map (rs : list RawRow) :
  clean rs = List.map stripped (filter (fun r => negb (excluded (raw_Item r))) rs).
Proof.
  unfold clean. fold stripped.
  change (fun r : RawRow => mkRaw (Str.strip (raw_Area r)) (Str.strip (raw_Item r))
                              (Str.strip (raw_Element r)) (raw_cell r)) with stripped.
  rewrite filter_map_comm. f_equal. apply filter_ext. intros r.
  cbn [stripped raw_Item]. unfold excluded. now rewrite strip_idem.
Qed.

Lemma excluded_strip (item : string) : excluded (Str.strip item) = excluded item.
Proof. unfold excluded. now rewrite strip_idem. Qed.

Lemma clean_stripped (rs : list RawRow) : clean (List.map stripped rs) = clean rs.
Proof.
  rewrite !clean_as_map, filter_map_comm, map_map.
  rewrite (map_ext _ _ stripped_idem). f_equal. apply filter_ext. intros r.
  cbn [stripped raw_Item]. now rewrite excluded_strip.
Qed.

Lemma clean_not_excluded (rs : list RawRow) :
  clean (filter (fun r => negb (excluded (raw_Item r))) rs) = clean rs.
Proof.
  rewrite !clean_as_map, filter_filter. f_equal. apply filter_ext. intros r.
  apply andb_diag.
Qed.

Lemma main_rows (a : Args) (cols : list string) (rs rs' : list RawRow) :
  clean rs = clean rs' -> main a (mkDF cols rs) = main a (mkDF cols rs').
Proof.
  intros E. unfold main, to_long. cbn [columns rows]. now rewrite E.
Qed.

Lemma excluded_spec (item : string) :
  excluded item = true <->
  Str.lower (Str.strip item) = "chickens" \/
  Str.lower (Str.strip item) = "mules and hinnies".
Proof.
  unfold excluded. rewrite mem_spec.
  change EXCLUDE_ITEMS with ["chickens"; "mules and hinnies"].
  cbn [In]. intuition congruence.
Qed.

Lemma split_item_kept (T s : string) :
  T = "Cattle (dairy)" \/ T = "Cattle (other)" ->
  excluded s = false -> excluded (Re.sub true re_cattle T s) = false.
Proof.
  intros HT X. destruct (Str.isin "cattle" (Str.lower s)) eqn:E.
  - unfold excluded. rewrite <- strip_lower.
    apply (mem_without "("); [reflexivity|].
    apply strip_keeps; [reflexivity | cbn; intros d D; inversion D; reflexivity|].
    apply occurs_isin. apply (occurs_trans _ (Str.lower T)).
    + apply occurs_isin. destruct HT as [-> | ->]; reflexivity.
    + apply occurs_lower, occurs_isin, sub_has_token, E.
  - unfold Re.sub. now rewrite (sub_unchanged T _ None E).
Qed.

(** X11. White space around the Area, Item and Element of the rows read
    changes nothing: the run on the stripped rows is the run on the rows as
    read.  Rows whose item, stripped and in lower case, is chickens or
    mules and hinnies change nothing either: the run without them is the
    same run, and no row of a table written bears such an item, the labels
    of the cattle split included. *)
Theorem padding_and_excluded_items :
  (forall a cols rs,
     main a (mkDF cols (List.map stripped rs)) = main a (mkDF cols rs)) /\
  (forall a cols rs,
     main a (mkDF cols (filter (fun r => negb (excluded (raw_Item r))) rs))
     = main a (mkDF cols rs)) /\
  (forall item, excluded item = true <->
     Str.lower (Str.strip item) = "chickens" \/
     Str.lower (Str.strip item) = "mules and hinnies") /\
  (forall a df out r, main a df = inr out -> In r out ->
     excluded (Item (body r)) = false).
Proof.
  split; [|split; [|split; [exact excluded_spec|]]].
  - intros a cols rs. apply main_rows, clean_stripped.
  - intros a cols rs. apply main_rows, clean_not_excluded.
  - intros a df out r H Hr.
    destruct (final_source a df out r H Hr) as [r0 [c [_ [_ [_ [_ [I [_ X]]]]]]]].
    destruct I as [-> | [_ [_ [_ I]]]]; [now rewrite excluded_strip|].
    rewrite <- excluded_strip in X.
    destruct I as [<- | [<- | []]]; apply split_item_kept; auto.
Qed.

(** ** Grouping and merging keep the sums *)

Lemma sum_if_filter {A : Type} (t : A -> bool) (v : Q) (l : list A) :
  sumQ (List.map (fun a => if t a then v else 0) l)
  == sumQ (List.map (fun _ => v) (filter t l)).
Proof.
  induction l as [|x l IH]; [reflexivity|]. cbn [List.map filter].
  destruct (t x); cbn [List.map]; rewrite !sumQ_cons, IH; ring.
Qed.

Lemma sumQ_flat_map {A B : Type} (g : B -> Q) (S : A -> list B) (l : list A) :
  sumQ (List.map g (flat_map S l))
  == sumQ (List.map (fun a => sumQ (List.map g (S a))) l).
Proof.
  induction l as [|x l IH]; [reflexivity|]. cbn [flat_map List.map].
  now rewrite map_app, sumQ_app, sumQ_cons, IH.
Qed.

Section GroupSums.

Context {A K : Type}.
Variable key : A -> K.
Variable val : A -> Q.
Variable eqb : K -> K -> bool.
Variable cmp : K -> K -> comparison.
Hypothesis eqb_spec : forall a b, eqb a b = true <-> a = b.

Lemma filter_eqb_NoDup (c : K) (ks : list K) :
  NoDup ks -> In c ks -> filter (fun k => eqb c k) ks = [c].
Proof.
  induction 1 as [|k ks Hk Hn IH]; [intros []|].
  intros [-> | Hc]; cbn [filter].
  - rewrite (proj2 (eqb_spec c c) eq_refl). f_equal.
    apply filter_nil_iff. intros k Hin.
    destruct (eqb c k) eqn:E; [|reflexivity].
    apply eqb_spec in E. subst k. contradiction.
  - destruct (eqb c k) eqn:E; [|now apply IH].
    apply eqb_spec in E. subst k. contradiction.
Qed.

Lemma group_sums (ks : list K) (l : list A) :
  NoDup ks -> (forall a, In a l -> In (key a) ks) ->
  sumQ (List.map (fun k => sumQ (List.map val (group key eqb l k))) ks)
  == sumQ (List.map val l).
Proof.
  intros Hn. induction l as [|x l IH]; intros Hin.
  - cbn [group filter List.map]. apply sumQ_zero. intros k _. reflexivity.
  - rewrite (sumQ_map_ext _
               (fun k => (if eqb (key x) k then val x else 0)
                         + sumQ (List.map val (group key eqb l k)))).
    + rewrite sumQ_map_plus, IH by (intros a Ha; apply Hin; now right).
      rewrite sum_if_filter, filter_eqb_NoDup by (try assumption; apply Hin; now left).
      cbn [List.map]. rewrite sumQ_single, sumQ_cons. reflexivity.
    + intros k _. unfold group. cbn [filter].
      destruct (eqb (key x) k); cbn [List.map]; [rewrite sumQ_cons|]; ring.
Qed.

Lemma groupby_sum_total (l : list A) :
  sumQ (List.map snd (groupby_sum key val eqb cmp l)) == sumQ (List.map val l).
Proof.
  unfold groupby_sum. rewrite map_map. cbn [snd].
  apply group_sums.
  - eapply Permutation_NoDup; [apply Permutation_sym, sort_values_perm|].
    now apply NoDup_unique.
  - intros a Ha. apply In_sort_values. apply (In_unique eqb eqb_spec).
    now apply in_map.
Qed.

End GroupSums.

Lemma sum_matched (L : list (Key6 * Q)) (k : Key6) (v : Q) :
  NoDup (List.map fst L) ->
  sumQ (List.map (fun a : Key6 * Q => if key6_eqb (fst a) k then v else 0) L)
  == if existsb (fun a : Key6 * Q => key6_eqb (fst a) k) L then v else 0.
Proof.
  intros Hn. rewrite sum_if_filter.
  assert (S : (List.length (filter (fun a : Key6 * Q => key6_eqb (fst a) k) L) <= 1)%nat).
  { apply (filter_short fst); [exact Hn|].
    intros x z Hx Hz. apply filter_In in Hx, Hz.
    destruct Hx as [_ Hx], Hz as [_ Hz]. apply key6_eqb_spec in Hx, Hz. congruence. }
  destruct (existsb (fun a : Key6 * Q => key6_eqb (fst a) k) L) eqn:E.
  - apply existsb_exists in E. destruct E as [a [Ha Ea]].
    assert (I : In a (filter (fun a : Key6 * Q => key6_eqb (fst a) k) L))
      by (apply filter_In; auto).
    destruct (filter (fun a : Key6 * Q => key6_eqb (fst a) k) L) as [|b [|c l]];
      [destruct I | apply sumQ_single | simpl in S; lia].
  - assert (N : filter (fun a : Key6 * Q => key6_eqb (fst a) k) L = []).
    { apply filter_nil_iff. intros a Ha.
      destruct (key6_eqb (fst a) k) eqn:Ea; [|reflexivity].
      assert (X : existsb (fun a : Key6 * Q => key6_eqb (fst a) k) L = true)
        by (apply existsb_exists; eauto).
      congruence. }
    rewrite N. reflexivity.
Qed.

Lemma merge_outer_right (L R : list (Key6 * Q)) :
  NoDup (List.map fst L) ->
  sumQ (List.map
          (fun a : Key6 * Q =>
             sumQ (List.map snd (filter (fun b : Key6 * Q => key6_eqb (fst a) (fst b)) R)))
          L)
  + sumQ (List.map snd
            (filter (fun b : Key6 * Q =>
                       negb (existsb (fun a : Key6 * Q => key6_eqb (fst a) (fst b)) L)) R))
  == sumQ (List.map snd R).
Proof.
  intros Hn. induction R as [|b R IH].
  - cbn [filter List.map]. rewrite sumQ_zero by (intros; reflexivity). reflexivity.
  - rewrite (sumQ_map_ext _
               (fun a : Key6 * Q =>
                  (if key6_eqb (fst a) (fst b) then snd b else 0)
                  + sumQ (List.map snd
                            (filter (fun b0 : Key6 * Q => key6_eqb (fst a) (fst b0)) R)))).
    + rewrite sumQ_map_plus, (sum_matched L (fst b) (snd b) Hn).
      cbn [filter List.map].
      destruct (existsb (fun a : Key6 * Q => key6_eqb (fst a) (fst b)) L);
        cbn [negb List.map]; rewrite !sumQ_cons, <- IH; ring.
    + intros a _. cbn [filter].
      destruct (key6_eqb (fst a) (fst b)); cbn [List.map]; [rewrite sumQ_cons|]; ring.
Qed.

Lemma merge_outer_sum (L R : list (Key6 * Q)) :
  NoDup (List.map fst L) -> NoDup (List.map fst R) ->
  sumQ (List.map (fun t : Key6 * option Q * option Q =>
                    fillna0 (snd (fst t)) + fillna0 (snd t)) (merge_outer L R))
  == sumQ (List.map snd L) + sumQ (List.map snd R).
Proof.
  intros HL HR. unfold merge_outer.
  rewrite (sumQ_perm _ _ (Permutation_map _ (sort_values_perm _ _))).
  rewrite map_app, sumQ_app, sumQ_flat_map, map_map. cbn [fst snd fillna0].
  rewrite <- (merge_outer_right L R HL).
  rewrite (sumQ_map_ext _
             (fun a : Key6 * Q =>
                snd a + sumQ (List.map snd
                                (filter (fun b : Key6 * Q => key6_eqb (fst a) (fst b)) R)))).
  - rewrite sumQ_map_plus.
    rewrite (sumQ_map_ext (fun x : Key6 * Q => 0 + snd x) snd) by (intros; ring).
    ring.
  - intros a _.
    assert (S : (List.length (filter (fun b : Key6 * Q => key6_eqb (fst a) (fst b)) R)
                 <= 1)%nat).
    { apply (filter_short fst); [exact HR|].
      intros x z Hx Hz. apply filter_In in Hx, Hz.
      destruct Hx as [_ Hx], Hz as [_ Hz]. apply key6_eqb_spec in Hx, Hz. congruence. }
    destruct (filter (fun b : Key6 * Q => key6_eqb (fst a) (fst b)) R) as [|b [|c l]].
    + cbn [List.map fst snd fillna0]. rewrite sumQ_single. reflexivity.
    + cbn [List.map fst snd fillna0]. rewrite !sumQ_single. reflexivity.
    + simpl in S. lia.
Qed.

Lemma value_rec_of (kv : Key6 * Q) : Value (rec_of_key6 kv) = snd kv.
Proof. now destruct kv as [[[[[[a i] y] k] aa] at_] v]. Qed.

Lemma co2e_frame_sum (f : list Rec) : frame_sum (co2e_frame f) == frame_sum f.
Proof.
  unfold frame_sum, co2e_frame. rewrite map_map.
  rewrite (map_ext _ snd value_rec_of).
  apply (groupby_sum_total key6 Value key6_eqb key6_compare key6_eqb_spec).
Qed.

Lemma scaled_sum (c : Q) (f : list Rec) : frame_sum (scaled c f) == frame_sum f * c.
Proof.
  unfold frame_sum. rewrite scaled_map, map_map. cbn [set_Value Value].
  apply sumQ_map_scale.
Qed.

Lemma total_frame_sum (ch4 n2o : list Rec) :
  frame_sum (total_frame ch4 n2o) == frame_sum ch4 + frame_sum n2o.
Proof.
  unfold frame_sum at 1, total_frame. rewrite map_map.
  rewrite (map_ext _ (fun t : Key6 * option Q * option Q =>
                        fillna0 (snd (fst t)) + fillna0 (snd t)))
    by (intros [[k c] n]; apply value_rec_of).
  rewrite merge_outer_sum by apply groupby6_NoDup.
  unfold groupby6.
  now rewrite !(groupby_sum_total key6 Value key6_eqb key6_compare key6_eqb_spec).
Qed.

Lemma table_sum_frame (a : Args) (long : list LongRow) (m : MetricName) :
  table_sum (per_country (prepared a long)) m == frame_sum (frame a long m).
Proof.
  unfold table_sum.
  rewrite (sumQ_perm _ _
             (Permutation_map _ (filter_perm _ _ _ (per_country_perm a long)))).
  unfold all_frames, with_metric. rewrite !filter_app, !filter_map_comm.
  cbn [Metric]. rewrite !map_app, !map_map. cbn [body].
  destruct m; cbn [metric_eqb];
    rewrite ?filter_all, ?(filter_const _ false) by reflexivity;
    cbn [List.map app]; rewrite ?app_nil_r; reflexivity.
Qed.

Section GroupSumsWhere.

Context {A K : Type}.
Variable key : A -> K.
Variable val : A -> Q.
Variable eqb : K -> K -> bool.
Variable cmp : K -> K -> comparison.
Hypothesis eqb_spec : forall a b, eqb a b = true <-> a = b.
Variable p : K -> bool.

Lemma group_where (l : list A) (k : K) :
  p k = true ->
  group key eqb (filter (fun a => p (key a)) l) k = group key eqb l k.
Proof.
  intros Hk. unfold group. rewrite filter_filter. apply filter_ext. intros a.
  destruct (eqb (key a) k) eqn:E; [|apply andb_false_r].
  apply eqb_spec in E. now rewrite E, Hk.
Qed.

Lemma groupby_sum_where (l : list A) :
  sumQ (List.map snd (filter (fun kv => p (fst kv)) (groupby_sum key val eqb cmp l)))
  == sumQ (List.map val (filter (fun a => p (key a)) l)).
Proof.
  unfold groupby_sum. rewrite filter_map_comm, map_map. cbn [fst snd].
  set (ks := sort_values cmp (unique eqb (List.map key l))).
  assert (Hn : NoDup ks).
  { eapply Permutation_NoDup; [apply Permutation_sym, sort_values_perm|].
    now apply NoDup_unique. }
  assert (Hin : forall a, In a l -> In (key a) ks).
  { intros a Ha. apply In_sort_values. apply (In_unique eqb eqb_spec).
    now apply in_map. }
  rewrite <- (group_sums key val eqb eqb_spec (filter p ks)
                (filter (fun a => p (key a)) l)).
  - apply sumQ_map_ext. intros k Hk. apply filter_In in Hk.
    now rewrite group_where.
  - now apply NoDup_filter.
  - intros a Ha. apply filter_In in Ha. apply filter_In. split; [apply Hin|]; apply Ha.
Qed.

End GroupSumsWhere.

Lemma region_rows_eq (out : list Row) (members : list string) (label : string) :
  region_rows out members label
  = if is_empty (areas_in out members) then []
    else group_totals out (areas_in out members) label.
Proof.
  unfold region_rows, region_frames. fold (areas_in out members).
  destruct (is_empty (areas_in out members)); simpl; [|rewrite app_nil_r]; reflexivity.
Qed.

Lemma filter_members (out : list Row) (members : list string) (q : Row -> bool) :
  filter (fun r => Str.mem (Area (body r)) (areas_in out members) && q r) out
  = filter (fun r => Str.mem (Area (body r)) members && q r) out.
Proof.
  apply filter_ext_in. intros r Hr. f_equal.
  apply eq_true_iff_eq. rewrite !mem_spec, areas_in_spec.
  split; [tauto|]. intros H. split; [now exists r | exact H].
Qed.

Lemma group_totals_sum_where (p : KeyG -> bool) (out : list Row)
    (members : list string) (label : string) :
  sumQ (List.map (fun r => Value (body r))
          (filter (fun r => p (keyG r)) (group_totals out members label)))
  == sumQ (List.map (fun r => Value (body r))
             (filter (fun r => Str.mem (Area (body r)) members && p (keyG r)) out)).
Proof.
  unfold group_totals. rewrite <- (filter_filter (fun r => p (keyG r))).
  set (sub := filter (fun r => Str.mem (Area (body r)) members) out).
  assert (E : sumQ (List.map (fun r => Value (body r))
                      (filter (fun r => p (keyG r))
                         (List.map (row_of_keyG label)
                            (groupby_sum keyG (fun r => Value (body r))
                               keyG_eqb keyG_compare sub))))
              == sumQ (List.map (fun r => Value (body r))
                         (filter (fun r => p (keyG r)) sub))).
  { rewrite filter_map_comm, map_map.
    rewrite (filter_ext (fun x => p (keyG (row_of_keyG label x)))
               (fun kv => p (fst kv)))
      by (intros [[[[[[i y] m] kd] aa] at_] v]; reflexivity).
    rewrite (map_ext (fun x => Value (body (row_of_keyG label x))) snd)
      by (intros [[[[[[i y] m] kd] aa] at_] v]; reflexivity).
    apply (groupby_sum_where keyG (fun r => Value (body r)) keyG_eqb keyG_compare
             keyG_eqb_spec p). }
  destruct sub; [reflexivity | exact E].
Qed.

Lemma region_rows_sum_where (p : KeyG -> bool) (out : list Row)
    (members : list string) (label : string) :
  sumQ (List.map (fun r => Value (body r))
          (filter (fun r => p (keyG r)) (region_rows out members label)))
  == sumQ (List.map (fun r => Value (body r))
             (filter (fun r => Str.mem (Area (body r)) members && p (keyG r)) out)).
Proof.
  rewrite region_rows_eq, <- filter_members.
  destruct (areas_in out members) eqn:E; cbn [is_empty].
  - cbn [filter List.map Str.mem existsb]. cbn [andb].
    now rewrite (filter_const _ false) by reflexivity.
  - rewrite <- E. apply group_totals_sum_where.
Qed.

(** X12. In exact arithmetic (the rationals of the model; the binary
    floating point of the program agrees up to its rounding of each sum and
    product) grouping, merging and splitting keep the sums.  Over the
    per-country table the CH4_CO2e values add up to the CH4 values of the
    long table times the CH4 factor, the N2O_CO2e values to the N2O values
    times the N2O factor, and the Total_CO2e values to the two together;
    the Stocks values add up to the Stocks values of the long table, and
    so do the stocks after the cattle split, in the whole frame and under
    every area and year.  The rows of a group add up to the rows of its
    member areas, for each metric and, more generally, over the rows whose
    item, year, metric and kind satisfy any given condition. *)
Theorem sums_are_kept (a : Args) (long : list LongRow) :
  let out := per_country (prepared a long) in
  let c := fst (gwp_pair (gwp a)) in
  let n := snd (gwp_pair (gwp a)) in
  (table_sum out M_Stocks == frame_sum (select Stocks long) /\
   table_sum out M_CH4_CO2e == frame_sum (select CH4 long) * c /\
   table_sum out M_N2O_CO2e == frame_sum (select N2O long) * n /\
   table_sum out M_Total_CO2e
   == table_sum out M_CH4_CO2e + table_sum out M_N2O_CO2e) /\
  (frame_sum (post_split a long) == frame_sum (select Stocks long) /\
   forall ar y,
     frame_sum (filter (area_year ar y) (post_split a long))
     == frame_sum (filter (area_year ar y) (select Stocks long))) /\
  (forall table members label m,
     table_sum (region_rows table members label) m
     == table_sum (filter (fun r => Str.mem (Area (body r)) members) table) m) /\
  (forall (p : KeyG -> bool) table members label,
     sumQ (List.map (fun r => Value (body r))
             (filter (fun r => p (keyG r)) (region_rows table members label)))
     == sumQ (List.map (fun r => Value (body r))
                (filter (fun r => Str.mem (Area (body r)) members && p (keyG r))
                   table))).
Proof.
  cbv zeta. split; [|split; [|split]].
  - rewrite !table_sum_frame. unfold frame. cbv zeta.
    rewrite total_frame_sum, !co2e_frame_sum, !scaled_sum.
    repeat split; reflexivity.
  - unfold post_split. split; [apply cattle_split_total|].
    intros ar y. apply cattle_split_sum. intros frac T r. apply split_row_at.
  - intros table members label m. unfold table_sum.
    rewrite filter_filter.
    apply (region_rows_sum_where (fun k => metric_eqb (snd (fst (fst (fst k)))) m)).
  - intros p table members label. apply region_rows_sum_where.
Qed.

(** ** Whether a table is written *)

Lemma forallb_const {A : Type} (b : bool) (l : list A) :
  forallb (fun _ => b) l = is_empty l || b.
Proof.
  induction l as [|x l IH]; [reflexivity|]. cbn [forallb is_empty orb].
  rewrite IH. destruct l, b; reflexivity.
Qed.

Lemma forallb_map_const {A B : Type} (f : B -> bool) (g : A -> B) (b : bool)
    (l : list A) :
  (forall x, f (g x) = b) -> forallb f (List.map g l) = is_empty l || b.
Proof.
  intros H. rewrite <- forallb_const.
  induction l as [|x l IH]; [reflexivity|]. cbn [List.map forallb].
  now rewrite H, IH.
Qed.

Lemma forallb_false_In {A : Type} (f : A -> bool) (l : list A) :
  forallb f l = false -> exists x, In x l /\ f x = false.
Proof.
  induction l as [|x l IH]; [discriminate|]. cbn [forallb].
  destruct (f x) eqn:E.
  - intros H. destruct (IH H) as [y [Hy Ey]]. exists y. split; [now right | exact Ey].
  - intros _. exists x. split; [now left | exact E].
Qed.

Lemma years_fit_melt (year_cols : list string) (df : list (RawRow * ElementNorm)) :
  forallb (fun l => fits_int64 (l_Year l)) (melt year_cols df)
  = is_empty df
    || forallb (fun c => fits_int64 (Str.int (Str.tail c))) year_cols.
Proof.
  unfold melt. induction year_cols as [|c ycs IH].
  - cbn [flat_map forallb]. now rewrite orb_true_r.
  - cbn [flat_map forallb]. rewrite forallb_app, IH.
    rewrite (forallb_map_const _ _ (fits_int64 (Str.int (Str.tail c))))
      by (intros [r n]; reflexivity).
    destruct (is_empty df), (fits_int64 (Str.int (Str.tail c))); reflexivity.
Qed.

Lemma year_too_large (cols : list string) (c : string) :
  In c (detect_year_cols cols) ->
  (fits_int64 (Str.int (Str.tail c)) = false <-> (2 ^ 63 <= Str.int (Str.tail c))%Z).
Proof.
  intros H. apply detect_year_cols_In in H. destruct H as [_ [ds [-> Hd]]].
  cbn [Str.tail]. apply isdigit_spec in Hd. destruct Hd as [_ Hd].
  pose proof (int_range ds Hd) as [R _].
  unfold fits_int64. rewrite andb_false_iff, !Z.leb_gt. lia.
Qed.

(** What [main] does, case by case. *)
Lemma main_outcome (a : Args) (df : DataFrame) :
  main a df =
  match missing_columns df with
  | _ :: _ => inl (MissingColumns (missing_columns df))
  | [] =>
      let year_cols := detect_year_cols (columns df) in
      if is_empty year_cols then inl NoYearColumns
      else if is_empty (kept_rows a df) then inl NothingToWrite
      else if forallb (fun c => fits_int64 (Str.int (Str.tail c))) year_cols
      then inr (append_totals
                  (per_country (prepared a (melt year_cols (kept_rows a df)))))
      else inl YearOverflow
  end.
Proof.
  unfold main. rewrite to_long_cases.
  destruct (missing_columns df); [|reflexivity]. cbv zeta.
  destruct (detect_year_cols (columns df)) as [|c ycs] eqn:Ey; [reflexivity|].
  cbn [is_empty]. unfold astype_int. rewrite years_fit_melt.
  destruct (kept_rows a df) as [|rn kept] eqn:Ek.
  - cbn [is_empty orb].
    assert (E : melt (c :: ycs) [] = []) by (apply melt_nil; now right).
    rewrite E. reflexivity.
  - cbn [is_empty orb].
    destruct (forallb _ (c :: ycs)); [|reflexivity].
    destruct (is_empty (prepared a (melt (c :: ycs) (rn :: kept)))) eqn:Ep;
      [|reflexivity].
    apply prepared_empty, melt_nil in Ep. destruct Ep; discriminate.
Qed.

(** X4. With the three label columns and a year column present, [main]
    ends in one of three ways.  It stops with the nothing-to-write error
    exactly when no row is kept (every row is excluded, unclassified or
    filtered out).  It stops with an overflow of the year conversion,
    writing nothing, exactly when a row is kept and the number of some year
    column is 2^63 or more.  It writes a table exactly when a row is kept
    and the number of every year column is below 2^63, and a table
    written is never empty.  A year column of at most 18 digits never
    overflows. *)
Theorem main_writes_or_nothing (a : Args) (df : DataFrame) :
  let year_cols := detect_year_cols (columns df) in
  let too_large c := (2 ^ 63 <= Str.int (Str.tail c))%Z in
  (main a df = inl NothingToWrite <->
     has_required df /\ year_cols <> [] /\ kept_rows a df = []) /\
  (main a df = inl YearOverflow <->
     has_required df /\ kept_rows a df <> [] /\
     exists c, In c year_cols /\ too_large c) /\
  ((exists out, main a df = inr out) <->
     has_required df /\ year_cols <> [] /\ kept_rows a df <> [] /\
     forall c, In c year_cols -> ~ too_large c) /\
  (forall out, main a df = inr out ->
     out <> [] /\
     out = append_totals
             (per_country (prepared a (melt year_cols (kept_rows a df))))) /\
  (forall c, In c year_cols -> (String.length c <= 19)%nat -> ~ too_large c).
Proof.
  cbv zeta.
  assert (L : forall c, In c (detect_year_cols (columns df)) ->
              (String.length c <= 19)%nat -> ~ (2 ^ 63 <= Str.int (Str.tail c))%Z).
  { intros c Hc Hl. apply detect_year_cols_In in Hc. destruct Hc as [_ [ds [-> Hd]]].
    cbn [Str.tail]. cbn [String.length] in Hl.
    apply isdigit_spec in Hd. destruct Hd as [_ Hd].
    pose proof (int_range ds Hd) as [_ R].
    assert (10 ^ Z.of_nat (String.length ds) <= 10 ^ 18)%Z
      by (apply Z.pow_le_mono_r; lia).
    assert (10 ^ 18 < 2 ^ 63)%Z by reflexivity. lia. }
  assert (F : forallb (fun c => fits_int64 (Str.int (Str.tail c)))
                (detect_year_cols (columns df)) = true <->
              forall c, In c (detect_year_cols (columns df)) ->
                        ~ (2 ^ 63 <= Str.int (Str.tail c))%Z).
  { rewrite forallb_forall. split; intros H c Hc.
    - rewrite <- (year_too_large _ c Hc), (H c Hc). discriminate.
    - destruct (fits_int64 (Str.int (Str.tail c))) eqn:E; [reflexivity|].
      apply (year_too_large _ c Hc) in E. now apply H in E. }
  assert (B : forallb (fun c => fits_int64 (Str.int (Str.tail c)))
                (detect_year_cols (columns df)) = false <->
              exists c, In c (detect_year_cols (columns df)) /\
                        (2 ^ 63 <= Str.int (Str.tail c))%Z).
  { split.
    - intros Ef. destruct (forallb_false_In _ _ Ef) as [c [Hc E]].
      exists c. split; [exact Hc|]. now apply (year_too_large (columns df) c).
    - intros [c [Hc Hb]].
      destruct (forallb _ (detect_year_cols (columns df))) eqn:Ef; [|reflexivity].
      exfalso. exact (proj1 F eq_refl c Hc Hb). }
  assert (N : kept_rows a df <> [] -> detect_year_cols (columns df) <> [] ->
              append_totals
                (per_country
                   (prepared a (melt (detect_year_cols (columns df)) (kept_rows a df))))
              <> []).
  { intros Hk Hy. apply append_totals_not_nil. intros E2.
    apply sort_values_nil in E2. rewrite concat_prepared in E2.
    apply (all_frames_not_nil a _) in E2; [exact E2|].
    intros E. apply melt_nil in E. tauto. }
  rewrite <- missing_nil. fold (missing_columns df).
  rewrite main_outcome. cbv zeta.
  destruct (missing_columns df) as [|m ms].
  2:{ split; [|split; [|split; [|split; [|exact L]]]].
      - split; [discriminate | intros [H _]; discriminate].
      - split; [discriminate | intros [H _]; discriminate].
      - split; [intros [out H]; discriminate | intros [H _]; discriminate].
      - intros out H. discriminate. }
  destruct (detect_year_cols (columns df)) as [|c0 ycs] eqn:Ey; cbn [is_empty].
  { split; [|split; [|split; [|split; [|exact L]]]].
    - split; [discriminate | intros [_ [H _]]; congruence].
    - split; [discriminate | intros [_ [_ [c [[] _]]]]].
    - split; [intros [out H]; discriminate | intros [_ [H _]]; congruence].
    - intros out H. discriminate. }
  assert (Hy : c0 :: ycs <> []) by discriminate.
  destruct (kept_rows a df) as [|rn kept] eqn:Ek; cbn [is_empty].
  { split; [|split; [|split; [|split; [|exact L]]]].
    - split; [intros _; auto | reflexivity].
    - split; [discriminate | intros [_ [H _]]; congruence].
    - split; [intros [out H]; discriminate | intros [_ [_ [H _]]]; congruence].
    - intros out H. discriminate. }
  assert (Hk : rn :: kept <> []) by discriminate.
  destruct (forallb _ (c0 :: ycs)) eqn:Ef.
  - pose proof (proj1 F eq_refl) as Hfit.
    split; [|split; [|split; [|split; [|exact L]]]].
    + split; [discriminate | intros [_ [_ H]]; discriminate].
    + split; [discriminate|]. intros [_ [_ [c [Hc Hbig]]]]. exfalso. now apply (Hfit c).
    + split; [intros _; auto | eauto].
    + intros out H. inversion H as [E]. split; [|reflexivity]. now apply N.
  - pose proof (proj1 B eq_refl) as [c [Hc Hbig]].
    split; [|split; [|split; [|split; [|exact L]]]].
    + split; [discriminate | intros [_ [_ H]]; discriminate].
    + split; [intros _; eauto | reflexivity].
    + split; [intros [out H]; discriminate|].
      intros [_ [_ [_ H]]]. exfalso. now apply (H c).
    + intros out H. discriminate.
Qed.

(** A year column one above the largest 64-bit integer stops the run; the
    largest itself does not. *)
Example year_overflow_run :
  let row := mkRaw "France" "Sheep" "Stocks" (fun _ => 1) in
  main default_args
    (mkDF ["Area"; "Item"; "Element"; "Y9223372036854775808"] [row])
  = inl YearOverflow /\
  (exists out,
     main default_args
       (mkDF ["Area"; "Item"; "Element"; "Y9223372036854775807"] [row])
     = inr out) /\
  main default_args (mkDF ["Area"; "Item"; "Element"; "Y9223372036854775808"] [])
  = inl NothingToWrite.
Proof.
  cbv zeta. split; [vm_compute; reflexivity|]. split; [|vm_compute; reflexivity].
  eexists. vm_compute. reflexivity.
Qed.
